(** * trading-strategies: backtest engine and strategy signal logic

    A shallow embedding of [app/backtest/engine.py], [app/strategies/base.py],
    [app/strategies/mean_reversion.py] and
    [app/strategies/volatility_contraction.py].

    Conventions of the embedding.
    - A Python/NumPy float is an exact rational ([Q]): the rounding of
      binary floating point is not modelled.  The one non-number the code
      tests for, NaN, is written [None] in a column of [option Q] (the ATR
      column and the Bollinger bands, which pandas leaves undefined until
      the rolling window is full).  Price columns hold finite numbers.
      Where the code can meet an infinity or leave the range of a double
      (a quotient by zero, a decimal literal read by [float]) the model
      says so at that place.
    - A data frame is a record of optional columns, so that a missing
      column and the [KeyError] of reading it can be stated.
    - A raised exception is a value of type [exn]; a call that may raise
      returns [result].  A method that mutates its object before it
      raises returns the object together with the exception.
    - Locals of a loop body are the fields of a state record threaded
      through the loop.
    - The builtins and the pandas and NumPy calls the code goes through
      ([int], [float], [bool], [round], [rolling().mean()], [np.std], ...)
      are written out as functions on these types. *)

From Stdlib Require Import String Ascii ZArith QArith Qround Qabs Qminmax Bool Lia Lqa List.
Import ListNotations.

Local Open Scope string_scope.
Local Open Scope list_scope.
Local Open Scope Q_scope.

Set Warnings "-register-all".

(** ** Python exceptions and fallible computations *)

Inductive exn : Type :=
| KeyError (key : string)
| IndexError
| ValueError
| TypeError
| OverflowError.

Inductive result (A : Type) : Type :=
| Ok (a : A)
| Raise (e : exn).
Arguments Ok {A} a.
Arguments Raise {A} e.

Definition bind {A B : Type} (m : result A) (k : A -> result B) : result B :=
  match m with
  | Ok a => k a
  | Raise e => Raise e
  end.

Notation "x <- m ;; k" := (bind m (fun x => k))
  (at level 61, m at next level, right associativity).

Definition raises {A : Type} (m : result A) : bool :=
  match m with Ok _ => false | Raise _ => true end.

(** ** Float comparisons on the rational model *)

Definition Qlt_bool (x y : Q) : bool := negb (Qle_bool y x).

(** [pd.isna(x)] on a float cell. *)
Definition isna (x : option Q) : bool :=
  match x with None => true | Some _ => false end.

(** [sum(xs)] of Python: left fold from the integer 0. *)
Definition py_sum (xs : list Q) : Q := fold_left Qplus xs 0.

(** [round(x, ndigits)]: to the nearest multiple of 10^-ndigits, a tie
    going to the even neighbour.  The number rounded here is the exact
    one; the float the code rounds is rarely an exact tie, so that where
    the exact number is a tie the code may return the other neighbour. *)
Definition round_half_even (q : Q) : Z :=
  let f := Qfloor q in
  match Qcompare (q - inject_Z f) (1 # 2) with
  | Lt => f
  | Gt => (f + 1)%Z
  | Eq => if Z.even f then f else (f + 1)%Z
  end.

Definition py_round (x : Q) (ndigits : nat) : Q :=
  let scale := inject_Z (10 ^ Z.of_nat ndigits) in
  inject_Z (round_half_even (x * scale)) / scale.

(** ** app/backtest/engine.py *)

Module Engine.

(** [@dataclass class Trade]. *)
Record Trade : Type := mkTrade {
  entry_idx : Z;
  entry_price : Q;
  direction : Z;          (* 1 = long, -1 = short *)
  stop_loss : Q;
  take_profit : Q;
  exit_idx : Z;
  exit_price : Q;
  pnl : Q;
  closed : bool
}.

(** The constructor call of the source, with the dataclass defaults. *)
Definition new_Trade (i : Z) (ep : Q) (d : Z) (sl tp : Q) : Trade :=
  mkTrade i ep d sl tp (-1) 0 0 false.

(** The frame handed to the engine.  A column that the frame does not
    have is [None]; [nrows] is [len(df)]. *)
Record DataFrame : Type := mkDF {
  nrows : nat;
  col_time : option (list Z);
  col_open : option (list Q);
  col_high : option (list Q);
  col_low : option (list Q);
  col_close : option (list Q);
  col_signal : option (list Z);
  col_atr : option (list (option Q))
}.

(** Every column present has one cell per row. *)
Definition has_len {A : Type} (n : nat) (c : option (list A)) : Prop :=
  match c with Some l => length l = n | None => True end.

Definition wf_frame (df : DataFrame) : Prop :=
  has_len (nrows df) (col_time df) /\ has_len (nrows df) (col_open df) /\
  has_len (nrows df) (col_high df) /\ has_len (nrows df) (col_low df) /\
  has_len (nrows df) (col_close df) /\ has_len (nrows df) (col_signal df) /\
  has_len (nrows df) (col_atr df).

(** [df[name]] and [series.iloc[i]]. *)
Definition getitem {A : Type} (name : string) (c : option (list A))
  : result (list A) :=
  match c with Some l => Ok l | None => Raise (KeyError name) end.

Definition iloc {A : Type} (l : list A) (i : nat) : result A :=
  match nth_error l i with Some x => Ok x | None => Raise IndexError end.

(** [series.iloc[-1]]. *)
Definition iloc_last {A : Type} (l : list A) : result A :=
  match rev l with x :: _ => Ok x | [] => Raise IndexError end.

(** *** _compute_atr *)

(** [series.shift()]: every cell moves one row down, the first is NaN. *)
Definition shift (c : list Q) : list (option Q) :=
  firstn (length c) (None :: map Some c).

(** One row of [pd.concat([high_low, high_close, low_close], axis=1).max(axis=1)];
    the row maximum skips NaN cells. *)
Definition true_range (h l : Q) (prev_close : option Q) : Q :=
  match prev_close with
  | None => h - l
  | Some c => Qmax (h - l) (Qmax (Qabs (h - c)) (Qabs (l - c)))
  end.

Fixpoint true_ranges (hs ls : list Q) (pcs : list (option Q)) : list Q :=
  match hs, ls, pcs with
  | h :: hs', l :: ls', pc :: pcs' => true_range h l pc :: true_ranges hs' ls' pcs'
  | _, _, _ => []
  end.

(** [series.rolling(period).mean()]: NaN until [period] rows are seen,
    and in every row for a window of no row. *)
Definition rolling_mean (period : nat) (xs : list Q) : list (option Q) :=
  map (fun i =>
         if (1 <=? period)%nat && (period <=? i + 1)%nat
         then Some (py_sum (firstn period (skipn (i + 1 - period) xs))
                    / inject_Z (Z.of_nat period))
         else None)
      (seq 0 (length xs)).

Definition _compute_atr (df : DataFrame) (period : nat)
  : result (list (option Q)) :=
  high <- getitem "high" (col_high df) ;;
  low <- getitem "low" (col_low df) ;;
  close <- getitem "close" (col_close df) ;;
  Ok (rolling_mean period (true_ranges high low (shift close))).

(** *** run_backtest *)

Record Config : Type := mkConfig {
  spread_pips : Q;
  sl_atr_mult : Q;
  tp_atr_mult : Q;
  risk_pct : Q;
  initial_capital : Q
}.

(** The keyword defaults of [run_backtest]. *)
Definition default_config : Config :=
  mkConfig (15 # 10) (15 # 10) 2 (1 # 100) 10000.

(** Line 73: [spread = spread_pips * 0.0001]. *)
Definition spread_of (cfg : Config) : Q := spread_pips cfg * (1 # 10000).

(** The locals that live across iterations of the bar loop. *)
Record State : Type := mkState {
  capital : Q;
  curve : list Q;              (* equity_curve *)
  ledger : list Trade;         (* trades *)
  open_trade : option Trade
}.

Definition init_state (cfg : Config) : State :=
  mkState (initial_capital cfg) [initial_capital cfg] [] None.

(** Which of the two flags [hit_sl], [hit_tp] the exit check raised. *)
Inductive hit : Type := hit_sl | hit_tp.

(** Lines 94-107: the stop is tested first, the target in the [elif]. *)
Definition check_exit (spread : Q) (t : Trade) (high low : Q)
  : option (hit * Q) :=
  if (direction t =? 1)%Z then
    if Qle_bool low (stop_loss t) then
      Some (hit_sl, stop_loss t - spread / 2)
    else if Qle_bool (take_profit t) high then
      Some (hit_tp, take_profit t - spread / 2)
    else None
  else
    if Qle_bool (stop_loss t) high then
      Some (hit_sl, stop_loss t + spread / 2)
    else if Qle_bool low (take_profit t) then
      Some (hit_tp, take_profit t + spread / 2)
    else None.

(** Lines 110-121 and, again, 155-165: the exit fields of the trade and
    its PnL scaled by the position size. *)
Definition settle (cfg : Config) (cap : Q) (t : Trade) (i : Z) (price : Q)
  : Trade :=
  let raw := (price - entry_price t) * inject_Z (direction t) in
  let risk_amount := risk_pct cfg * cap in
  let sl_dist := Qabs (entry_price t - stop_loss t) in
  let scaled :=
    if Qlt_bool 0 sl_dist then raw * (risk_amount / sl_dist) else 0 in
  mkTrade (entry_idx t) (entry_price t) (direction t) (stop_loss t)
          (take_profit t) i price scaled true.

(** Lines 91-124. *)
Definition exit_step (cfg : Config) (i : nat) (high low : Q) (st : State)
  : State :=
  match open_trade st with
  | None => st
  | Some t =>
      match check_exit (spread_of cfg) t high low with
      | None => st
      | Some (_, price) =>
          let t' := settle cfg (capital st) t (Z.of_nat i) price in
          mkState (capital st + pnl t') (curve st) (ledger st ++ [t']) None
      end
  end.

(** Lines 129-148; [direction = int(signal)] is the signal itself. *)
Definition open_position (cfg : Config) (i : nat) (atr close : Q) (signal : Z)
  : Trade :=
  let spread := spread_of cfg in
  let sl_dist := atr * sl_atr_mult cfg in
  let tp_dist := atr * tp_atr_mult cfg in
  if (signal =? 1)%Z then
    let entry := close + spread / 2 in
    new_Trade (Z.of_nat i) entry signal (entry - sl_dist) (entry + tp_dist)
  else
    let entry := close - spread / 2 in
    new_Trade (Z.of_nat i) entry signal (entry + sl_dist) (entry - tp_dist).

(** Lines 127-148: a position is opened only when none is open. *)
Definition entry_step (cfg : Config) (i : nat) (atr close : Q) (signal : Z)
  (st : State) : State :=
  match open_trade st with
  | None =>
      if negb (signal =? 0)%Z then
        mkState (capital st) (curve st) (ledger st)
                (Some (open_position cfg i atr close signal))
      else st
  | Some _ => st
  end.

(** [equity_curve.append(capital)]. *)
Definition record_equity (st : State) : State :=
  mkState (capital st) (curve st ++ [capital st]) (ledger st) (open_trade st).

(** Line 82: [pd.isna(atr) or atr == 0]. *)
Definition skip_bar (atr : option Q) : bool :=
  isna atr || match atr with Some a => Qeq_bool a 0 | None => false end.

(** The number held by a cell that passed the NaN test. *)
Definition number (x : option Q) : Q :=
  match x with Some a => a | None => 0 end.

(** The body of the [for] loop, lines 81-150, at bar [i].  The columns
    are looked up where the source looks them up. *)
Definition bar (cfg : Config) (df : DataFrame) (i : nat) (st : State)
  : result State :=
  atr_col <- getitem "atr" (col_atr df) ;;
  atr <- iloc atr_col i ;;
  if skip_bar atr then Ok (record_equity st)
  else
    close_col <- getitem "close" (col_close df) ;;
    close <- iloc close_col i ;;
    high_col <- getitem "high" (col_high df) ;;
    high <- iloc high_col i ;;
    low_col <- getitem "low" (col_low df) ;;
    low <- iloc low_col i ;;
    let st1 := exit_step cfg i high low st in
    signal_col <- getitem "signal" (col_signal df) ;;
    signal <- iloc signal_col i ;;
    Ok (record_equity (entry_step cfg i (number atr) close signal st1)).

Fixpoint bars (cfg : Config) (df : DataFrame) (idxs : list nat) (st : State)
  : result State :=
  match idxs with
  | [] => Ok st
  | i :: rest => st' <- bar cfg df i st ;; bars cfg df rest st'
  end.

(** Lines 66-68: the ATR column is computed when the frame has none. *)
Definition with_atr (df : DataFrame) : result DataFrame :=
  match col_atr df with
  | Some _ => Ok df
  | None =>
      atr <- _compute_atr df 14 ;;
      Ok (mkDF (nrows df) (col_time df) (col_open df) (col_high df)
               (col_low df) (col_close df) (col_signal df) (Some atr))
  end.

(** Lines 153-167: a trade still open after the loop is closed at the
    last close; the equity curve is not touched. *)
Definition force_close (cfg : Config) (df : DataFrame) (st : State)
  : result State :=
  match open_trade st with
  | None => Ok st
  | Some t =>
      close_col <- getitem "close" (col_close df) ;;
      last_close <- iloc_last close_col ;;
      let t' := settle cfg (capital st) t (Z.of_nat (nrows df) - 1) last_close in
      Ok (mkState (capital st + pnl t') (curve st) (ledger st ++ [t']) None)
  end.

(** Lines 66-167: the simulation up to the metrics. *)
Definition simulate (cfg : Config) (df0 : DataFrame) : result State :=
  df <- with_atr df0 ;;
  st <- bars cfg df (seq 1 (nrows df - 1)) (init_state cfg) ;;
  force_close cfg df st.

(** *** Metrics and the returned value *)

(** One entry of [result.trades]: the dict built at lines 197-209. *)
Record TradeRow : Type := mkRow {
  row_entry_idx : Z;
  row_entry_price : Q;
  row_exit_idx : Z;
  row_exit_price : Q;
  row_direction : string;
  row_pnl : Q;
  row_stop_loss : Q;
  row_take_profit : Q
}.

Definition trade_row (t : Trade) : TradeRow :=
  mkRow (entry_idx t)
        (py_round (entry_price t) 5)
        (exit_idx t)
        (py_round (exit_price t) 5)
        (if (direction t =? 1)%Z then "LONG" else "SHORT")
        (py_round (pnl t) 2)
        (py_round (stop_loss t) 5)
        (py_round (take_profit t) 5).

(** [@dataclass class BacktestResult]. *)
Record BacktestResult : Type := mkResult {
  trades : list TradeRow;
  equity_curve : list Q;
  win_rate : Q;
  total_trades : nat;
  total_pnl : Q;
  sharpe_ratio : Q;
  max_drawdown : Q
}.

Definition of_nat (n : nat) : Q := inject_Z (Z.of_nat n).

(** Lines 175-177. *)
Definition wins (ts : list Trade) : nat :=
  length (filter (fun t => Qlt_bool 0 (pnl t)) ts).

Definition win_rate_of (ts : list Trade) : Q :=
  of_nat (wins ts) / of_nat (length ts).

Definition total_pnl_of (ts : list Trade) : Q := py_sum (map pnl ts).

(** [np.diff(equity_curve) / np.array(equity_curve[:-1])], cell by cell.
    Where the equity is zero NumPy divides by zero and the cell is an
    infinity or NaN: it is [None] here.  A quotient is kept in lowest
    terms ([Qred] changes the fraction, not the number). *)
Fixpoint returns_of (eq : list Q) : list (option Q) :=
  match eq with
  | a :: (b :: _) as tl =>
      (if Qeq_bool a 0 then None else Some (Qred ((b - a) / a)))
        :: returns_of tl
  | _ => []
  end.

(** The cells of an array when all of them are numbers. *)
Fixpoint numbers (xs : list (option Q)) : option (list Q) :=
  match xs with
  | [] => Some []
  | None :: _ => None
  | Some x :: tl =>
      match numbers tl with
      | Some l => Some (x :: l)
      | None => None
      end
  end.

(** [np.mean], in lowest terms. *)
Definition np_mean (xs : list Q) : Q := Qred (py_sum xs / of_nat (length xs)).

(** Lines 187-195: the running peak and the largest relative decline. *)
Definition drawdown_step (acc : Q * Q) (val : Q) : Q * Q :=
  let peak := if Qlt_bool (fst acc) val then val else fst acc in
  let dd := if Qlt_bool 0 peak then (peak - val) / peak else 0 in
  (peak, if Qlt_bool (snd acc) dd then dd else snd acc).

Definition max_drawdown_of (eq : list Q) : result Q :=
  peak <- iloc eq 0 ;;
  Ok (snd (fold_left drawdown_step eq (peak, 0))).

(** [np.sqrt] on the rational model: the root of a positive number cut
    after 53 binary digits counted from its leading one, so that the root
    of a positive number is positive.  Its two arguments in this file, a
    mean of squares and 252, are never negative.  Only the Sharpe ratio
    goes through it. *)
Definition np_sqrt (x : Q) : Q :=
  let r := Qred x in
  if Qle_bool r 0 then 0
  else inject_Z (Z.sqrt (Qnum r * Zpos (Qden r) * 2 ^ 106))
       / inject_Z (Zpos (Qden r) * 2 ^ 53).

Definition np_std (xs : list Q) : Q :=
  let m := np_mean xs in
  np_sqrt (np_mean (map (fun x => (x - m) * (x - m)) xs)).

(** Lines 180-184.  With an infinity or NaN among the returns [np.std]
    is NaN, the test [np.std(returns) > 0] is false, and the ratio stays
    at its default. *)
Definition sharpe_of (eq : list Q) : Q :=
  let returns := returns_of eq in
  match numbers returns with
  | Some xs =>
      if (1 <? length returns)%nat && Qlt_bool 0 (np_std xs) then
        np_mean xs / np_std xs * np_sqrt 252
      else 0
  | None => 0
  end.

(** Lines 170-211. *)
Definition metrics (st : State) : result BacktestResult :=
  match ledger st with
  | [] => Ok (mkResult [] (curve st) 0 0 0 0 0)
  | ts =>
      max_dd <- max_drawdown_of (curve st) ;;
      Ok (mkResult (map trade_row ts) (curve st) (win_rate_of ts)
                   (length ts) (total_pnl_of ts) (sharpe_of (curve st)) max_dd)
  end.

Definition run_backtest (cfg : Config) (df : DataFrame)
  : result BacktestResult :=
  st <- simulate cfg df ;;
  metrics st.

(** *** Predicates of the statements *)

(** The cell of a column at a row, when the frame has both. *)
Definition cell {A : Type} (c : option (list A)) (i : nat) : option A :=
  match c with Some l => nth_error l i | None => None end.

(** What one bar does to the state when its ATR passes the test of
    line 82. *)
Definition processed (cfg : Config) (i : nat) (atr : option Q)
  (close high low : Q) (signal : Z) (st : State) : State :=
  record_equity
    (entry_step cfg i (number atr) close signal (exit_step cfg i high low st)).

(** The columns the loop reads; the ATR column is optional, and the
    engine reads neither [time] nor [open]. *)
Definition engine_columns (df : DataFrame) : Prop :=
  col_high df <> None /\ col_low df <> None /\
  col_close df <> None /\ col_signal df <> None.

(** [t] is the trade the entry check builds at some bar [i >= 1] whose
    ATR passed the test of line 82 and whose signal is not 0. *)
Definition entered (cfg : Config) (df : DataFrame) (t : Trade) : Prop :=
  exists i atr close signal,
    (1 <= i)%nat /\
    cell (col_atr df) i = Some atr /\ skip_bar atr = false /\
    cell (col_close df) i = Some close /\
    cell (col_signal df) i = Some signal /\ signal <> 0%Z /\
    t = open_position cfg i (number atr) close signal.

(** [t'] is an entered trade settled by the exit check of some bar [j]
    whose ATR passed the test of line 82. *)
Definition exited (cfg : Config) (df : DataFrame) (t' : Trade) : Prop :=
  exists t j atr high low k price cap,
    entered cfg df t /\
    cell (col_atr df) j = Some atr /\ skip_bar atr = false /\
    cell (col_high df) j = Some high /\ cell (col_low df) j = Some low /\
    check_exit (spread_of cfg) t high low = Some (k, price) /\
    t' = settle cfg cap t (Z.of_nat j) price.

(** [t'] is [t] closed at bar [i] at [price] with the capital [cap]: the
    entry fields are kept, the exit fields are set, and the PnL is the
    move from the entry to [price] in the direction of the trade times
    the position size [risk_pct * cap / |entry - stop|], or 0 when the
    stop is at the entry (lines 110-121 and 155-165). *)
Definition closed_at (cfg : Config) (cap : Q) (t : Trade) (i : Z) (price : Q)
  (t' : Trade) : Prop :=
  entry_idx t' = entry_idx t /\ entry_price t' = entry_price t /\
  direction t' = direction t /\ stop_loss t' = stop_loss t /\
  take_profit t' = take_profit t /\
  exit_idx t' = i /\ exit_price t' = price /\ closed t' = true /\
  pnl t'
  = (if Qlt_bool 0 (Qabs (entry_price t - stop_loss t))
     then (price - entry_price t) * inject_Z (direction t)
          * (risk_pct cfg * cap / Qabs (entry_price t - stop_loss t))
     else 0).

(** Where the trades of a loop state come from. *)
Definition provenance (cfg : Config) (df : DataFrame) (st : State) : Prop :=
  Forall (exited cfg df) (ledger st) /\
  (forall t, open_trade st = Some t -> entered cfg df t).

(** The bar at which a trade of the loop was settled had a defined,
    nonzero ATR. *)
Definition exit_bar_processed (df : DataFrame) (t : Trade) : Prop :=
  exists j a,
    exit_idx t = Z.of_nat j /\
    cell (col_atr df) j = Some (Some a) /\ ~ a == 0.

(** Inside the loop the capital is the initial capital plus the PnL of
    the ledger, and it is the last entry of the equity curve. *)
Definition balanced (cfg : Config) (st : State) : Prop :=
  capital st == initial_capital cfg + total_pnl_of (ledger st) /\
  last (curve st) 0 = capital st.

(** Half the spread the engine applies: the configured value is taken as
    pips and multiplied by 0.0001 first. *)
Definition half_spread (cfg : Config) : Q := spread_pips cfg * (1 # 10000) / 2.

(** The entry of [t] is the close of its entry bar, worse by half the
    spread. *)
Definition entry_priced (cfg : Config) (df : DataFrame) (t : Trade) : Prop :=
  exists i close,
    entry_idx t = Z.of_nat i /\ cell (col_close df) i = Some close /\
    entry_price t = if (direction t =? 1)%Z then close + half_spread cfg
                    else close - half_spread cfg.

(** The exit of [t] is its stop or its target, worse by half the spread. *)
Definition exit_priced (cfg : Config) (t : Trade) : Prop :=
  if (direction t =? 1)%Z
  then exit_price t = stop_loss t - half_spread cfg \/
       exit_price t = take_profit t - half_spread cfg
  else exit_price t = stop_loss t + half_spread cfg \/
       exit_price t = take_profit t + half_spread cfg.

(** [y] is [x] rounded to [ndigits] places: a multiple of 10^-ndigits
    that is no further than half a unit of the last place from [x].  At a
    tie both neighbours qualify. *)
Definition rounded_to (ndigits : nat) (x y : Q) : Prop :=
  (exists k : Z, y = inject_Z k / inject_Z (10 ^ Z.of_nat ndigits)) /\
  Qabs (y - x) <= (1 # 2) / inject_Z (10 ^ Z.of_nat ndigits).

(** A row of the returned ledger against the trade it was built from:
    indices kept, prices rounded to 5 places, PnL to 2, direction as text. *)
Definition row_of_trade (t : Trade) (row : TradeRow) : Prop :=
  row_entry_idx row = entry_idx t /\
  row_exit_idx row = exit_idx t /\
  rounded_to 5 (entry_price t) (row_entry_price row) /\
  rounded_to 5 (exit_price t) (row_exit_price row) /\
  rounded_to 5 (stop_loss t) (row_stop_loss row) /\
  rounded_to 5 (take_profit t) (row_take_profit row) /\
  rounded_to 2 (pnl t) (row_pnl row) /\
  row_direction row = (if (direction t =? 1)%Z then "LONG" else "SHORT").

(** Each price of the row is within half of 10^-5 of the price of the
    trade, and its PnL within half a cent. *)
Definition row_near (t : Trade) (row : TradeRow) : Prop :=
  Qabs (row_entry_price row - entry_price t) <= 1 # 200000 /\
  Qabs (row_exit_price row - exit_price t) <= 1 # 200000 /\
  Qabs (row_stop_loss row - stop_loss t) <= 1 # 200000 /\
  Qabs (row_take_profit row - take_profit t) <= 1 # 200000 /\
  Qabs (row_pnl row - pnl t) <= 1 # 200.

Definition present {A : Type} (c : option (list A)) : bool :=
  match c with Some _ => true | None => false end.

(** The four columns the loop body reads after the ATR test. *)
Definition has_engine_columns (df : DataFrame) : bool :=
  present (col_close df) && present (col_high df) &&
  present (col_low df) && present (col_signal df).

(** Some bar among [idxs] has a defined, nonzero ATR. *)
Definition reads_any (df : DataFrame) (idxs : list nat) : bool :=
  existsb (fun i => match cell (col_atr df) i with
                    | Some atr => negb (skip_bar atr)
                    | None => false
                    end)
          idxs.

Definition reads_a_bar (df : DataFrame) : bool :=
  reads_any df (seq 1 (nrows df - 1)).

(** The inputs on which [run_backtest] raises: the ATR cannot be
    computed, or some bar passes the ATR test and one of the columns read
    after it is missing. *)
Definition fails (df0 : DataFrame) : bool :=
  match with_atr df0 with
  | Raise _ => true
  | Ok df => reads_a_bar df && negb (has_engine_columns df)
  end.

(** *** Sample frames *)

(** Six bars with a supplied ATR column: a BUY at bar 1, a bar 2 whose
    range covers both the stop and the target, a zero-ATR bar 3, a SELL at
    bar 4 that is still open when the series ends. *)
Definition demo_frame : DataFrame :=
  mkDF 6
       (Some [0; 1; 2; 3; 4; 5]%Z)
       (Some [10; 10; 10; 10; 10; 10])
       (Some [10; 10; 13; 10; 10; 11])
       (Some [10; 10; 8; 10; 10; 10])
       (Some [10; 10; 10; 10; 10; 11])
       (Some [1; 1; 0; 0; -1; 0]%Z)
       (Some [None; Some 1; Some 1; Some 0; Some 1; Some 1]).

(** A frame with every column and no row. *)
Definition empty_frame : DataFrame :=
  mkDF 0 (Some []) (Some []) (Some []) (Some []) (Some []) (Some []) (Some []).

(** Two bars, neither [time] nor [open] column. *)
Definition bare_frame : DataFrame :=
  mkDF 2 None None (Some [10; 10]) (Some [10; 10]) (Some [10; 10])
       (Some [0; 1]%Z) (Some [None; Some 1]).

(** Two bars, no [signal] column, a defined ATR at bar 1. *)
Definition unsignalled_frame : DataFrame :=
  mkDF 2 (Some [0; 1]%Z) (Some [10; 10]) (Some [10; 10]) (Some [10; 10])
       (Some [10; 10]) None (Some [None; Some 1]).

(** The BUY of bar 1 of [demo_frame], the state after bar 1, where it is
    the open trade, and the state after bar 2. *)
Definition demo_long : Trade :=
  new_Trade 1 (2000015 # 200000) 1 (17000150 # 2000000) (2400015 # 200000).

Definition demo_state1 : State :=
  mkState 10000 [10000; 10000] [] (Some demo_long).

Definition demo_state2 : State :=
  let t' := settle default_config 10000 demo_long 2
                   (stop_loss demo_long - spread_of default_config / 2) in
  mkState (10000 + pnl t') [10000; 10000; 10000 + pnl t'] [t'] None.

(** The run of [demo_frame] with the default configuration: the state
    after the force-close, and the result. *)
Definition demo_final : State :=
  Eval vm_compute in
    match simulate default_config demo_frame
    with Ok st => st | Raise _ => init_state default_config end.

Definition demo_result : BacktestResult :=
  Eval vm_compute in
    match run_backtest default_config demo_frame
    with Ok r => r | Raise _ => mkResult [] [] 0 0 0 0 0 end.

(** Four bars with prices to six places and an ATR of 2: a BUY at bar 1
    is stopped out at bar 2, whose SELL opens a short on the same bar; the
    short is still open when the series ends, 1 under its entry. *)
Definition reentry_frame : DataFrame :=
  mkDF 4
       (Some [0; 1; 2; 3]%Z)
       (Some [10000001 # 1000000; 10000001 # 1000000; 10000001 # 1000000;
              10000001 # 1000000])
       (Some [10000001 # 1000000; 10000001 # 1000000; 10000001 # 1000000;
              10000001 # 1000000])
       (Some [10000001 # 1000000; 10000001 # 1000000; 7; 9])
       (Some [10000001 # 1000000; 10000001 # 1000000; 10000001 # 1000000;
              9000001 # 1000000])
       (Some [0; 1; -1; 0]%Z)
       (Some [None; Some 2; Some 2; Some 2]).

Definition reentry_final : State :=
  Eval vm_compute in
    match simulate default_config reentry_frame
    with Ok st => st | Raise _ => init_state default_config end.

Definition reentry_result : BacktestResult :=
  Eval vm_compute in
    match run_backtest default_config reentry_frame
    with Ok r => r | Raise _ => mkResult [] [] 0 0 0 0 0 end.

End Engine.

(** ** app/strategies/base.py *)

Module Base.

(** A Python float: a number, an infinity or NaN. *)
Inductive pyfloat : Type :=
| Fin (q : Q)
| Inf (negative : bool)
| NaN.

(** A value decoded from the JSON body of a request. *)
Inductive pyval : Type :=
| VNone
| VBool (b : bool)
| VInt (z : Z)
| VFloat (f : pyfloat)
| VStr (s : string)
| VList (items : list pyval)
| VDict (items : list (string * pyval)).

(** A value a strategy parameter holds: every default is an [int], a
    [float] or a [bool], and the setter stores [expected_type(value)]. *)
Inductive param : Type :=
| PInt (z : Z)
| PFloat (f : pyfloat)
| PBool (b : bool).

(** *** The builtins [int], [float], [bool] on decoded values *)

(** The white space [int] and [float] skip at both ends of a string:
    tab, line feed, vertical tab, form feed, carriage return and space. *)
Definition is_space (c : ascii) : bool :=
  let n := nat_of_ascii c in
  ((9 <=? n) && (n <=? 13) || (n =? 32))%nat.

Definition digit_of (c : ascii) : option Z :=
  let n := nat_of_ascii c in
  if ((48 <=? n) && (n <=? 57))%nat then Some (Z.of_nat (n - 48)) else None.

Fixpoint lstrip (cs : list ascii) : list ascii :=
  match cs with
  | c :: tl => if is_space c then lstrip tl else cs
  | [] => []
  end.

(** The string without the white space at its ends, as a list of
    characters. *)
Definition strip (s : string) : list ascii :=
  rev (lstrip (rev (lstrip (list_ascii_of_string s)))).

(** An optional sign: [true] for a minus. *)
Definition sign_of (cs : list ascii) : bool * list ascii :=
  match cs with
  | "-"%char :: tl => (true, tl)
  | "+"%char :: tl => (false, tl)
  | _ => (false, cs)
  end.

(** A run of digits where single underscores may sit between two digits.
    Returns the digits read and the rest; [None] on a misplaced underscore. *)
Fixpoint digitpart (cs : list ascii) (acc : list Z) (after_digit : bool)
  : option (list Z * list ascii) :=
  match cs with
  | [] => if after_digit || match acc with [] => true | _ => false end
          then Some (rev acc, []) else None
  | c :: tl =>
      match digit_of c with
      | Some d => digitpart tl (d :: acc) true
      | None =>
          if Ascii.eqb c "_" then
            if after_digit then digitpart tl acc false else None
          else if after_digit || match acc with [] => true | _ => false end
               then Some (rev acc, cs) else None
      end
  end.

Definition number_of (ds : list Z) : Z :=
  fold_left (fun acc d => (acc * 10 + d)%Z) ds 0%Z.

(** [int(s)] for a string, base 10. *)
Definition parse_int (s : string) : result Z :=
  let (neg, body) := sign_of (strip s) in
  match digitpart body [] false with
  | Some (d :: ds, []) =>
      let n := number_of (d :: ds) in Ok (if neg then (- n)%Z else n)
  | _ => Raise ValueError
  end.

Definition lower_char (c : ascii) : ascii :=
  let n := nat_of_ascii c in
  if ((65 <=? n) && (n <=? 90))%nat then ascii_of_nat (n + 32) else c.

(** [s.lower()]. *)
Definition lower (s : string) : string :=
  string_of_list_ascii (map lower_char (list_ascii_of_string s)).

Definition pow10 (e : Z) : Q :=
  if (0 <=? e)%Z then inject_Z (10 ^ e) else 1 / inject_Z (10 ^ (- e)).

(** The exponent of a decimal literal, 0 when there is none. *)
Definition exponent_of (cs : list ascii) : option Z :=
  match cs with
  | [] => Some 0%Z
  | c :: tl =>
      if Ascii.eqb (lower_char c) "e" then
        let (neg, body) := sign_of tl in
        match digitpart body [] false with
        | Some (d :: ds, []) =>
            let n := number_of (d :: ds) in Some (if neg then (- n)%Z else n)
        | _ => None
        end
      else None
  end.

(** The unsigned decimal literals of [float(s)]:
    [digits [. [digits]] [exponent]] and [. digits [exponent]]. *)
Definition parse_decimal (cs : list ascii) : option Q :=
  match digitpart cs [] false with
  | Some (ints, rest) =>
      let frac_rest :=
        match rest with
        | "."%char :: tl =>
            match tl with
            | [] => Some ([], [])
            | c :: _ =>
                match digit_of c with
                | Some _ => digitpart tl [] false
                | None => Some ([], tl)
                end
            end
        | _ => Some ([], rest)
        end in
      match frac_rest with
      | Some (fracs, rest') =>
          match ints, fracs with
          | [], [] => None
          | _, _ =>
              match exponent_of rest' with
              | Some e =>
                  Some (inject_Z (number_of (ints ++ fracs))
                        * pow10 (e - Z.of_nat (length fracs)))
              | None => None
              end
          end
      | None => None
      end
  | None => None
  end.

(** The range of a double: a number of at least 2^1024 - 2^970 (the
    largest double plus half a unit of its last place) in size rounds to
    an infinity, one of at most 2^-1075 (half the smallest double) to
    zero. *)
Definition float_overflow : Q := inject_Z (2 ^ 1024 - 2 ^ 970).

Definition float_underflow : Q := 1 / inject_Z (2 ^ 1075).

Definition overflows (q : Q) : bool := Qle_bool float_overflow (Qabs q).

(** The double a decimal literal is read as: out of range it is an
    infinity or zero; in range the number is kept exact. *)
Definition to_double (q : Q) : pyfloat :=
  if overflows q then Inf (Qlt_bool q 0)
  else if Qle_bool (Qabs q) float_underflow then Fin 0
  else Fin q.

(** [float(s)] for a string. *)
Definition parse_float (s : string) : result pyfloat :=
  let (neg, body) := sign_of (strip s) in
  let word := string_of_list_ascii (map lower_char body) in
  if String.eqb word "inf" || String.eqb word "infinity" then Ok (Inf neg)
  else if String.eqb word "nan" then Ok NaN
  else match parse_decimal body with
       | Some q => Ok (to_double (if neg then - q else q))
       | None => Raise ValueError
       end.

(** [int(x)] of a float rounds toward zero. *)
Definition truncate (q : Q) : Z := Z.quot (Qnum q) (Zpos (Qden q)).

Definition py_int (v : pyval) : result Z :=
  match v with
  | VInt z => Ok z
  | VBool b => Ok (if b then 1 else 0)%Z
  | VFloat (Fin q) => Ok (truncate q)
  | VFloat (Inf _) => Raise OverflowError
  | VFloat NaN => Raise ValueError
  | VStr s => parse_int s
  | VNone | VList _ | VDict _ => Raise TypeError
  end.

(** [float(x)]: an [int] beyond the range of a double raises
    [OverflowError]. *)
Definition py_float (v : pyval) : result pyfloat :=
  match v with
  | VInt z =>
      if overflows (inject_Z z) then Raise OverflowError
      else Ok (Fin (inject_Z z))
  | VBool b => Ok (Fin (if b then 1 else 0))
  | VFloat f => Ok f
  | VStr s => parse_float s
  | VNone | VList _ | VDict _ => Raise TypeError
  end.

(** [bool(x)]: the truth value of [x]. *)
Definition py_bool (v : pyval) : bool :=
  match v with
  | VNone => false
  | VBool b => b
  | VInt z => negb (z =? 0)%Z
  | VFloat (Fin q) => negb (Qeq_bool q 0)
  | VFloat _ => true
  | VStr s => negb (String.eqb s "")
  | VList items => match items with [] => false | _ => true end
  | VDict items => match items with [] => false | _ => true end
  end.

(** [expected_type(value)] with [expected_type = type(current[key])]. *)
Definition coerce (current : param) (value : pyval) : result param :=
  match current with
  | PInt _ => z <- py_int value ;; Ok (PInt z)
  | PFloat _ => f <- py_float value ;; Ok (PFloat f)
  | PBool _ => Ok (PBool (py_bool value))
  end.

(** The strings on which [parse_int] and [parse_float] are [int] and
    [float]: ASCII text of at most 4300 characters.  Beyond ASCII the
    builtins also read the decimal digits and the white space of other
    scripts, and an interpreter may refuse to read an [int] of more than
    4300 digits. *)
Definition plain_text (s : string) : Prop :=
  Forall (fun c => (nat_of_ascii c < 128)%nat) (list_ascii_of_string s) /\
  (Z.of_nat (String.length s) <= 4300)%Z.

Definition plain_value (v : pyval) : Prop :=
  match v with
  | VStr s => plain_text s
  | _ => True
  end.

(** A request whose string values are all of that kind. *)
Definition plain_request (params : list (string * pyval)) : Prop :=
  Forall (fun item => plain_value (snd item)) params.

(** *** class BaseStrategy *)

(** The part of the abstract class that [set_parameters] goes through. *)
Class Strategy (S : Type) : Type := {
  get_parameters : S -> list (string * param);
  hasattr : S -> string -> bool;
  setattr : S -> string -> param -> S
}.

(** [current[key]] for [key in current]. *)
Fixpoint lookup (key : string) (d : list (string * param)) : option param :=
  match d with
  | [] => None
  | (k, v) :: tl => if String.eqb k key then Some v else lookup key tl
  end.

(** The loop of [set_parameters] over [params.items()].  An exception
    leaves the object as the loop has made it so far: the result is the
    object and the exception, if any. *)
Fixpoint assign_all {S : Type} `{Strategy S}
  (convert : param -> pyval -> result param)
  (current : list (string * param)) (items : list (string * pyval))
  (self : S) : S * option exn :=
  match items with
  | [] => (self, None)
  | (key, value) :: rest =>
      match lookup key current with
      | Some cur =>
          if hasattr self key then
            match convert cur value with
            | Ok v => assign_all convert current rest (setattr self key v)
            | Raise e => (self, Some e)
            end
          else assign_all convert current rest self
      | None => assign_all convert current rest self
      end
  end.

(** Lines 27-33. *)
Definition set_parameters {S : Type} `{Strategy S}
  (self : S) (params : list (string * pyval)) : S * option exn :=
  assign_all coerce (get_parameters self) params self.

End Base.

(** ** app/strategies/mean_reversion.py *)

Module MeanReversion.
Import Base.

Record MeanReversionStrategy : Type := mkStrategy {
  rsi_period : param;
  rsi_oversold : param;
  rsi_overbought : param;
  use_bollinger : param;
  bb_period : param;
  bb_std : param
}.

(** [__init__]. *)
Definition init : MeanReversionStrategy :=
  mkStrategy (PInt 14) (PInt 30) (PInt 70) (PBool true) (PInt 20)
             (PFloat (Fin 2)).

Definition names : list string :=
  ["rsi_period"; "rsi_oversold"; "rsi_overbought"; "use_bollinger";
   "bb_period"; "bb_std"].

Definition mr_get_parameters (s : MeanReversionStrategy)
  : list (string * param) :=
  [("rsi_period", rsi_period s); ("rsi_oversold", rsi_oversold s);
   ("rsi_overbought", rsi_overbought s); ("use_bollinger", use_bollinger s);
   ("bb_period", bb_period s); ("bb_std", bb_std s)].

(** [setattr(self, key, v)] for the attributes [__init__] creates. *)
Definition mr_setattr (s : MeanReversionStrategy) (key : string) (v : param)
  : MeanReversionStrategy :=
  if String.eqb key "rsi_period" then
    mkStrategy v (rsi_oversold s) (rsi_overbought s) (use_bollinger s)
               (bb_period s) (bb_std s)
  else if String.eqb key "rsi_oversold" then
    mkStrategy (rsi_period s) v (rsi_overbought s) (use_bollinger s)
               (bb_period s) (bb_std s)
  else if String.eqb key "rsi_overbought" then
    mkStrategy (rsi_period s) (rsi_oversold s) v (use_bollinger s)
               (bb_period s) (bb_std s)
  else if String.eqb key "use_bollinger" then
    mkStrategy (rsi_period s) (rsi_oversold s) (rsi_overbought s) v
               (bb_period s) (bb_std s)
  else if String.eqb key "bb_period" then
    mkStrategy (rsi_period s) (rsi_oversold s) (rsi_overbought s)
               (use_bollinger s) v (bb_std s)
  else if String.eqb key "bb_std" then
    mkStrategy (rsi_period s) (rsi_oversold s) (rsi_overbought s)
               (use_bollinger s) (bb_period s) v
  else s.

#[export] Instance strategy : Strategy MeanReversionStrategy := {
  get_parameters := mr_get_parameters;
  hasattr := fun _ key => existsb (String.eqb key) names;
  setattr := mr_setattr
}.

(** Lines 55-62: a [bool] parameter reads the strings "true", "1" and
    "yes" (in any case) as true and every other string as false; the
    other types go through [expected_type(value)]. *)
Definition convert (current : param) (value : pyval) : result param :=
  match current with
  | PBool _ =>
      match value with
      | VStr s => Ok (PBool (existsb (String.eqb (lower s)) ["true"; "1"; "yes"]))
      | _ => Ok (PBool (py_bool value))
      end
  | _ => coerce current value
  end.

(** Lines 50-62: the override of [set_parameters]. *)
Definition set_parameters (self : MeanReversionStrategy)
  (params : list (string * pyval)) : MeanReversionStrategy * option exn :=
  assign_all convert (get_parameters self) params self.

(** A request body whose second value is not a number. *)
Definition bad_update : list (string * pyval) :=
  [("rsi_period", VStr "5"); ("rsi_oversold", VStr "abc")].

End MeanReversion.

(** ** app/strategies/volatility_contraction.py *)

Module VolatilityContraction.
Import Base.

Record VolatilityContractionStrategy : Type := mkStrategy {
  bb_period : param;
  bb_std : param;
  atr_period : param;
  squeeze_percentile : param;
  atr_percentile : param;
  lookback : param
}.

(** [__init__]. *)
Definition init : VolatilityContractionStrategy :=
  mkStrategy (PInt 20) (PFloat (Fin 2)) (PInt 14) (PInt 20) (PInt 25)
             (PInt 50).

Definition names : list string :=
  ["bb_period"; "bb_std"; "atr_period"; "squeeze_percentile";
   "atr_percentile"; "lookback"].

Definition vc_get_parameters (s : VolatilityContractionStrategy)
  : list (string * param) :=
  [("bb_period", bb_period s); ("bb_std", bb_std s);
   ("atr_period", atr_period s);
   ("squeeze_percentile", squeeze_percentile s);
   ("atr_percentile", atr_percentile s); ("lookback", lookback s)].

Definition vc_setattr (s : VolatilityContractionStrategy) (key : string)
  (v : param) : VolatilityContractionStrategy :=
  if String.eqb key "bb_period" then
    mkStrategy v (bb_std s) (atr_period s) (squeeze_percentile s)
               (atr_percentile s) (lookback s)
  else if String.eqb key "bb_std" then
    mkStrategy (bb_period s) v (atr_period s) (squeeze_percentile s)
               (atr_percentile s) (lookback s)
  else if String.eqb key "atr_period" then
    mkStrategy (bb_period s) (bb_std s) v (squeeze_percentile s)
               (atr_percentile s) (lookback s)
  else if String.eqb key "squeeze_percentile" then
    mkStrategy (bb_period s) (bb_std s) (atr_period s) v
               (atr_percentile s) (lookback s)
  else if String.eqb key "atr_percentile" then
    mkStrategy (bb_period s) (bb_std s) (atr_period s)
               (squeeze_percentile s) v (lookback s)
  else if String.eqb key "lookback" then
    mkStrategy (bb_period s) (bb_std s) (atr_period s)
               (squeeze_percentile s) (atr_percentile s) v
  else s.

(** The class inherits [set_parameters] from [BaseStrategy]. *)
#[export] Instance strategy : Strategy VolatilityContractionStrategy := {
  get_parameters := vc_get_parameters;
  hasattr := fun _ key => existsb (String.eqb key) names;
  setattr := vc_setattr
}.

(** *** generate_signals *)

(** One row of the frame at line 81: the columns the signal loop reads.
    They are computed by pandas in lines 52-77; the bands are NaN until
    their rolling window is full, the squeeze flag is an int (0 or 1). *)
Record Row : Type := mkRow {
  squeeze : Z;
  close : Q;
  bb_upper : option Q;
  bb_lower : option Q
}.

Definition nan_row : Row := mkRow 0 0 None None.

(** [x > y] and [x < y] where [y] may be NaN: a comparison with NaN is
    false. *)
Definition gt_cell (x : Q) (y : option Q) : bool :=
  match y with Some b => Qlt_bool b x | None => false end.

Definition lt_cell (x : Q) (y : option Q) : bool :=
  match y with Some b => Qlt_bool x b | None => false end.

(** [df.iloc[i, df.columns.get_loc("signal")] = v]. *)
Fixpoint set_at (i : nat) (v : Z) (l : list Z) : list Z :=
  match l, i with
  | [], _ => []
  | _ :: tl, O => v :: tl
  | x :: tl, S j => x :: set_at j v tl
  end.

(** Lines 84-93, the body of the loop at bar [i]; the state is the flag
    [in_squeeze] and the signal column. *)
Definition signal_step (rows : list Row) (st : bool * list Z) (i : nat)
  : bool * list Z :=
  let prev := nth (i - 1) rows nan_row in
  let cur := nth i rows nan_row in
  let in_squeeze := if (squeeze prev =? 1)%Z then true else fst st in
  if in_squeeze && (squeeze cur =? 0)%Z then
    if gt_cell (close cur) (bb_upper cur) then
      (false, set_at i 1%Z (snd st))
    else if lt_cell (close cur) (bb_lower cur) then
      (false, set_at i (-1)%Z (snd st))
    else (in_squeeze, snd st)
  else (in_squeeze, snd st).

(** Lines 81-95: the signal column returned by [generate_signals]. *)
Definition generate_signals (rows : list Row) : list Z :=
  snd (fold_left (signal_step rows)
                 (seq 1 (length rows - 1))
                 (false, repeat 0%Z (length rows))).

(** The direction of the band breakout on a row, 0 when there is none. *)
Definition breakout (r : Row) : Z :=
  if gt_cell (close r) (bb_upper r) then 1%Z
  else if lt_cell (close r) (bb_lower r) then (-1)%Z
  else 0%Z.

(** What the loop writes at a bar, given the flag at its test. *)
Definition fire_with (in_squeeze : bool) (r : Row) : Z :=
  if in_squeeze && (squeeze r =? 0)%Z then breakout r else 0%Z.

(** The value of [in_squeeze] at the test of line 86 in iteration [i]. *)
Fixpoint armed (rows : list Row) (i : nat) : bool :=
  match i with
  | O => false
  | S j =>
      let a := armed rows j in
      (squeeze (nth j rows nan_row) =? 1)%Z
      || (a && (fire_with a (nth j rows nan_row) =? 0)%Z)
  end.

Definition fire (rows : list Row) (i : nat) : Z :=
  fire_with (armed rows i) (nth i rows nan_row).

(** The rows lines 52-77 compute for six bars with the closes 10, 12,
    10, 11, 11, 12, each high 1 over and each low 1 under its close, and
    the parameters [bb_period = 3], [bb_std = 1.0], [atr_period = 1],
    [lookback = 2] and both percentiles 50 (the bands to six places):
    three bars while the rolling windows fill, a squeeze at bar 3, a
    release at bar 4 with the close inside the bands, then a bar beyond
    the upper band. *)
Definition late_breakout : list Row :=
  [ mkRow 0 10 None None;
    mkRow 0 12 None None;
    mkRow 0 10 (Some (11821367 # 1000000)) (Some (9511966 # 1000000));
    mkRow 1 11 (Some 12) (Some 10);
    mkRow 0 11 (Some (11244017 # 1000000)) (Some (10089316 # 1000000));
    mkRow 0 12 (Some (11910684 # 1000000)) (Some (10755983 # 1000000)) ].

End VolatilityContraction.

(** ** app/backtest/engine.py: further predicates *)

Module EngineExtra.
Import Engine.

(** Entries of a ledger in the order of time: each one exits no earlier
    than it enters, and every later one enters no earlier than it exits. *)
Fixpoint chronological {A : Type} (entry exit : A -> Z) (l : list A) : Prop :=
  match l with
  | [] => True
  | t :: rest =>
      (entry t <= exit t)%Z /\
      Forall (fun u => (exit t <= entry u)%Z) rest /\
      chronological entry exit rest
  end.

(** The state before bar [i]: the ledger is in the order of time and was
    settled before [i]; an open trade was entered before [i], after every
    exit of the ledger. *)
Definition on_time (i : nat) (st : State) : Prop :=
  chronological entry_idx exit_idx (ledger st) /\
  Forall (fun t => (exit_idx t < Z.of_nat i)%Z) (ledger st) /\
  (forall t, open_trade st = Some t ->
             (entry_idx t < Z.of_nat i)%Z /\
             Forall (fun u => (exit_idx u <= entry_idx t)%Z) (ledger st)).

(** The state before bar [i]: one curve entry per bar so far, the last
    one being the capital, and every step of the curve accounted for by a
    trade settled at that bar. *)
Definition stepwise (i : nat) (st : State) : Prop :=
  length (curve st) = i /\
  nth (i - 1) (curve st) 0 = capital st /\
  (forall k, (1 <= k < i)%nat ->
             nth k (curve st) 0 = nth (k - 1) (curve st) 0 \/
             exists t, In t (ledger st) /\ exit_idx t = Z.of_nat k).

(** The state of the peak loop of lines 187-195 on a curve without a
    negative value: the largest decline so far is a fraction. *)
Definition drawdown_ok (acc : Q * Q) : Prop :=
  0 <= snd acc /\ snd acc <= 1.

(** Twenty bars without an ATR column; a BUY signal on bars 2 and 15. *)
Definition raw_frame : DataFrame :=
  mkDF 20
       (Some (map Z.of_nat (seq 0 20)))
       (Some (repeat 10 20))
       (Some (repeat 11 20))
       (Some (repeat 9 20))
       (Some (repeat 10 20))
       (Some (map (fun i => if (i =? 2)%nat || (i =? 15)%nat then 1%Z else 0%Z)
                  (seq 0 20)))
       None.

Definition raw_atr : list (option Q) :=
  Eval vm_compute in
    match _compute_atr raw_frame 14 with Ok a => a | Raise _ => [] end.

Definition raw_result : BacktestResult :=
  Eval vm_compute in
    match run_backtest default_config raw_frame
    with Ok r => r | Raise _ => mkResult [] [] 0 0 0 0 0 end.

(** Four bars with a supplied ATR and no signal after bar 0. *)
Definition quiet_frame : DataFrame :=
  mkDF 4 (Some [0; 1; 2; 3]%Z) (Some [10; 10; 10; 10])
       (Some [11; 11; 11; 11]) (Some [9; 9; 9; 9]) (Some [10; 10; 10; 10])
       (Some [1; 0; 0; 0]%Z) (Some [Some 1; Some 1; Some 1; Some 1]).

End EngineExtra.

(** ** Parameters as a dictionary *)

Module ParamExtra.
Import Base.

(** [d[key] = v] on a dictionary that has [key]: the value changes, the
    place of the key does not. *)
Fixpoint update (key : string) (v : param) (d : list (string * param))
  : list (string * param) :=
  match d with
  | [] => []
  | (k, x) :: tl =>
      if String.eqb k key then (k, v) :: tl else (k, x) :: update key v tl
  end.

(** [type(p)]. *)
Inductive kind : Type := KInt | KFloat | KBool.

Definition kind_of (p : param) : kind :=
  match p with PInt _ => KInt | PFloat _ => KFloat | PBool _ => KBool end.

(** The names of a parameter dictionary, in order, each with the type of
    its value. *)
Definition shape (d : list (string * param)) : list (string * kind) :=
  map (fun kv => (fst kv, kind_of (snd kv))) d.

(** A parameter as the JSON value the API returns for it. *)
Definition to_json (p : param) : pyval :=
  match p with
  | PInt z => VInt z
  | PFloat f => VFloat f
  | PBool b => VBool b
  end.

(** The body of [GET /strategy/<name>/parameters] sent back as the
    [parameters] of a request. *)
Definition echo (d : list (string * param)) : list (string * pyval) :=
  map (fun kv => (fst kv, to_json (snd kv))) d.

(** Whether a key of a request is a parameter name. *)
Definition known (current : list (string * param)) (item : string * pyval)
  : bool :=
  match lookup (fst item) current with Some _ => true | None => false end.

(** A request with a known and an unknown key. *)
Definition mixed_update : list (string * pyval) :=
  [("lookback", VFloat (Fin (27 # 10))); ("color", VStr "red");
   ("bb_std", VStr " 1e1 ")].

End ParamExtra.

(** ** app/strategies/__init__.py *)

Module Registry.
Import Base.

(** The classes decorated with [@register_strategy]. *)
Inductive strategy_class : Type :=
| MeanReversionClass
| VolatilityContractionClass.

(** An object of one of them. *)
Inductive strategy_object : Type :=
| MeanReversionObject (s : MeanReversion.MeanReversionStrategy)
| VolatilityContractionObject
    (s : VolatilityContraction.VolatilityContractionStrategy).

(** [cls.name]. *)
Definition name_of (cls : strategy_class) : string :=
  match cls with
  | MeanReversionClass => "Mean Reversion"
  | VolatilityContractionClass => "Volatility Contraction"
  end.

(** [cls()]. *)
Definition construct (cls : strategy_class) : strategy_object :=
  match cls with
  | MeanReversionClass => MeanReversionObject MeanReversion.init
  | VolatilityContractionClass =>
      VolatilityContractionObject VolatilityContraction.init
  end.

(** [s.replace(" ", "_")]. *)
Definition replace_space (s : string) : string :=
  string_of_list_ascii
    (map (fun c => if Ascii.eqb c " " then "_"%char else c)
         (list_ascii_of_string s)).

(** Line 17: [cls.name.lower().replace(" ", "_")]. *)
Definition registry_key (name : string) : string :=
  replace_space (lower name).

(** [d[key] = v]: the value of a key that is there changes in place, a
    new key goes to the end. *)
Fixpoint setitem (key : string) (v : strategy_class)
  (d : list (string * strategy_class)) : list (string * strategy_class) :=
  match d with
  | [] => [(key, v)]
  | (k, x) :: tl =>
      if String.eqb k key then (k, v) :: tl else (k, x) :: setitem key v tl
  end.

(** [d.get(key)]. *)
Fixpoint get (key : string) (d : list (string * strategy_class))
  : option strategy_class :=
  match d with
  | [] => None
  | (k, x) :: tl => if String.eqb k key then Some x else get key tl
  end.

(** The module-level state: the dictionary [_registry] and the modules
    of the package that have been imported. *)
Record state : Type := mkState {
  _registry : list (string * strategy_class);
  imported : list string
}.

Definition initial : state := mkState [] [].

(** Lines 15-20. *)
Definition register_strategy (cls : strategy_class) (st : state) : state :=
  mkState (setitem (registry_key (name_of cls)) cls (_registry st))
          (imported st).

(** The decorated classes a module of the package defines. *)
Definition classes_of (module : string) : list strategy_class :=
  if String.eqb module "mean_reversion" then [MeanReversionClass]
  else if String.eqb module "volatility_contraction"
       then [VolatilityContractionClass]
  else [].

(** [importlib.import_module]: the body of a module runs the first time
    it is imported. *)
Definition import_module (module : string) (st : state) : state :=
  if existsb (String.eqb module) (imported st) then st
  else fold_left (fun s cls => register_strategy cls s) (classes_of module)
                 (mkState (_registry st) (module :: imported st)).

(** [pkgutil.iter_modules(package.__path__)], in the order of the names. *)
Definition package_modules : list string :=
  ["base"; "mean_reversion"; "volatility_contraction"].

(** Lines 38-47. *)
Definition _auto_discover (st : state) : state :=
  fold_left (fun s module =>
               if String.eqb module "base" then s else import_module module s)
            package_modules st.

(** Lines 23-26: the keys and the state left behind. *)
Definition get_all_strategies (st : state) : list string * state :=
  let st' := _auto_discover st in (map fst (_registry st'), st').

(** Lines 29-35. *)
Definition get_strategy (name : string) (st : state)
  : result strategy_object * state :=
  let st' := _auto_discover st in
  match get name (_registry st') with
  | None => (Raise ValueError, st')
  | Some cls => (Ok (construct cls), st')
  end.

End Registry.

(** ** app/strategies/mean_reversion.py: the indicator and the signals *)

Module MeanReversionSignals.
Import Base MeanReversion.

(** *** Arithmetic of floats

    The operations of IEEE 754 on finite numbers, infinities and NaN;
    the numbers are exact and the sign of a zero is not kept. *)

Definition fneg (x : pyfloat) : pyfloat :=
  match x with
  | Fin q => Fin (- q)
  | Inf s => Inf (negb s)
  | NaN => NaN
  end.

Definition fadd (x y : pyfloat) : pyfloat :=
  match x, y with
  | Fin a, Fin b => Fin (a + b)
  | Fin _, Inf s => Inf s
  | Inf s, Fin _ => Inf s
  | Inf s, Inf t => if Bool.eqb s t then Inf s else NaN
  | _, _ => NaN
  end.

Definition fsub (x y : pyfloat) : pyfloat := fadd x (fneg y).

Definition fmul (x y : pyfloat) : pyfloat :=
  match x, y with
  | Fin a, Fin b => Fin (a * b)
  | Fin a, Inf s => if Qeq_bool a 0 then NaN else Inf (xorb s (Qlt_bool a 0))
  | Inf s, Fin a => if Qeq_bool a 0 then NaN else Inf (xorb s (Qlt_bool a 0))
  | Inf s, Inf t => Inf (xorb s t)
  | _, _ => NaN
  end.

(** Division of arrays: a division by zero gives an infinity, or NaN for
    0/0; it does not raise. *)
Definition fdiv (x y : pyfloat) : pyfloat :=
  match x, y with
  | Fin a, Fin b =>
      if Qeq_bool b 0 then
        if Qeq_bool a 0 then NaN else Inf (Qlt_bool a 0)
      else Fin (a / b)
  | Fin _, Inf _ => Fin 0
  | Inf s, Fin b => Inf (xorb s (Qlt_bool b 0))
  | _, _ => NaN
  end.

(** [x < y], [x <= y] and [x == y]: false when a side is NaN. *)
Definition flt (x y : pyfloat) : bool :=
  match x, y with
  | Fin a, Fin b => Qlt_bool a b
  | Fin _, Inf s => negb s
  | Inf s, Fin _ => s
  | Inf s, Inf t => s && negb t
  | _, _ => false
  end.

Definition feq (x y : pyfloat) : bool :=
  match x, y with
  | Fin a, Fin b => Qeq_bool a b
  | Inf s, Inf t => Bool.eqb s t
  | _, _ => false
  end.

Definition fle (x y : pyfloat) : bool := flt x y || feq x y.

Definition fge (x y : pyfloat) : bool := fle y x.

(** *** [_rsi], lines 8-15 *)

(** [series.diff()]: NaN in the first row. *)
Fixpoint diff_from (prev : pyfloat) (series : list pyfloat) : list pyfloat :=
  match series with
  | [] => []
  | x :: tl => fsub x prev :: diff_from x tl
  end.

Definition diff (series : list pyfloat) : list pyfloat :=
  diff_from NaN series.

(** [clip(lower=b)] and [clip(upper=b)] on a cell: NaN stays NaN. *)
Definition clip_lower (b : Q) (x : pyfloat) : pyfloat :=
  if flt x (Fin b) then Fin b else x.

Definition clip_upper (b : Q) (x : pyfloat) : pyfloat :=
  if flt (Fin b) x then Fin b else x.

(** The state of the exponentially weighted mean of pandas: the mean so
    far, the weight of the past and the number of observations. *)
Record ewm_state : Type := mkEwm {
  weighted : pyfloat;
  old_wt : Q;
  nobs : Z
}.

Definition is_observation (x : pyfloat) : bool :=
  match x with NaN => false | _ => true end.

(** One row of [ewm(alpha=alpha).mean()] with the defaults [adjust=True]
    and [ignore_na=False]: the past is discounted by [1 - alpha] at every
    row once there is a mean, the new value has weight 1, and the mean is
    normalised by the sum of the weights. *)
Definition ewm_step (alpha : Q) (st : ewm_state) (cur : pyfloat) : ewm_state :=
  let nobs' := if is_observation cur then (nobs st + 1)%Z else nobs st in
  if is_observation (weighted st) then
    let wt := old_wt st * (1 - alpha) in
    if is_observation cur then
      let mean :=
        if feq (weighted st) cur then weighted st
        else fdiv (fadd (fmul (Fin wt) (weighted st)) (fmul (Fin 1) cur))
                  (Fin (wt + 1)) in
      mkEwm mean (wt + 1) nobs'
    else mkEwm (weighted st) wt nobs'
  else if is_observation cur then mkEwm cur (old_wt st) nobs'
  else mkEwm (weighted st) (old_wt st) nobs'.

(** The rows of the result: NaN until [minp] observations were seen. *)
Fixpoint ewm_from (alpha : Q) (minp : Z) (st : ewm_state)
  (vals : list pyfloat) : list pyfloat :=
  match vals with
  | [] => []
  | cur :: tl =>
      let st' := ewm_step alpha st cur in
      (if (minp <=? nobs st')%Z then weighted st' else NaN)
        :: ewm_from alpha minp st' tl
  end.

(** What [_rsi] can raise: the division [1 / period], or an exception of
    pandas. *)
Inductive error : Type :=
| ZeroDivisionError
| Pandas (e : exn).

(** pandas prepares the values of a window operation by turning every
    infinity into NaN. *)
Definition prep_value (x : pyfloat) : pyfloat :=
  match x with
  | Inf _ => NaN
  | _ => x
  end.

(** [vals.ewm(alpha=alpha, min_periods=min_periods).mean()]; pandas
    refuses an [alpha] outside (0, 1]. *)
Definition ewm_mean (alpha : Q) (min_periods : Z) (vals : list pyfloat)
  : error + list pyfloat :=
  if Qlt_bool 0 alpha && Qle_bool alpha 1 then
    inr (ewm_from alpha (Z.max min_periods 1) (mkEwm NaN 1 0)
                  (map prep_value vals))
  else inl (Pandas ValueError).

(** Line 15 on a cell. *)
Definition rsi_of (rs : pyfloat) : pyfloat :=
  fsub (Fin 100) (fdiv (Fin 100) (fadd (Fin 1) rs)).

Definition _rsi (series : list pyfloat) (period : Z)
  : error + list pyfloat :=
  let delta := diff series in
  let gain := map (clip_lower 0) delta in
  let loss := map fneg (map (clip_upper 0) delta) in
  if (period =? 0)%Z then inl ZeroDivisionError
  else
    let alpha := 1 / inject_Z period in
    match ewm_mean alpha period gain with
    | inl e => inl e
    | inr avg_gain =>
        match ewm_mean alpha period loss with
        | inl e => inl e
        | inr avg_loss =>
            let rs := map (fun p : pyfloat * pyfloat => fdiv (fst p) (snd p))
                          (combine avg_gain avg_loss) in
            inr (map rsi_of rs)
        end
    end.

(** A float that is not below zero, and one between 0 and 100; NaN
    counts as both. *)
Definition not_negative (x : pyfloat) : Prop :=
  match x with
  | Fin q => 0 <= q
  | Inf s => s = false
  | NaN => True
  end.

Definition percentage (x : pyfloat) : Prop :=
  match x with
  | Fin r => 0 <= r <= 100
  | Inf _ => False
  | NaN => True
  end.

(** A series of numbers has risen, or fallen, between two rows in a row
    before row [j]. *)
Definition rose (closes : list Q) (j : nat) : Prop :=
  exists k, (k < j)%nat /\ nth k closes 0 < nth (S k) closes 0.

Definition fell (closes : list Q) (j : nat) : Prop :=
  exists k, (k < j)%nat /\ nth (S k) closes 0 < nth k closes 0.

(** The changes of a series of numbers from [prev] on. *)
Fixpoint changes (prev : Q) (closes : list Q) : list Q :=
  match closes with
  | [] => []
  | c :: tl => (c - prev) :: changes c tl
  end.

(** Four rows: up, up, down. *)
Definition zigzag : list Q := [1; 2; 3; 2].

(** Four rows that only rise, with their indicator of period 2. *)
Definition rising : list Q := [1; 2; 3; 4].

Definition rising_rsi : list pyfloat :=
  Eval vm_compute in
    match _rsi (map Fin rising) 2 with inr column => column | inl _ => [] end.

Definition zigzag_rsi : list pyfloat :=
  Eval vm_compute in
    match _rsi (map Fin zigzag) 2 with inr column => column | inl _ => [] end.

(** *** [generate_signals], lines 84-94

    The rows of the frame as lines 74-81 leave it. The bands come from a
    rolling standard deviation, which is outside this model: they are
    taken as they are. *)
Record Row : Type := mkRow {
  close : pyfloat;
  rsi : pyfloat;
  bb_upper : pyfloat;
  bb_lower : pyfloat
}.

Definition nan_row : Row := mkRow NaN NaN NaN NaN.

(** A parameter as a number in a comparison, and as a condition. *)
Definition number (p : param) : pyfloat :=
  match p with
  | PInt z => Fin (inject_Z z)
  | PFloat f => f
  | PBool b => Fin (if b then 1 else 0)
  end.

Definition truth (p : param) : bool :=
  match p with
  | PInt z => negb (z =? 0)%Z
  | PFloat (Fin q) => negb (Qeq_bool q 0)
  | PFloat _ => true
  | PBool b => b
  end.

(** [a & b] on two boolean columns. *)
Definition and_columns (a b : list bool) : list bool :=
  map (fun p : bool * bool => fst p && snd p) (combine a b).

(** [df.loc[cond, "signal"] = v]. *)
Definition loc_assign (cond : list bool) (v : Z) (signal : list Z) : list Z :=
  map (fun p : bool * Z => if fst p then v else snd p) (combine cond signal).

Definition generate_signals (self : MeanReversionStrategy) (df : list Row)
  : list Z :=
  let signal := map (fun _ => 0%Z) df in
  let buy_cond := map (fun r => flt (rsi r) (number (rsi_oversold self))) df in
  let sell_cond :=
    map (fun r => flt (number (rsi_overbought self)) (rsi r)) df in
  let buy_cond :=
    if truth (use_bollinger self)
    then and_columns buy_cond (map (fun r => fle (close r) (bb_lower r)) df)
    else buy_cond in
  let sell_cond :=
    if truth (use_bollinger self)
    then and_columns sell_cond (map (fun r => fge (close r) (bb_upper r)) df)
    else sell_cond in
  let signal := loc_assign buy_cond 1%Z signal in
  let signal := loc_assign sell_cond (-1)%Z signal in
  signal.

(** The row where an update without the confirmation by the bands
    applies. *)
Definition unconfirmed (self : MeanReversionStrategy)
  : MeanReversionStrategy :=
  mkStrategy (rsi_period self) (rsi_oversold self) (rsi_overbought self)
             (PBool false) (bb_period self) (bb_std self).

(** The conditions of lines 86-91 on one row. *)
Definition buys (self : MeanReversionStrategy) (r : Row) : bool :=
  flt (rsi r) (number (rsi_oversold self))
  && (negb (truth (use_bollinger self)) || fle (close r) (bb_lower r)).

Definition sells (self : MeanReversionStrategy) (r : Row) : bool :=
  flt (number (rsi_overbought self)) (rsi r)
  && (negb (truth (use_bollinger self)) || fge (close r) (bb_upper r)).

(** Four rows of closes with their indicator of period 2. *)
Definition zigzag_frame : list Row :=
  map (fun p : Q * pyfloat => mkRow (Fin (fst p)) (snd p) (Fin 0) (Fin 9))
      (combine zigzag zigzag_rsi).

End MeanReversionSignals.

(** ** app/strategies/volatility_contraction.py: the squeeze flag *)

Module Squeeze.
Import VolatilityContraction.

(** The cells of a window when none of them is NaN. *)
Fixpoint all_present (window : list (option Q)) : option (list Q) :=
  match window with
  | [] => Some []
  | None :: _ => None
  | Some x :: tl =>
      match all_present tl with
      | Some l => Some (x :: l)
      | None => None
      end
  end.

(** The rows [i + 1 - window .. i] of a column. *)
Definition window_at (window : nat) (xs : list (option Q)) (i : nat)
  : list (option Q) :=
  firstn window (skipn (i + 1 - window) xs).

(** [series.rolling(window).apply(f, raw=False)] for a window of at least
    one row: NaN until [window] rows are seen and wherever a cell of the
    window is NaN. *)
Definition rolling_apply (window : nat) (f : list Q -> Q)
  (xs : list (option Q)) : list (option Q) :=
  map (fun i =>
         if (window <=? i + 1)%nat
         then option_map f (all_present (window_at window xs i))
         else None)
      (seq 0 (length xs)).

Definition count (p : Q -> bool) (l : list Q) : nat := length (filter p l).

Definition below (l : list Q) : nat :=
  count (fun y => Qlt_bool y (last l 0)) l.

Definition tied (l : list Q) : nat :=
  count (fun y => Qeq_bool y (last l 0)) l.

(** Lines 68 and 71: [pd.Series(x).rank(pct=True).iloc[-1] * 100]. The
    values that tie with the last one share the average of their places,
    and the rank is a fraction of the size of the window. *)
Definition percent_rank (x : list Q) : Q :=
  (inject_Z (Z.of_nat (below x)) + (inject_Z (Z.of_nat (tied x)) + 1) / 2)
  / inject_Z (Z.of_nat (length x)) * 100.

(** [cell <= p]: false on NaN. *)
Definition le_cell (cell : option Q) (p : Q) : bool :=
  match cell with
  | Some a => Qle_bool a p
  | None => false
  end.

(** Lines 67-77: the column [squeeze] from the columns [bb_width] and
    [atr], for the parameters [lookback], [squeeze_percentile] and
    [atr_percentile]. *)
Definition squeeze_column (lookback : nat)
  (squeeze_percentile atr_percentile : Q)
  (bb_width atr : list (option Q)) : list Z :=
  let bb_width_pct := rolling_apply lookback percent_rank bb_width in
  let atr_pct := rolling_apply lookback percent_rank atr in
  map (fun p : option Q * option Q =>
         if le_cell (fst p) squeeze_percentile
            && le_cell (snd p) atr_percentile
         then 1%Z else 0%Z)
      (combine bb_width_pct atr_pct).

(** Five rows whose widths and ranges shrink. *)
Definition narrowing : list (option Q) :=
  [Some 5; Some 4; Some 3; Some 2; Some 1].

Definition narrowing_rows : list Row :=
  map (fun s => mkRow s 1 (Some 2) (Some 0))
      (squeeze_column 3 10 10 narrowing narrowing).

End Squeeze.

(** * Proofs *)

Lemma Qlt_bool_iff (x y : Q) : Qlt_bool x y = true <-> x < y.
Proof.
  unfold Qlt_bool. rewrite negb_true_iff. split.
  - intros H. apply Qnot_le_lt. intros Hle.
    apply Qle_bool_iff in Hle. congruence.
  - intros H. destruct (Qle_bool y x) eqn:E; [|reflexivity].
    apply Qle_bool_iff in E. exfalso. exact (Qlt_not_le _ _ H E).
Qed.

(** [round] goes to a nearest integer, and [py_round] to a nearest
    multiple of 10^-ndigits. *)
Lemma round_half_even_near (y : Q) :
  Qabs (inject_Z (round_half_even y) - y) <= 1 # 2.
Proof.
  apply Qabs_Qle_condition. unfold round_half_even.
  pose proof (Qfloor_le y) as Hlo. pose proof (Qlt_floor y) as Hhi.
  rewrite inject_Z_plus in Hhi.
  destruct (Qcompare (y - inject_Z (Qfloor y)) (1 # 2)) eqn:E.
  - apply Qeq_alt in E.
    destruct (Z.even (Qfloor y)); [|rewrite inject_Z_plus];
      change (inject_Z 1) with 1 in *; lra.
  - apply Qlt_alt in E. change (inject_Z 1) with 1 in *. lra.
  - apply Qgt_alt in E. rewrite inject_Z_plus.
    change (inject_Z 1) with 1 in *. lra.
Qed.

Lemma py_round_near (x : Q) (ndigits : nat) :
  Qabs (py_round x ndigits - x) <= (1 # 2) / inject_Z (10 ^ Z.of_nat ndigits).
Proof.
  unfold py_round.
  set (s := inject_Z (10 ^ Z.of_nat ndigits)).
  assert (0 < s) as Hs.
  { unfold s. change 0 with (inject_Z 0). rewrite <- Zlt_Qlt.
    apply Z.pow_pos_nonneg; lia. }
  pose proof (round_half_even_near (x * s)) as H.
  set (r := inject_Z (round_half_even (x * s))) in *.
  apply Qabs_Qle_condition in H. apply Qabs_Qle_condition.
  assert (r / s - x == (r - x * s) / s) as -> by (field; lra).
  assert (- ((1 # 2) / s) == (- (1 # 2)) / s) as -> by (field; lra).
  split; apply Qmult_le_compat_r; try lra;
    apply Qlt_le_weak, Qinv_lt_0_compat; exact Hs.
Qed.

(** ** The backtest engine *)

Module EngineProofs.
Import Engine.

Lemma getitem_iloc {A B : Type} (name : string) (c : option (list A)) (i : nat)
  (k : A -> result B) (b : B) :
  (l <- getitem name c ;; x <- iloc l i ;; k x) = Ok b ->
  exists x, cell c i = Some x /\ k x = Ok b.
Proof.
  destruct c as [l|]; simpl; [|discriminate].
  unfold iloc. destruct (nth_error l i) as [x|]; simpl; [|discriminate].
  intros H. exists x. split; [reflexivity|exact H].
Qed.

Lemma cell_getitem_iloc {A B : Type} (name : string) (c : option (list A))
  (i : nat) (k : A -> result B) (x : A) :
  cell c i = Some x ->
  (l <- getitem name c ;; y <- iloc l i ;; k y) = k x.
Proof.
  destruct c as [l|]; simpl; [|discriminate].
  unfold iloc. intros ->. reflexivity.
Qed.

Lemma bar_inv (cfg : Config) (df : DataFrame) (i : nat) (st st' : State) :
  bar cfg df i st = Ok st' ->
  exists atr, cell (col_atr df) i = Some atr /\
    ((skip_bar atr = true /\ st' = record_equity st) \/
     (skip_bar atr = false /\
      exists close high low signal,
        cell (col_close df) i = Some close /\
        cell (col_high df) i = Some high /\
        cell (col_low df) i = Some low /\
        cell (col_signal df) i = Some signal /\
        st' = processed cfg i atr close high low signal st)).
Proof.
  unfold bar. intros H.
  apply getitem_iloc in H. destruct H as (atr & Hatr & H).
  exists atr. split; [exact Hatr|].
  destruct (skip_bar atr).
  - left. split; [reflexivity|congruence].
  - right. split; [reflexivity|].
    apply getitem_iloc in H. destruct H as (close & Hc & H).
    apply getitem_iloc in H. destruct H as (high & Hh & H).
    apply getitem_iloc in H. destruct H as (low & Hl & H).
    apply getitem_iloc in H. destruct H as (signal & Hs & H).
    exists close, high, low, signal. unfold processed.
    repeat split; try assumption. congruence.
Qed.

(** A property kept by every bar of a run is kept by the run. *)
Lemma bars_invariant (cfg : Config) (df : DataFrame)
  (I : nat -> Prop) (P : State -> Prop) :
  (forall i st st', I i -> P st -> bar cfg df i st = Ok st' -> P st') ->
  forall idxs st st',
    Forall I idxs -> P st -> bars cfg df idxs st = Ok st' -> P st'.
Proof.
  intros Hstep. induction idxs as [|i rest IH]; simpl; intros st st' HI HP H.
  - congruence.
  - inversion HI as [|? ? Hi Hrest]; subst.
    destruct (bar cfg df i st) as [st1|] eqn:E; simpl in H; [|discriminate].
    apply (IH st1 st' Hrest); [|exact H].
    exact (Hstep i st st1 Hi HP E).
Qed.

Lemma exit_step_curve (cfg : Config) (i : nat) (high low : Q) (st : State) :
  curve (exit_step cfg i high low st) = curve st.
Proof.
  unfold exit_step. destruct (open_trade st) as [t|]; [|reflexivity].
  destruct (check_exit _ t high low) as [[k p]|]; reflexivity.
Qed.

Lemma entry_step_curve (cfg : Config) (i : nat) (atr close : Q) (signal : Z)
  (st : State) :
  curve (entry_step cfg i atr close signal st) = curve st.
Proof.
  unfold entry_step. destruct (open_trade st); [reflexivity|].
  destruct (negb (signal =? 0)%Z); reflexivity.
Qed.

(** Every bar appends one entry to the equity curve, whatever it does. *)
Lemma bar_curve (cfg : Config) (df : DataFrame) (i : nat) (st st' : State) :
  bar cfg df i st = Ok st' ->
  exists c, curve st' = curve st ++ [c].
Proof.
  intros H. apply bar_inv in H.
  destruct H as (atr & _ & [[_ ->] | (_ & c & h & l & s & _ & _ & _ & _ & ->)]).
  - eexists. reflexivity.
  - unfold processed, record_equity. simpl.
    rewrite entry_step_curve, exit_step_curve. eexists. reflexivity.
Qed.

Lemma bars_curve (cfg : Config) (df : DataFrame) (idxs : list nat) :
  forall st st',
    bars cfg df idxs st = Ok st' ->
    exists tl, curve st' = curve st ++ tl /\ length tl = length idxs.
Proof.
  induction idxs as [|i rest IH]; simpl; intros st st' H.
  - exists []. rewrite app_nil_r. split; [congruence|reflexivity].
  - destruct (bar cfg df i st) as [st1|] eqn:E; simpl in H; [|discriminate].
    apply bar_curve in E. destruct E as (c & Hc).
    apply IH in H. destruct H as (tl & Htl & Hlen).
    exists (c :: tl). rewrite Htl, Hc, <- app_assoc. simpl.
    split; [reflexivity|congruence].
Qed.

Lemma force_close_curve (cfg : Config) (df : DataFrame) (st st' : State) :
  force_close cfg df st = Ok st' -> curve st' = curve st.
Proof.
  unfold force_close. destruct (open_trade st) as [t|].
  - destruct (col_close df) as [l|]; simpl; [|discriminate].
    destruct (iloc_last l); simpl; [|discriminate].
    intros H. inversion H. reflexivity.
  - congruence.
Qed.

Lemma with_atr_nrows (df0 df : DataFrame) :
  with_atr df0 = Ok df -> nrows df = nrows df0.
Proof.
  unfold with_atr. destruct (col_atr df0).
  - congruence.
  - destruct (_compute_atr df0 14); simpl; [|discriminate].
    intros H. inversion H. reflexivity.
Qed.

(** The equity curve of a run: the initial capital, then one entry per
    bar from the second on. *)
Lemma simulate_curve (cfg : Config) (df : DataFrame) (st : State) :
  simulate cfg df = Ok st ->
  exists tl, curve st = initial_capital cfg :: tl /\
             length tl = (nrows df - 1)%nat.
Proof.
  unfold simulate. intros H.
  destruct (with_atr df) as [df1|] eqn:E1; simpl in H; [|discriminate].
  destruct (bars cfg df1 _ _) as [st1|] eqn:E2; simpl in H; [|discriminate].
  apply force_close_curve in H. apply bars_curve in E2.
  destruct E2 as (tl & Htl & Hlen). exists tl.
  rewrite H, Htl. simpl. split; [reflexivity|].
  rewrite Hlen, length_seq. apply with_atr_nrows in E1. congruence.
Qed.

Lemma has_len_cell {A : Type} (n i : nat) (c : option (list A)) :
  c <> None -> has_len n c -> (i < n)%nat -> exists x, cell c i = Some x.
Proof.
  destruct c as [l|]; [|congruence]. simpl. intros _ Hlen Hi.
  destruct (nth_error l i) as [x|] eqn:E; [exists x; reflexivity|].
  apply nth_error_None in E. lia.
Qed.

Lemma length_true_ranges (hs ls : list Q) (pcs : list (option Q)) :
  length ls = length hs -> length pcs = length hs ->
  length (true_ranges hs ls pcs) = length hs.
Proof.
  revert ls pcs. induction hs as [|h hs IH]; intros [|l ls] [|pc pcs];
    simpl; intros H1 H2; try discriminate; try reflexivity.
  f_equal. apply IH; congruence.
Qed.

Lemma length_shift (c : list Q) : length (shift c) = length c.
Proof.
  unfold shift. rewrite length_firstn. simpl. rewrite length_map. lia.
Qed.

Lemma length_rolling_mean (period : nat) (xs : list Q) :
  length (rolling_mean period xs) = length xs.
Proof. unfold rolling_mean. rewrite length_map. apply length_seq. Qed.

Lemma with_atr_total (df0 : DataFrame) :
  wf_frame df0 -> engine_columns df0 ->
  exists df, with_atr df0 = Ok df /\ wf_frame df /\ engine_columns df /\
             col_atr df <> None.
Proof.
  intros (Ht & Ho & Hh & Hl & Hc & Hs & Ha) (Nh & Nl & Nc & Ns).
  unfold with_atr. destruct (col_atr df0) as [a|] eqn:Ea.
  - exists df0. repeat split; try assumption; rewrite Ea; [exact Ha|discriminate].
  - unfold _compute_atr.
    destruct (col_high df0) as [hs|] eqn:Eh; [|congruence].
    destruct (col_low df0) as [ls|] eqn:El; [|congruence].
    destruct (col_close df0) as [cs|] eqn:Ec; [|congruence].
    simpl in *. eexists. split; [reflexivity|].
    unfold wf_frame, engine_columns. simpl.
    repeat split; try assumption; try congruence.
    rewrite length_rolling_mean, length_true_ranges; try congruence.
    rewrite length_shift. congruence.
Qed.

Lemma bars_total (cfg : Config) (df : DataFrame) :
  wf_frame df -> engine_columns df -> col_atr df <> None ->
  forall idxs st,
    Forall (fun i => (i < nrows df)%nat) idxs ->
    exists st', bars cfg df idxs st = Ok st'.
Proof.
  intros (Ht & Ho & Hh & Hl & Hc & Hs & Ha) (Nh & Nl & Nc & Ns) Na.
  induction idxs as [|i rest IH]; simpl; intros st HI.
  - exists st. reflexivity.
  - inversion HI as [|? ? Hi Hrest]; subst.
    assert (exists st1, bar cfg df i st = Ok st1) as (st1 & E).
    { unfold bar.
      destruct (has_len_cell _ i _ Na Ha Hi) as (atr & Eatr).
      rewrite (cell_getitem_iloc _ _ _ _ _ Eatr).
      destruct (skip_bar atr); [eexists; reflexivity|].
      destruct (has_len_cell _ i _ Nc Hc Hi) as (c & Ec).
      rewrite (cell_getitem_iloc _ _ _ _ _ Ec).
      destruct (has_len_cell _ i _ Nh Hh Hi) as (h & Eh).
      rewrite (cell_getitem_iloc _ _ _ _ _ Eh).
      destruct (has_len_cell _ i _ Nl Hl Hi) as (l & El).
      rewrite (cell_getitem_iloc _ _ _ _ _ El).
      destruct (has_len_cell _ i _ Ns Hs Hi) as (sg & Es).
      rewrite (cell_getitem_iloc _ _ _ _ _ Es).
      eexists; reflexivity. }
    rewrite E. simpl. apply IH. exact Hrest.
Qed.

Lemma seq_lt (n : nat) : Forall (fun i => (i < n)%nat) (seq 1 (n - 1)).
Proof. apply Forall_forall. intros i Hi. apply in_seq in Hi. lia. Qed.

Lemma seq_ge1 (n : nat) : Forall (fun i => (1 <= i)%nat) (seq 1 n).
Proof. apply Forall_forall. intros i Hi. apply in_seq in Hi. lia. Qed.

Lemma force_close_total (cfg : Config) (df : DataFrame) (st : State) :
  wf_frame df -> engine_columns df ->
  (open_trade st <> None -> (0 < nrows df)%nat) ->
  exists st', force_close cfg df st = Ok st'.
Proof.
  intros (_ & _ & _ & _ & Hc & _) (_ & _ & Nc & _) Hopen.
  unfold force_close. destruct (open_trade st) as [t|]; [|eexists; reflexivity].
  destruct (col_close df) as [cs|]; [|congruence]. simpl in *.
  unfold iloc_last.
  destruct (rev cs) as [|x tl] eqn:E.
  - apply (f_equal (@length Q)) in E. rewrite length_rev in E. simpl in E.
    assert (0 < nrows df)%nat by (apply Hopen; congruence). lia.
  - simpl. eexists; reflexivity.
Qed.

Lemma simulate_total (cfg : Config) (df : DataFrame) :
  wf_frame df -> engine_columns df -> exists st, simulate cfg df = Ok st.
Proof.
  intros Hwf Hcols. unfold simulate.
  destruct (with_atr_total df Hwf Hcols) as (df1 & E1 & Hwf1 & Hcols1 & Na).
  rewrite E1. simpl.
  destruct (bars_total cfg df1 Hwf1 Hcols1 Na _ (init_state cfg)
              (seq_lt (nrows df1))) as (st1 & E2).
  rewrite E2. simpl.
  apply force_close_total; try assumption.
  intros Hopen. destruct (nrows df1) as [|[|n]] eqn:En; [| |lia];
    simpl in E2; inversion E2; subst; simpl in Hopen; congruence.
Qed.

Lemma metrics_total (st : State) :
  curve st <> [] -> exists r, metrics st = Ok r.
Proof.
  intros Hc. unfold metrics. destruct (ledger st); [eexists; reflexivity|].
  unfold max_drawdown_of, iloc.
  destruct (curve st) as [|x tl]; [congruence|]. simpl. eexists; reflexivity.
Qed.

Lemma run_backtest_total (cfg : Config) (df : DataFrame) :
  wf_frame df -> engine_columns df -> exists r, run_backtest cfg df = Ok r.
Proof.
  intros Hwf Hcols. unfold run_backtest.
  destruct (simulate_total cfg df Hwf Hcols) as (st & E). rewrite E. simpl.
  apply metrics_total. apply simulate_curve in E.
  destruct E as (tl & -> & _). discriminate.
Qed.

Lemma exit_step_cases (cfg : Config) (i : nat) (high low : Q) (st : State) :
  (exit_step cfg i high low st = st /\
   (forall t, open_trade st = Some t ->
              check_exit (spread_of cfg) t high low = None)) \/
  (exists t k price,
     open_trade st = Some t /\
     check_exit (spread_of cfg) t high low = Some (k, price) /\
     exit_step cfg i high low st =
       let t' := settle cfg (capital st) t (Z.of_nat i) price in
       mkState (capital st + pnl t') (curve st) (ledger st ++ [t']) None).
Proof.
  unfold exit_step. destruct (open_trade st) as [t|].
  - destruct (check_exit (spread_of cfg) t high low) as [[k price]|] eqn:E.
    + right. exists t, k, price. repeat split. exact E.
    + left. split; [reflexivity|]. intros t0 H. inversion H; subst. exact E.
  - left. split; [reflexivity|]. discriminate.
Qed.

Lemma entry_step_cases (cfg : Config) (i : nat) (atr close : Q) (signal : Z)
  (st : State) :
  entry_step cfg i atr close signal st = st \/
  (open_trade st = None /\ signal <> 0%Z /\
   entry_step cfg i atr close signal st =
     mkState (capital st) (curve st) (ledger st)
             (Some (open_position cfg i atr close signal))).
Proof.
  unfold entry_step. destruct (open_trade st); [left; reflexivity|].
  destruct (signal =? 0)%Z eqn:E; simpl; [left; reflexivity|].
  right. apply Z.eqb_neq in E. repeat split. exact E.
Qed.

Lemma bar_provenance (cfg : Config) (df : DataFrame) (i : nat) (st st' : State) :
  (1 <= i)%nat -> provenance cfg df st -> bar cfg df i st = Ok st' ->
  provenance cfg df st'.
Proof.
  intros Hi [Hled Hopen] H. apply bar_inv in H.
  destruct H as (atr & Hatr & [[_ ->] | (Hskip & c & h & l & s & Hc & Hh & Hl & Hs & ->)]).
  - split; assumption.
  - unfold processed.
    assert (provenance cfg df (exit_step cfg i h l st)) as [Hled1 Hopen1].
    { destruct (exit_step_cases cfg i h l st) as [[-> _] | (t & k & p & Ht & Hk & ->)].
      - split; assumption.
      - split; simpl; [|discriminate].
        apply Forall_app. split; [exact Hled|].
        constructor; [|constructor].
        exists t, i, atr, h, l, k, p, (capital st).
        repeat split; try assumption. apply Hopen. exact Ht. }
    destruct (entry_step_cases cfg i (number atr) c s (exit_step cfg i h l st))
      as [-> | (Hnone & Hsig & ->)].
    + split; assumption.
    + split; simpl; [exact Hled1|].
      intros t Ht. inversion Ht; subst.
      exists i, atr, c, s. repeat split; assumption.
Qed.

Lemma loop_provenance (cfg : Config) (df : DataFrame) (st : State) :
  bars cfg df (seq 1 (nrows df - 1)) (init_state cfg) = Ok st ->
  provenance cfg df st.
Proof.
  apply (bars_invariant cfg df (fun i => (1 <= i)%nat) (provenance cfg df)).
  - intros i s s'. apply bar_provenance.
  - apply seq_ge1.
  - split; simpl; [constructor|discriminate].
Qed.

(** The three phases of [simulate], with what the last one adds. *)
Lemma simulate_inv (cfg : Config) (df0 : DataFrame) (fin : State) :
  simulate cfg df0 = Ok fin ->
  exists df st,
    with_atr df0 = Ok df /\
    bars cfg df (seq 1 (nrows df - 1)) (init_state cfg) = Ok st /\
    curve fin = curve st /\
    match open_trade st with
    | None => fin = st
    | Some t =>
        exists closes last_close,
          col_close df = Some closes /\
          iloc_last closes = Ok last_close /\
          let t' := settle cfg (capital st) t (Z.of_nat (nrows df) - 1)
                           last_close in
          ledger fin = ledger st ++ [t'] /\
          capital fin = capital st + pnl t'
    end.
Proof.
  unfold simulate. intros H.
  destruct (with_atr df0) as [df|] eqn:E1; simpl in H; [|discriminate].
  destruct (bars cfg df _ _) as [st|] eqn:E2; simpl in H; [|discriminate].
  exists df, st. split; [reflexivity|]. split; [exact E2|].
  split; [apply (force_close_curve _ _ _ _ H)|].
  unfold force_close in H. destruct (open_trade st) as [t|]; [|congruence].
  destruct (col_close df) as [cs|] eqn:Ec; simpl in H; [|discriminate].
  destruct (iloc_last cs) as [x|] eqn:Er; simpl in H; [|discriminate].
  inversion H; subst; clear H. simpl.
  exists cs, x. repeat split. exact Er.
Qed.

Lemma run_backtest_inv (cfg : Config) (df : DataFrame) (r : BacktestResult) :
  run_backtest cfg df = Ok r ->
  exists fin,
    simulate cfg df = Ok fin /\
    equity_curve r = curve fin /\
    trades r = map trade_row (ledger fin) /\
    total_trades r = length (ledger fin) /\
    total_pnl r = total_pnl_of (ledger fin).
Proof.
  unfold run_backtest. intros H.
  destruct (simulate cfg df) as [fin|]; simpl in H; [|discriminate].
  exists fin. split; [reflexivity|]. unfold metrics in H.
  destruct (ledger fin) as [|t ts].
  - inversion H; subst. simpl. repeat split.
  - destruct (max_drawdown_of (curve fin)); simpl in H; [|discriminate].
    inversion H; subst. simpl. repeat split.
Qed.

(** *** Claims about the bar loop *)

Lemma entry_step_ledger (cfg : Config) (i : nat) (atr close : Q) (signal : Z)
  (st : State) :
  ledger (entry_step cfg i atr close signal st) = ledger st /\
  capital (entry_step cfg i atr close signal st) = capital st.
Proof.
  unfold entry_step. destruct (open_trade st); [split; reflexivity|].
  destruct (negb (signal =? 0)%Z); split; reflexivity.
Qed.

Lemma check_exit_stop_first (spread : Q) (t : Trade) (high low : Q) :
  (direction t = 1%Z -> low <= stop_loss t ->
   check_exit spread t high low = Some (hit_sl, stop_loss t - spread / 2)) /\
  (direction t <> 1%Z -> stop_loss t <= high ->
   check_exit spread t high low = Some (hit_sl, stop_loss t + spread / 2)).
Proof.
  unfold check_exit. split; intros Hd Hs.
  - rewrite Hd. simpl. apply Qle_bool_iff in Hs. rewrite Hs. reflexivity.
  - apply Z.eqb_neq in Hd. rewrite Hd.
    apply Qle_bool_iff in Hs. rewrite Hs. reflexivity.
Qed.

Lemma settle_closed_at (cfg : Config) (cap : Q) (t : Trade) (i : Z)
  (price : Q) :
  closed_at cfg cap t i price (settle cfg cap t i price).
Proof. unfold closed_at, settle. cbn. repeat split. Qed.

(** What a bar leaves behind when its exit check closes the open trade:
    the closed trade at the end of the ledger, its PnL in the capital,
    and no open trade but one the entry check of the same bar opened. *)
Lemma processed_exit (cfg : Config) (i : nat) (atr : option Q)
  (close high low : Q) (signal : Z) (st : State) (t : Trade) (k : hit)
  (price : Q) :
  open_trade st = Some t ->
  check_exit (spread_of cfg) t high low = Some (k, price) ->
  let st' := processed cfg i atr close high low signal st in
  let t' := settle cfg (capital st) t (Z.of_nat i) price in
  ledger st' = ledger st ++ [t'] /\
  capital st' = capital st + pnl t' /\
  (forall u, open_trade st' = Some u ->
             entry_idx u = Z.of_nat i /\ closed u = false).
Proof.
  intros Hopen Hk. cbv zeta. unfold processed, record_equity.
  cbn [ledger capital open_trade].
  destruct (entry_step_ledger cfg i (number atr) close signal
              (exit_step cfg i high low st)) as [-> ->].
  unfold entry_step, exit_step. rewrite Hopen, Hk.
  cbn [ledger capital open_trade].
  split; [reflexivity|]. split; [reflexivity|].
  intros u.
  destruct (negb (signal =? 0)%Z); cbn [open_trade]; [|discriminate].
  intros Hu. inversion Hu; subst u. unfold open_position.
  destruct (signal =? 1)%Z; split; reflexivity.
Qed.

(** C2. On a bar the loop processes (ATR defined and not zero) with an
    open long trade, when the low is at or under the stop and the high is
    at or over the target, the exit check raises [hit_sl], not [hit_tp],
    and the trade is closed at the stop less half the spread: it goes to
    the end of the ledger with this bar as its exit index, that price as
    its exit price, [closed] set and the PnL of that price, which is
    added to the capital; it is no longer the open trade.  For a short
    trade the stop is tested on the high before the target on the low,
    and the exit price is the stop plus half the spread. *)
Theorem stop_loss_has_priority (cfg : Config) (df : DataFrame) (i : nat)
  (st st' : State) (t : Trade) (atr : option Q) (high low : Q) :
  bar cfg df i st = Ok st' ->
  cell (col_atr df) i = Some atr -> skip_bar atr = false ->
  cell (col_high df) i = Some high -> cell (col_low df) i = Some low ->
  open_trade st = Some t ->
  (direction t = 1%Z -> low <= stop_loss t -> take_profit t <= high ->
   let price := stop_loss t - spread_of cfg / 2 in
   let t' := settle cfg (capital st) t (Z.of_nat i) price in
   check_exit (spread_of cfg) t high low = Some (hit_sl, price) /\
   ledger st' = ledger st ++ [t'] /\
   closed_at cfg (capital st) t (Z.of_nat i) price t' /\
   capital st' = capital st + pnl t' /\
   (forall u, open_trade st' = Some u ->
              entry_idx u = Z.of_nat i /\ closed u = false)) /\
  (direction t <> 1%Z -> stop_loss t <= high -> low <= take_profit t ->
   let price := stop_loss t + spread_of cfg / 2 in
   let t' := settle cfg (capital st) t (Z.of_nat i) price in
   check_exit (spread_of cfg) t high low = Some (hit_sl, price) /\
   ledger st' = ledger st ++ [t'] /\
   closed_at cfg (capital st) t (Z.of_nat i) price t' /\
   capital st' = capital st + pnl t' /\
   (forall u, open_trade st' = Some u ->
              entry_idx u = Z.of_nat i /\ closed u = false)).
Proof.
  intros Hbar Hatr Hskip Hh Hl Hopen.
  apply bar_inv in Hbar.
  destruct Hbar as (atr' & Hatr' & [[Hs _] | (_ & c & h & l & s & _ & Hh' & Hl' & _ & ->)]).
  { congruence. }
  assert (h = high) by congruence. assert (l = low) by congruence. subst h l.
  destruct (check_exit_stop_first (spread_of cfg) t high low) as [Hlong Hshort].
  split; intros Hd Hsl _; cbv zeta.
  - specialize (Hlong Hd Hsl). split; [exact Hlong|].
    destruct (processed_exit cfg i atr' c high low s st t _ _ Hopen Hlong)
      as (Hled & Hcap & Hnew).
    split; [exact Hled|]. split; [apply settle_closed_at|].
    split; [exact Hcap|exact Hnew].
  - specialize (Hshort Hd Hsl). split; [exact Hshort|].
    destruct (processed_exit cfg i atr' c high low s st t _ _ Hopen Hshort)
      as (Hled & Hcap & Hnew).
    split; [exact Hled|]. split; [apply settle_closed_at|].
    split; [exact Hcap|exact Hnew].
Qed.

Lemma stop_loss_has_priority_witness :
  let price := stop_loss demo_long - spread_of default_config / 2 in
  let t' := settle default_config (capital demo_state1) demo_long 2 price in
  check_exit (spread_of default_config) demo_long 13 8
  = Some (hit_sl, price) /\
  ledger demo_state2 = ledger demo_state1 ++ [t'] /\
  closed_at default_config (capital demo_state1) demo_long 2 price t' /\
  capital demo_state2 = capital demo_state1 + pnl t' /\
  (forall u, open_trade demo_state2 = Some u ->
             entry_idx u = 2%Z /\ closed u = false).
Proof.
  apply (proj1 (stop_loss_has_priority default_config demo_frame 2
                  demo_state1 demo_state2 demo_long (Some 1) 13 8
                  eq_refl eq_refl eq_refl eq_refl eq_refl eq_refl)).
  - reflexivity.
  - unfold Qle; simpl; lia.
  - unfold Qle; simpl; lia.
Defined.

(** C3 (amended). On every frame that has the columns the engine reads,
    [run_backtest] returns a result whose equity curve starts with the
    initial capital and has one entry per bar when the series has a bar,
    and exactly one entry when the series is empty: its length is
    [max 1 (len(df))]. *)
Theorem equity_curve_one_entry_per_bar (cfg : Config) (df : DataFrame) :
  wf_frame df -> engine_columns df ->
  exists r,
    run_backtest cfg df = Ok r /\
    length (equity_curve r) = Nat.max 1 (nrows df) /\
    nth_error (equity_curve r) 0 = Some (initial_capital cfg).
Proof.
  intros Hwf Hcols.
  destruct (run_backtest_total cfg df Hwf Hcols) as (r & Hr).
  exists r. split; [exact Hr|].
  destruct (run_backtest_inv _ _ _ Hr) as (fin & Hsim & Hcurve & _).
  destruct (simulate_curve _ _ _ Hsim) as (tl & Htl & Hlen).
  rewrite Hcurve, Htl. split; [|reflexivity].
  cbn [length]. rewrite Hlen. lia.
Qed.

Lemma wf_empty_frame : wf_frame empty_frame /\ engine_columns empty_frame.
Proof. repeat split; simpl; congruence. Qed.

Lemma equity_curve_one_entry_per_bar_witness :
  exists r,
    run_backtest default_config demo_frame = Ok r /\
    length (equity_curve r) = Nat.max 1 (nrows demo_frame) /\
    nth_error (equity_curve r) 0 = Some (initial_capital default_config).
Proof.
  apply (equity_curve_one_entry_per_bar default_config demo_frame).
  - repeat split; simpl; congruence.
  - repeat split; simpl; congruence.
Defined.

(** C3 as stated fails on the empty series: the curve starts as
    [[initial_capital]] before the loop, so it has one entry for no bar. *)
Lemma empty_series_curve_has_one_entry :
  wf_frame empty_frame /\ engine_columns empty_frame /\
  exists r,
    run_backtest default_config empty_frame = Ok r /\
    length (equity_curve r) = 1%nat /\
    length (equity_curve r) <> nrows empty_frame.
Proof.
  split; [apply wf_empty_frame|]. split; [apply wf_empty_frame|].
  eexists. split; [reflexivity|]. simpl. split; [reflexivity|discriminate].
Qed.

Lemma entered_entry_idx (cfg : Config) (df : DataFrame) (t : Trade) :
  entered cfg df t -> (1 <= entry_idx t)%Z.
Proof.
  intros (i & atr & c & s & Hi & _ & _ & _ & _ & _ & ->).
  unfold open_position. destruct (s =? 1)%Z; simpl; lia.
Qed.

Lemma exited_entry_idx (cfg : Config) (df : DataFrame) (t : Trade) :
  exited cfg df t -> (1 <= entry_idx t)%Z.
Proof.
  intros (t0 & j & atr & h & l & k & p & cap & Hent & _ & _ & _ & _ & _ & ->).
  simpl. exact (entered_entry_idx _ _ _ Hent).
Qed.

(** C8. Every trade of the returned ledger was entered at index 1 or
    later: the loop starts at [range(1, len(df))], so a signal on bar 0 is
    never read. *)
Theorem no_entry_on_first_bar (cfg : Config) (df : DataFrame)
  (r : BacktestResult) :
  run_backtest cfg df = Ok r ->
  Forall (fun row => (1 <= row_entry_idx row)%Z) (trades r).
Proof.
  intros Hr.
  destruct (run_backtest_inv _ _ _ Hr) as (fin & Hsim & _ & Htr & _).
  destruct (simulate_inv _ _ _ Hsim) as (df1 & st & _ & Hloop & _ & Hfin).
  destruct (loop_provenance _ _ _ Hloop) as [Hled Hopen].
  rewrite Htr. apply Forall_map. simpl.
  assert (Forall (fun t => (1 <= entry_idx t)%Z) (ledger st)) as Hst.
  { eapply Forall_impl; [|exact Hled]. intros t. apply exited_entry_idx. }
  destruct (open_trade st) as [t|].
  - destruct Hfin as (cs & lc & _ & _ & -> & _).
    apply Forall_app. split; [exact Hst|].
    constructor; [|constructor]. simpl.
    apply (entered_entry_idx cfg df1). apply Hopen. reflexivity.
  - subst fin. exact Hst.
Qed.

Lemma no_entry_on_first_bar_witness :
  Forall (fun row => (1 <= row_entry_idx row)%Z) (trades demo_result).
Proof.
  apply (no_entry_on_first_bar default_config demo_frame demo_result).
  vm_compute. reflexivity.
Defined.

Lemma skip_bar_false (atr : option Q) :
  skip_bar atr = false -> exists a, atr = Some a /\ ~ a == 0.
Proof.
  unfold skip_bar. destruct atr as [a|]; simpl; [|discriminate].
  intros H. exists a. split; [reflexivity|].
  intros Ha. apply Qeq_bool_iff in Ha. congruence.
Qed.

Lemma exited_exit_bar (cfg : Config) (df : DataFrame) (t : Trade) :
  exited cfg df t -> exit_bar_processed df t.
Proof.
  intros (t0 & j & atr & h & l & k & p & cap & _ & Hatr & Hskip & _ & _ & _ & ->).
  destruct (skip_bar_false _ Hskip) as (a & -> & Ha).
  exists j, a. simpl. repeat split; assumption.
Qed.

(** C9. A bar whose ATR is NaN or zero changes neither the open trade,
    nor the ledger, nor the capital: it only repeats the capital on the
    equity curve.  So every trade settled inside the loop was settled at a
    bar with a defined nonzero ATR, and the only other trade of the
    returned ledger is the one force-closed after the loop, which comes
    last. *)
Theorem skipped_bar_never_exits (cfg : Config) (df0 df : DataFrame)
  (r : BacktestResult) :
  with_atr df0 = Ok df ->
  run_backtest cfg df0 = Ok r ->
  (forall i atr st st',
      cell (col_atr df) i = Some atr -> skip_bar atr = true ->
      bar cfg df i st = Ok st' ->
      open_trade st' = open_trade st /\ ledger st' = ledger st /\
      capital st' = capital st /\ curve st' = curve st ++ [capital st]) /\
  (exists st forced,
      bars cfg df (seq 1 (nrows df - 1)) (init_state cfg) = Ok st /\
      trades r = map trade_row (ledger st ++ forced) /\
      Forall (exit_bar_processed df) (ledger st) /\
      match open_trade st with
      | None => forced = []
      | Some t =>
          exists t', forced = [t'] /\ entry_idx t' = entry_idx t /\
                     exit_idx t' = (Z.of_nat (nrows df) - 1)%Z
      end).
Proof.
  intros Hdf Hr. split.
  - intros i atr st st' Hatr Hskip Hbar. apply bar_inv in Hbar.
    destruct Hbar as (atr' & Hatr' & [[_ ->] | (Hs & _)]).
    + repeat split.
    + congruence.
  - destruct (run_backtest_inv _ _ _ Hr) as (fin & Hsim & _ & Htr & _).
    destruct (simulate_inv _ _ _ Hsim) as (df1 & st & Hdf1 & Hloop & _ & Hfin).
    assert (df1 = df) by congruence. subst df1.
    destruct (loop_provenance _ _ _ Hloop) as [Hled _].
    assert (Forall (exit_bar_processed df) (ledger st)) as Hproc.
    { eapply Forall_impl; [|exact Hled]. intros t. apply exited_exit_bar. }
    destruct (open_trade st) as [t|] eqn:Eo.
    + destruct Hfin as (cs & lc & _ & _ & Hl & _).
      exists st, [settle cfg (capital st) t (Z.of_nat (nrows df) - 1) lc].
      rewrite Eo. repeat split; try assumption; [congruence|].
      eexists. repeat split.
    + subst fin. exists st, []. rewrite Eo, app_nil_r.
      repeat split; assumption.
Qed.

Lemma skipped_bar_never_exits_witness :
  exists st forced,
    bars default_config demo_frame (seq 1 (nrows demo_frame - 1))
         (init_state default_config) = Ok st /\
    trades demo_result = map trade_row (ledger st ++ forced) /\
    Forall (exit_bar_processed demo_frame) (ledger st) /\
    match open_trade st with
    | None => forced = []
    | Some t =>
        exists t', forced = [t'] /\ entry_idx t' = entry_idx t /\
                   exit_idx t' = (Z.of_nat (nrows demo_frame) - 1)%Z
    end.
Proof.
  refine (proj2 (skipped_bar_never_exits default_config demo_frame demo_frame
                   demo_result _ _)); vm_compute; reflexivity.
Defined.

(** *** Capital, equity curve and total PnL *)

Lemma total_pnl_of_snoc (ts : list Trade) (t : Trade) :
  total_pnl_of (ts ++ [t]) = total_pnl_of ts + pnl t.
Proof.
  unfold total_pnl_of, py_sum. rewrite map_app, fold_left_app. reflexivity.
Qed.

Lemma record_equity_last (st : State) :
  last (curve (record_equity st)) 0 = capital (record_equity st).
Proof. unfold record_equity. simpl. apply last_last. Qed.

Lemma exit_step_balanced (cfg : Config) (i : nat) (high low : Q) (st : State) :
  capital st == initial_capital cfg + total_pnl_of (ledger st) ->
  capital (exit_step cfg i high low st)
  == initial_capital cfg + total_pnl_of (ledger (exit_step cfg i high low st)).
Proof.
  intros H.
  destruct (exit_step_cases cfg i high low st)
    as [[-> _] | (t & k & p & _ & _ & ->)]; [exact H|].
  cbn [capital ledger]. rewrite total_pnl_of_snoc.
  generalize (pnl (settle cfg (capital st) t (Z.of_nat i) p)). intros x.
  rewrite H. ring.
Qed.

Lemma bar_balanced (cfg : Config) (df : DataFrame) (i : nat) (st st' : State) :
  balanced cfg st -> bar cfg df i st = Ok st' -> balanced cfg st'.
Proof.
  intros [Hcap Hlast] H. apply bar_inv in H.
  destruct H as (atr & _ & [[_ ->] | (_ & c & h & l & s & _ & _ & _ & _ & ->)]).
  - split; [exact Hcap|apply record_equity_last].
  - unfold processed. split; [|apply record_equity_last].
    unfold record_equity. cbn [capital ledger].
    destruct (entry_step_ledger cfg i (number atr) c s (exit_step cfg i h l st))
      as [-> ->].
    apply exit_step_balanced. exact Hcap.
Qed.

Lemma loop_balanced (cfg : Config) (df : DataFrame) (idxs : list nat)
  (st : State) :
  bars cfg df idxs (init_state cfg) = Ok st -> balanced cfg st.
Proof.
  apply (bars_invariant cfg df (fun _ => True) (balanced cfg)).
  - intros i s s' _. apply bar_balanced.
  - apply Forall_forall. intros; exact I.
  - split; simpl; [|reflexivity]. unfold total_pnl_of, py_sum. simpl. ring.
Qed.

(** The capital is built by adding the PnL of each trade to the initial
    capital in the order of the ledger. *)
Lemma fold_pnl_snoc (ts : list Trade) (t : Trade) (c : Q) :
  fold_left Qplus (map pnl (ts ++ [t])) c
  = fold_left Qplus (map pnl ts) c + pnl t.
Proof. rewrite map_app, fold_left_app. reflexivity. Qed.

Lemma bar_running_sum (cfg : Config) (df : DataFrame) (i : nat)
  (st st' : State) :
  capital st = fold_left Qplus (map pnl (ledger st)) (initial_capital cfg) ->
  bar cfg df i st = Ok st' ->
  capital st' = fold_left Qplus (map pnl (ledger st')) (initial_capital cfg).
Proof.
  intros Hcap H. apply bar_inv in H.
  destruct H as (atr & _ & [[_ ->] | (_ & c & h & l & s & _ & _ & _ & _ & ->)]).
  - exact Hcap.
  - unfold processed, record_equity. cbn [capital ledger].
    destruct (entry_step_ledger cfg i (number atr) c s (exit_step cfg i h l st))
      as [-> ->].
    destruct (exit_step_cases cfg i h l st)
      as [[-> _] | (t & k & p & _ & _ & ->)]; [exact Hcap|].
    cbn [capital ledger]. rewrite fold_pnl_snoc, Hcap. reflexivity.
Qed.

Lemma loop_running_sum (cfg : Config) (df : DataFrame) (idxs : list nat)
  (st : State) :
  bars cfg df idxs (init_state cfg) = Ok st ->
  capital st = fold_left Qplus (map pnl (ledger st)) (initial_capital cfg).
Proof.
  apply (bars_invariant cfg df (fun _ => True)
           (fun s => capital s
                     = fold_left Qplus (map pnl (ledger s))
                                 (initial_capital cfg))).
  - intros i s s' _. apply bar_running_sum.
  - apply Forall_forall. intros; exact I.
  - reflexivity.
Qed.

(** C10. The last entry of the returned equity curve is the capital at
    the end of the loop: the initial capital with the PnL of the trades
    closed in the loop added one after the other, while [total_pnl] is
    the sum of the PnL of the ledger taken from 0.  When no trade is open
    there, the two agree as numbers: the last entry equals
    [initial_capital + total_pnl].  When a trade is open there,
    the force-close closes it at the last close (exit index the last bar,
    PnL from the last close and the capital at the end of the loop) and
    appends it to the ledger and its PnL to [total_pnl], but not to the
    curve: the last entry is short of [initial_capital + total_pnl] by
    exactly that PnL.  The two sums add the same numbers in a different
    order and are compared as exact numbers. *)
Theorem forced_pnl_not_in_curve (cfg : Config) (df0 : DataFrame)
  (r : BacktestResult) :
  run_backtest cfg df0 = Ok r ->
  exists df st,
    with_atr df0 = Ok df /\
    bars cfg df (seq 1 (nrows df - 1)) (init_state cfg) = Ok st /\
    last (equity_curve r) 0 = capital st /\
    last (equity_curve r) 0
    = fold_left Qplus (map pnl (ledger st)) (initial_capital cfg) /\
    match open_trade st with
    | None =>
        trades r = map trade_row (ledger st) /\
        total_pnl r = total_pnl_of (ledger st) /\
        last (equity_curve r) 0 == initial_capital cfg + total_pnl r
    | Some t =>
        exists closes last_close,
          col_close df = Some closes /\
          iloc_last closes = Ok last_close /\
          let forced := settle cfg (capital st) t (Z.of_nat (nrows df) - 1)
                               last_close in
          closed_at cfg (capital st) t (Z.of_nat (nrows df) - 1) last_close
                    forced /\
          trades r = map trade_row (ledger st) ++ [trade_row forced] /\
          total_pnl r = total_pnl_of (ledger st) + pnl forced /\
          last (equity_curve r) 0 + pnl forced
          == initial_capital cfg + total_pnl r
    end.
Proof.
  intros Hr.
  destruct (run_backtest_inv _ _ _ Hr) as (fin & Hsim & Hcurve & Htr & _ & Hpnl).
  destruct (simulate_inv _ _ _ Hsim) as (df & st & Hdf & Hloop & Hc & Hfin).
  destruct (loop_balanced _ _ _ _ Hloop) as [Hcap Hlast].
  pose proof (loop_running_sum _ _ _ _ Hloop) as Hsum.
  exists df, st. split; [exact Hdf|]. split; [exact Hloop|].
  assert (last (equity_curve r) 0 = capital st) as Hl by congruence.
  split; [exact Hl|]. split; [congruence|].
  destruct (open_trade st) as [t|].
  - destruct Hfin as (cs & lc & Hcs & Hlc & Hled & _). exists cs, lc.
    split; [exact Hcs|]. split; [exact Hlc|]. cbv zeta.
    split; [apply settle_closed_at|].
    rewrite Htr, Hpnl, Hled, map_app, total_pnl_of_snoc, Hl. cbn [map].
    generalize (pnl (settle cfg (capital st) t (Z.of_nat (nrows df) - 1) lc)).
    intros x.
    split; [reflexivity|]. split; [reflexivity|].
    rewrite Hcap. ring.
  - subst fin. split; [exact Htr|]. split; [exact Hpnl|].
    rewrite Hl, Hpnl. exact Hcap.
Qed.

Lemma forced_pnl_not_in_curve_witness :
  (exists df st,
    with_atr reentry_frame = Ok df /\
    bars default_config df (seq 1 (nrows df - 1))
         (init_state default_config) = Ok st /\
    last (equity_curve reentry_result) 0 = capital st /\
    last (equity_curve reentry_result) 0
    = fold_left Qplus (map pnl (ledger st)) (initial_capital default_config) /\
    match open_trade st with
    | None =>
        trades reentry_result = map trade_row (ledger st) /\
        total_pnl reentry_result = total_pnl_of (ledger st) /\
        last (equity_curve reentry_result) 0
        == initial_capital default_config + total_pnl reentry_result
    | Some t =>
        exists closes last_close,
          col_close df = Some closes /\
          iloc_last closes = Ok last_close /\
          let forced := settle default_config (capital st) t
                               (Z.of_nat (nrows df) - 1) last_close in
          closed_at default_config (capital st) t (Z.of_nat (nrows df) - 1)
                    last_close forced /\
          trades reentry_result
          = map trade_row (ledger st) ++ [trade_row forced] /\
          total_pnl reentry_result = total_pnl_of (ledger st) + pnl forced /\
          last (equity_curve reentry_result) 0 + pnl forced
          == initial_capital default_config + total_pnl reentry_result
    end) /\
  last (equity_curve reentry_result) 0 == 39599990 # 4000 /\
  total_pnl reentry_result == - (321623919997 # 4800000000) /\
  ~ last (equity_curve reentry_result) 0
    == initial_capital default_config + total_pnl reentry_result.
Proof.
  split.
  - apply (forced_pnl_not_in_curve default_config reentry_frame
             reentry_result).
    vm_compute. reflexivity.
  - split; [vm_compute; reflexivity|]. split; [vm_compute; reflexivity|].
    vm_compute. intros H. discriminate H.
Defined.

Lemma entered_priced (cfg : Config) (df : DataFrame) (t : Trade) :
  entered cfg df t -> entry_priced cfg df t.
Proof.
  intros (i & atr & c & s & _ & _ & _ & Hc & _ & _ & ->).
  exists i, c. unfold open_position.
  destruct (s =? 1)%Z eqn:E; simpl; rewrite E; repeat split; assumption.
Qed.

Lemma check_exit_price (spread : Q) (t : Trade) (high low : Q) (k : hit) (p : Q) :
  check_exit spread t high low = Some (k, p) ->
  if (direction t =? 1)%Z
  then p = stop_loss t - spread / 2 \/ p = take_profit t - spread / 2
  else p = stop_loss t + spread / 2 \/ p = take_profit t + spread / 2.
Proof.
  unfold check_exit. destruct (direction t =? 1)%Z.
  - destruct (Qle_bool low (stop_loss t)); [intros H; inversion H; auto|].
    destruct (Qle_bool (take_profit t) high); [intros H; inversion H; auto|].
    discriminate.
  - destruct (Qle_bool (stop_loss t) high); [intros H; inversion H; auto|].
    destruct (Qle_bool low (take_profit t)); [intros H; inversion H; auto|].
    discriminate.
Qed.

Lemma exited_priced (cfg : Config) (df : DataFrame) (t : Trade) :
  exited cfg df t -> entry_priced cfg df t /\ exit_priced cfg t.
Proof.
  intros (t0 & j & atr & h & l & k & p & cap & Hent & _ & _ & _ & _ & Hk & ->).
  split.
  - destruct (entered_priced _ _ _ Hent) as (i & c & Hi & Hc & Hp).
    exists i, c. simpl. repeat split; assumption.
  - apply check_exit_price in Hk. unfold exit_priced. simpl. exact Hk.
Qed.

(** C5 (amended). The engine takes its spread configuration in pips and
    converts it itself, [spread = spread_pips * 0.0001].  Half of the
    converted spread goes against the position on every entry (close plus
    half for a long, close minus half otherwise) and on every stop or
    target exit of the loop; the force-close after the loop exits at the
    last close with no spread. *)
Theorem spread_taken_in_pips (cfg : Config) (df0 : DataFrame) (fin : State) :
  simulate cfg df0 = Ok fin ->
  exists df st,
    with_atr df0 = Ok df /\
    bars cfg df (seq 1 (nrows df - 1)) (init_state cfg) = Ok st /\
    Forall (fun t => entry_priced cfg df t /\ exit_priced cfg t) (ledger st) /\
    match open_trade st with
    | None => ledger fin = ledger st
    | Some _ =>
        exists forced closes,
          ledger fin = ledger st ++ [forced] /\
          entry_priced cfg df forced /\
          col_close df = Some closes /\
          iloc_last closes = Ok (exit_price forced)
    end.
Proof.
  intros Hsim.
  destruct (simulate_inv _ _ _ Hsim) as (df & st & Hdf & Hloop & _ & Hfin).
  destruct (loop_provenance _ _ _ Hloop) as [Hled Hopen].
  exists df, st. split; [exact Hdf|]. split; [exact Hloop|]. split.
  - eapply Forall_impl; [|exact Hled]. intros t. apply exited_priced.
  - destruct (open_trade st) as [t|]; [|congruence].
    destruct Hfin as (cs & lc & Hcs & Hlc & Hl & _).
    eexists. exists cs. split; [exact Hl|]. simpl.
    split; [|split; assumption].
    destruct (entered_priced _ _ _ (Hopen t eq_refl)) as (i & c & Hi & Hc & Hp).
    exists i, c. simpl. repeat split; assumption.
Qed.

Lemma spread_taken_in_pips_witness :
  exists df st,
    with_atr demo_frame = Ok df /\
    bars default_config df (seq 1 (nrows df - 1))
         (init_state default_config) = Ok st /\
    Forall (fun t => entry_priced default_config df t /\
                     exit_priced default_config t) (ledger st) /\
    match open_trade st with
    | None => ledger demo_final = ledger st
    | Some _ =>
        exists forced closes,
          ledger demo_final = ledger st ++ [forced] /\
          entry_priced default_config df forced /\
          col_close df = Some closes /\
          iloc_last closes = Ok (exit_price forced)
    end.
Proof.
  apply (spread_taken_in_pips default_config demo_frame demo_final).
  vm_compute. reflexivity.
Defined.

(** C5 as stated fails: with the default [spread_pips = 1.5] the BUY at
    bar 1 of [demo_frame], whose close is 10, is entered at 10.000075,
    that is half of 1.5 * 0.0001 over the close, not half of 1.5. *)
Lemma spread_is_converted_from_pips :
  simulate default_config demo_frame = Ok demo_final /\
  exists t,
    nth_error (ledger demo_final) 0 = Some t /\
    direction t = 1%Z /\ entry_idx t = 1%Z /\
    cell (col_close demo_frame) 1 = Some 10 /\
    entry_price t == 10 + spread_pips default_config * (1 # 10000) / 2 /\
    ~ entry_price t == 10 + spread_pips default_config / 2.
Proof.
  split; [vm_compute; reflexivity|].
  eexists. split; [reflexivity|].
  repeat split; vm_compute; try reflexivity. intros H. discriminate H.
Qed.

Lemma py_round_rounds (x : Q) (ndigits : nat) :
  rounded_to ndigits x (py_round x ndigits).
Proof.
  split; [|apply py_round_near].
  exists (round_half_even (x * inject_Z (10 ^ Z.of_nat ndigits))).
  reflexivity.
Qed.

Lemma rows_of_trades (ts : list Trade) :
  Forall2 row_of_trade ts (map trade_row ts).
Proof.
  induction ts as [|t ts IH]; simpl; constructor; [|exact IH].
  unfold row_of_trade, trade_row.
  cbn [row_entry_idx row_exit_idx row_entry_price row_exit_price
       row_stop_loss row_take_profit row_pnl row_direction].
  repeat (split; [first [reflexivity | apply py_round_rounds]|]).
  reflexivity.
Qed.

Lemma row_of_trade_near (t : Trade) (row : TradeRow) :
  row_of_trade t row -> row_near t row.
Proof.
  unfold row_near.
  intros (_ & _ & [_ H1] & [_ H2] & [_ H3] & [_ H4] & [_ H5] & _).
  repeat split;
    (eapply Qle_trans; [eassumption|]); vm_compute; discriminate.
Qed.

(** C6 (amended). The equity curve, the trade count, the total PnL and,
    when there is a trade, the win rate, the Sharpe ratio and the maximum
    drawdown are returned as the simulation computed them.  The rows of
    the returned ledger are formatted: each of the entry, exit, stop and
    target prices is a multiple of 10^-5 within half of 10^-5 of the
    price of the trade, the PnL a multiple of 10^-2 within half a cent of
    the PnL of the trade, the direction the text LONG or SHORT. *)
Theorem only_ledger_rows_are_rounded (cfg : Config) (df : DataFrame)
  (r : BacktestResult) :
  run_backtest cfg df = Ok r ->
  exists fin,
    simulate cfg df = Ok fin /\
    equity_curve r = curve fin /\
    total_trades r = length (ledger fin) /\
    total_pnl r = total_pnl_of (ledger fin) /\
    (ledger fin <> [] ->
     win_rate r = win_rate_of (ledger fin) /\
     sharpe_ratio r = sharpe_of (curve fin) /\
     max_drawdown_of (curve fin) = Ok (max_drawdown r)) /\
    Forall2 row_of_trade (ledger fin) (trades r) /\
    Forall2 row_near (ledger fin) (trades r).
Proof.
  unfold run_backtest. intros H.
  destruct (simulate cfg df) as [fin|]; simpl in H; [|discriminate].
  exists fin. split; [reflexivity|].
  assert (Forall2 row_of_trade (ledger fin) (trades r) ->
          Forall2 row_near (ledger fin) (trades r)) as Hnear.
  { apply Forall2_impl. apply row_of_trade_near. }
  unfold metrics in H.
  destruct (ledger fin) as [|t ts] eqn:El.
  - inversion H; subst. simpl. repeat split; try congruence; constructor.
  - destruct (max_drawdown_of (curve fin)) as [dd|]; simpl in H; [|discriminate].
    inversion H; subst. cbn [equity_curve total_trades total_pnl win_rate
                              sharpe_ratio max_drawdown trades] in *.
    repeat split; [|apply Hnear]; apply (rows_of_trades (t :: ts)).
Qed.

Lemma only_ledger_rows_are_rounded_witness :
  exists fin,
    simulate default_config reentry_frame = Ok fin /\
    equity_curve reentry_result = curve fin /\
    total_trades reentry_result = length (ledger fin) /\
    total_pnl reentry_result = total_pnl_of (ledger fin) /\
    (ledger fin <> [] ->
     win_rate reentry_result = win_rate_of (ledger fin) /\
     sharpe_ratio reentry_result = sharpe_of (curve fin) /\
     max_drawdown_of (curve fin) = Ok (max_drawdown reentry_result)) /\
    Forall2 row_of_trade (ledger fin) (trades reentry_result) /\
    Forall2 row_near (ledger fin) (trades reentry_result).
Proof.
  apply (only_ledger_rows_are_rounded default_config reentry_frame
           reentry_result).
  vm_compute. reflexivity.
Defined.

(** C6 as stated fails: the BUY of [reentry_frame] is entered at
    10.000076 and stopped out with a PnL of -100.0025, and the returned
    row shows the entry as 10.00008 and the PnL as -100.00; neither value
    is near a tie of the rounding. *)
Lemma ledger_rows_are_rounded :
  run_backtest default_config reentry_frame = Ok reentry_result /\
  simulate default_config reentry_frame = Ok reentry_final /\
  exists t row,
    nth_error (ledger reentry_final) 0 = Some t /\
    nth_error (trades reentry_result) 0 = Some row /\
    entry_price t == 10000076 # 1000000 /\
    row_entry_price row == 1000008 # 100000 /\
    ~ row_entry_price row == entry_price t /\
    pnl t == - (1000025 # 10000) /\
    row_pnl row == - (100 # 1) /\
    ~ row_pnl row == pnl t.
Proof.
  split; [vm_compute; reflexivity|]. split; [vm_compute; reflexivity|].
  do 2 eexists. split; [reflexivity|]. split; [reflexivity|].
  repeat split; vm_compute; try reflexivity; intros H; discriminate H.
Qed.

Lemma has_engine_columns_iff (df : DataFrame) :
  has_engine_columns df = true <-> engine_columns df.
Proof.
  unfold has_engine_columns, engine_columns.
  destruct (col_close df), (col_high df), (col_low df), (col_signal df);
    simpl; split; intros H; try discriminate; try reflexivity;
    try (repeat split; discriminate);
    destruct H as (H1 & H2 & H3 & H4); congruence.
Qed.

Lemma with_atr_raises (df0 : DataFrame) :
  raises (with_atr df0) = true <->
  col_atr df0 = None /\
  (col_high df0 = None \/ col_low df0 = None \/ col_close df0 = None).
Proof.
  unfold with_atr, _compute_atr.
  destruct (col_atr df0), (col_high df0), (col_low df0), (col_close df0);
    simpl; split; intros H; try discriminate; try reflexivity;
    try (split; [reflexivity|auto; fail]);
    destruct H as [H1 [H2 | [H2 | H2]]]; congruence.
Qed.

Lemma with_atr_inv (df0 df : DataFrame) :
  wf_frame df0 -> with_atr df0 = Ok df ->
  wf_frame df /\ col_atr df <> None /\
  has_engine_columns df = has_engine_columns df0.
Proof.
  intros (Ht & Ho & Hh & Hl & Hc & Hs & Ha). unfold with_atr.
  destruct (col_atr df0) as [a|] eqn:Ea.
  - intros H. inversion H; subst. rewrite Ea.
    repeat split; try assumption; try discriminate. rewrite Ea. exact Ha.
  - unfold _compute_atr.
    destruct (col_high df0) as [hs|] eqn:Eh; [|discriminate].
    destruct (col_low df0) as [ls|] eqn:El; [|discriminate].
    destruct (col_close df0) as [cs|] eqn:Ec; [|discriminate].
    simpl. intros H. inversion H; subst; clear H.
    unfold wf_frame, has_engine_columns. simpl in *. rewrite Eh, El, Ec.
    repeat split; try assumption; try discriminate. simpl.
    rewrite length_rolling_mean, length_true_ranges; try congruence.
    rewrite length_shift. congruence.
Qed.

Lemma raises_bind {A B : Type} (m : result A) (k : A -> result B) :
  raises (x <- m ;; k x) =
  match m with Ok a => raises (k a) | Raise _ => true end.
Proof. destruct m; reflexivity. Qed.

(** A bar that passes the ATR test raises when one of the four columns
    is missing. *)
Lemma bar_raises_missing (cfg : Config) (df : DataFrame) (i : nat)
  (atr : option Q) (st : State) :
  cell (col_atr df) i = Some atr -> skip_bar atr = false ->
  has_engine_columns df = false ->
  raises (bar cfg df i st) = true.
Proof.
  intros Hatr Hskip Hcols. unfold bar.
  rewrite (cell_getitem_iloc _ _ _ _ _ Hatr), Hskip.
  unfold has_engine_columns in Hcols.
  destruct (col_close df) as [cs|]; [|reflexivity]. simpl.
  destruct (iloc cs i); [|reflexivity]. simpl.
  destruct (col_high df) as [hs|]; [|reflexivity]. simpl.
  destruct (iloc hs i); [|reflexivity]. simpl.
  destruct (col_low df) as [ls|]; [|reflexivity]. simpl.
  destruct (iloc ls i); [|reflexivity]. simpl.
  destruct (col_signal df) as [ss|]; [|reflexivity]. discriminate.
Qed.

Lemma bars_raises_missing (cfg : Config) (df : DataFrame) (idxs : list nat) :
  has_engine_columns df = false ->
  reads_any df idxs = true ->
  forall st, raises (bars cfg df idxs st) = true.
Proof.
  intros Hcols. induction idxs as [|i rest IH]; simpl; [discriminate|].
  intros Hex st. rewrite raises_bind.
  destruct (cell (col_atr df) i) as [atr|] eqn:Eatr.
  - destruct (skip_bar atr) eqn:Eskip; simpl in Hex.
    + destruct (bar cfg df i st); [apply IH; exact Hex|reflexivity].
    + pose proof (bar_raises_missing cfg df i atr st Eatr Eskip Hcols) as Hr.
      destruct (bar cfg df i st); [discriminate Hr|reflexivity].
  - simpl in Hex. destruct (bar cfg df i st); [apply IH; exact Hex|reflexivity].
Qed.

(** A run that reads no bar leaves the state as it was, but for the
    equity curve. *)
Lemma bars_all_skipped (cfg : Config) (df : DataFrame) (idxs : list nat) :
  wf_frame df -> col_atr df <> None ->
  Forall (fun i => (i < nrows df)%nat) idxs ->
  reads_any df idxs = false ->
  forall st, exists st',
    bars cfg df idxs st = Ok st' /\
    open_trade st' = open_trade st /\ ledger st' = ledger st.
Proof.
  intros Hwf Na. destruct Hwf as (_ & _ & _ & _ & _ & _ & Ha).
  induction idxs as [|i rest IH]; simpl; intros HI Hex st.
  - exists st. repeat split.
  - inversion HI as [|? ? Hi Hrest]; subst.
    destruct (has_len_cell _ i _ Na Ha Hi) as (atr & Eatr).
    rewrite Eatr in Hex. apply orb_false_iff in Hex. destruct Hex as [Hs Hex].
    apply negb_false_iff in Hs.
    unfold bar at 1. rewrite (cell_getitem_iloc _ _ _ _ _ Eatr), Hs. simpl.
    destruct (IH Hrest Hex (record_equity st)) as (st' & Hb & Ho & Hl).
    exists st'. repeat split; assumption.
Qed.

Lemma getitem_iloc_raise {A B : Type} (name : string) (c : option (list A))
  (i n : nat) (k : A -> result B) (e : exn) :
  has_len n c -> (i < n)%nat ->
  (l <- getitem name c ;; x <- iloc l i ;; k x) = Raise e ->
  e = KeyError name \/ exists x, cell c i = Some x /\ k x = Raise e.
Proof.
  destruct c as [l|]; simpl; intros Hlen Hi H.
  - right. unfold iloc in H. destruct (nth_error l i) as [x|] eqn:E.
    + exists x. split; [reflexivity|exact H].
    + apply nth_error_None in E. lia.
  - left. congruence.
Qed.

Lemma bar_raise_key (cfg : Config) (df : DataFrame) (i : nat) (st : State)
  (e : exn) :
  wf_frame df -> col_atr df <> None -> (i < nrows df)%nat ->
  bar cfg df i st = Raise e -> exists key, e = KeyError key.
Proof.
  intros (Ht & Ho & Hh & Hl & Hc & Hs & Ha) Na Hi. unfold bar. intros H.
  destruct (has_len_cell _ i _ Na Ha Hi) as (atr & Eatr).
  rewrite (cell_getitem_iloc _ _ _ _ _ Eatr) in H.
  destruct (skip_bar atr); [discriminate|].
  apply (getitem_iloc_raise _ _ _ _ _ _ Hc Hi) in H.
  destruct H as [-> | (c & _ & H)]; [eexists; reflexivity|].
  apply (getitem_iloc_raise _ _ _ _ _ _ Hh Hi) in H.
  destruct H as [-> | (h & _ & H)]; [eexists; reflexivity|].
  apply (getitem_iloc_raise _ _ _ _ _ _ Hl Hi) in H.
  destruct H as [-> | (l & _ & H)]; [eexists; reflexivity|].
  apply (getitem_iloc_raise _ _ _ _ _ _ Hs Hi) in H.
  destruct H as [-> | (s & _ & H)]; [eexists; reflexivity|discriminate].
Qed.

Lemma bars_raise_key (cfg : Config) (df : DataFrame) (idxs : list nat)
  (e : exn) :
  wf_frame df -> col_atr df <> None ->
  Forall (fun i => (i < nrows df)%nat) idxs ->
  forall st, bars cfg df idxs st = Raise e -> exists key, e = KeyError key.
Proof.
  intros Hwf Na. induction idxs as [|i rest IH]; simpl; intros HI st H.
  - discriminate.
  - inversion HI as [|? ? Hi Hrest]; subst.
    destruct (bar cfg df i st) as [st1|e1] eqn:E; simpl in H.
    + exact (IH Hrest st1 H).
    + inversion H; subst. exact (bar_raise_key _ _ _ _ _ Hwf Na Hi E).
Qed.

Lemma loop_open_nonempty (cfg : Config) (df : DataFrame) (st : State) :
  bars cfg df (seq 1 (nrows df - 1)) (init_state cfg) = Ok st ->
  open_trade st <> None -> (0 < nrows df)%nat.
Proof.
  intros H Hopen. destruct (nrows df) as [|n]; [|lia].
  simpl in H. inversion H; subst. simpl in Hopen. congruence.
Qed.

Lemma force_close_raise_key (cfg : Config) (df : DataFrame) (st : State)
  (e : exn) :
  wf_frame df -> (open_trade st <> None -> (0 < nrows df)%nat) ->
  force_close cfg df st = Raise e -> exists key, e = KeyError key.
Proof.
  intros (_ & _ & _ & _ & Hc & _) Hopen. unfold force_close.
  destruct (open_trade st) as [t|]; [|discriminate].
  destruct (col_close df) as [cs|]; simpl.
  - unfold iloc_last. destruct (rev cs) as [|x tl] eqn:E; [|discriminate].
    apply (f_equal (@length Q)) in E. rewrite length_rev in E.
    simpl in *. assert (0 < nrows df)%nat by (apply Hopen; discriminate). lia.
  - intros H. inversion H. eexists; reflexivity.
Qed.

(** C7 (amended). On a frame whose present columns have one cell per
    row, [run_backtest] raises exactly when the ATR has to be computed and
    [high], [low] or [close] is missing, or when some bar at index 1 or
    later has a defined nonzero ATR and [close], [high], [low] or [signal]
    is missing; what it raises is a [KeyError].  The empty series with
    these columns is not refused: it returns no trade and the equity
    curve [[initial_capital]].  The columns [time] and [open] are never
    read. *)
Theorem run_backtest_fails_iff (cfg : Config) (df0 : DataFrame) :
  wf_frame df0 ->
  raises (run_backtest cfg df0) = fails df0 /\
  (forall e, run_backtest cfg df0 = Raise e -> exists key, e = KeyError key) /\
  (raises (with_atr df0) = true <->
   col_atr df0 = None /\
   (col_high df0 = None \/ col_low df0 = None \/ col_close df0 = None)) /\
  (nrows df0 = 0%nat -> engine_columns df0 ->
   run_backtest cfg df0
   = Ok (mkResult [] [initial_capital cfg] 0 0 0 0 0)).
Proof.
  intros Hwf.
  cut (raises (run_backtest cfg df0) = fails df0 /\
       (forall e, run_backtest cfg df0 = Raise e ->
                  exists key, e = KeyError key) /\
       (nrows df0 = 0%nat -> engine_columns df0 ->
        run_backtest cfg df0
        = Ok (mkResult [] [initial_capital cfg] 0 0 0 0 0))).
  { intros (H1 & H2 & H3). split; [exact H1|]. split; [exact H2|].
    split; [apply with_atr_raises|exact H3]. }
  unfold fails.
  destruct (with_atr df0) as [df|e0] eqn:E.
  - destruct (with_atr_inv _ _ Hwf E) as (Hwf1 & Na & Hcols).
    pose proof (with_atr_nrows _ _ E) as Hn.
    assert (forall e, run_backtest cfg df0 = Raise e ->
                      exists key, e = KeyError key) as Hkey.
    { unfold run_backtest, simulate. rewrite E. simpl. intros e H.
      destruct (bars cfg df _ _) as [st|e1] eqn:Eb; simpl in H.
      - destruct (force_close cfg df st) as [fin|e2] eqn:Ef; simpl in H.
        + destruct (metrics_total fin) as (r & Hr); [|congruence].
          rewrite (force_close_curve _ _ _ _ Ef).
          destruct (bars_curve _ _ _ _ _ Eb) as (tl & -> & _). discriminate.
        + inversion H; subst.
          apply (force_close_raise_key _ _ _ _ Hwf1
                   (loop_open_nonempty _ _ _ Eb) Ef).
      - inversion H; subst.
        apply (bars_raise_key _ _ _ _ Hwf1 Na (seq_lt (nrows df)) _ Eb). }
    split; [|split; [exact Hkey|]].
    + destruct (has_engine_columns df) eqn:Ec.
      * rewrite andb_false_r. symmetry in Hcols.
        apply has_engine_columns_iff in Hcols.
        destruct (run_backtest_total cfg df0 Hwf Hcols) as (r & ->).
        reflexivity.
      * rewrite andb_true_r. unfold run_backtest, simulate.
        rewrite E. simpl. destruct (reads_a_bar df) eqn:Er.
        -- rewrite !raises_bind.
           pose proof (bars_raises_missing cfg df _ Ec Er (init_state cfg)) as Hb.
           destruct (bars cfg df _ _); [discriminate Hb|reflexivity].
        -- destruct (bars_all_skipped cfg df _ Hwf1 Na (seq_lt (nrows df)) Er
                       (init_state cfg)) as (st & -> & Ho & Hl).
           simpl. unfold force_close. rewrite Ho. simpl.
           unfold metrics. rewrite Hl. reflexivity.
    + intros Hz Hcol. unfold run_backtest, simulate. rewrite E. simpl.
      rewrite Hn, Hz. reflexivity.
  - split; [|split].
    + unfold run_backtest, simulate. rewrite E. reflexivity.
    + unfold run_backtest, simulate. rewrite E. simpl. intros e H.
      inversion H; subst. unfold with_atr, _compute_atr in E.
      destruct (col_atr df0); [discriminate|].
      destruct (col_high df0); simpl in E;
        [|inversion E; eexists; reflexivity].
      destruct (col_low df0); simpl in E;
        [|inversion E; eexists; reflexivity].
      destruct (col_close df0); simpl in E;
        [discriminate|inversion E; eexists; reflexivity].
    + intros _ Hcol. apply has_engine_columns_iff in Hcol.
      destruct (with_atr_total df0 Hwf (proj1 (has_engine_columns_iff _) Hcol))
        as (df & E' & _). congruence.
Qed.

Lemma run_backtest_fails_iff_witness :
  (raises (run_backtest default_config unsignalled_frame)
   = fails unsignalled_frame /\
   (forall e,
       run_backtest default_config unsignalled_frame = Raise e ->
       exists key, e = KeyError key) /\
   (raises (with_atr unsignalled_frame) = true <->
    col_atr unsignalled_frame = None /\
    (col_high unsignalled_frame = None \/ col_low unsignalled_frame = None \/
     col_close unsignalled_frame = None)) /\
   (nrows unsignalled_frame = 0%nat -> engine_columns unsignalled_frame ->
    run_backtest default_config unsignalled_frame
    = Ok (mkResult [] [initial_capital default_config] 0 0 0 0 0))) /\
  fails unsignalled_frame = true /\
  run_backtest default_config unsignalled_frame = Raise (KeyError "signal").
Proof.
  split; [|split; reflexivity].
  apply (run_backtest_fails_iff default_config unsignalled_frame).
  repeat split; simpl; congruence.
Defined.

(** C7 as stated fails: the empty series, and a series with neither
    [time] nor [open], both come back with a normal result. *)
Lemma empty_series_returns_normally :
  nrows empty_frame = 0%nat /\
  run_backtest default_config empty_frame
  = Ok (mkResult [] [10000] 0 0 0 0 0) /\
  col_time bare_frame = None /\ col_open bare_frame = None /\
  raises (run_backtest default_config bare_frame) = false.
Proof. repeat split. Qed.

End EngineProofs.

(** ** set_parameters *)

Module ParamProofs.
Import Base MeanReversion VolatilityContraction.

Section Loop.

Context {S : Type} `{Strategy S}.
Variable convert : param -> pyval -> result param.
Variable current : list (string * param).

(** The loop over a concatenation runs the second part from where the
    first part stopped, and not at all when the first part raised. *)
Lemma assign_all_app (pre post : list (string * pyval)) (self : S) :
  assign_all convert current (pre ++ post) self
  = match assign_all convert current pre self with
    | (self', None) => assign_all convert current post self'
    | (self', Some e) => (self', Some e)
    end.
Proof.
  revert self. induction pre as [|[key value] pre IH]; intros self; simpl.
  - reflexivity.
  - destruct (lookup key current) as [cur|]; [|apply IH].
    destruct (hasattr self key); [|apply IH].
    destruct (convert cur value); [apply IH|reflexivity].
Qed.

(** Every parameter name is an attribute of the object, whatever has
    been assigned. *)
Hypothesis known_is_attribute :
  forall (self : S) key cur,
    lookup key current = Some cur -> hasattr self key = true.

Lemma assign_all_stops (pre post : list (string * pyval)) (self self' : S)
  (key : string) (value : pyval) (cur : param) (e : exn) :
  assign_all convert current pre self = (self', None) ->
  lookup key current = Some cur ->
  convert cur value = Raise e ->
  assign_all convert current (pre ++ (key, value) :: post) self
  = (self', Some e).
Proof.
  intros Hpre Hcur Hconv. rewrite assign_all_app, Hpre. simpl.
  rewrite Hcur, (known_is_attribute self' key cur Hcur), Hconv. reflexivity.
Qed.

Lemma assign_all_raises (items : list (string * pyval)) :
  (exists key value cur,
      In (key, value) items /\ lookup key current = Some cur /\
      raises (convert cur value) = true) ->
  forall self, exists e, snd (assign_all convert current items self) = Some e.
Proof.
  intros (key & value & cur & Hin & Hcur & Hr).
  induction items as [|[k v] rest IH]; [destruct Hin|].
  intros self. simpl.
  destruct (lookup k current) as [c|] eqn:Ek.
  - rewrite (known_is_attribute self k c Ek).
    destruct (convert c v) as [a|e] eqn:Ec; [|exists e; reflexivity].
    destruct Hin as [Heq | Hin]; [|apply IH; exact Hin].
    inversion Heq; subst. assert (c = cur) by congruence. subst c.
    rewrite Ec in Hr. discriminate.
  - destruct Hin as [Heq | Hin]; [|apply IH; exact Hin].
    inversion Heq; subst. congruence.
Qed.

(** A mapping that holds a known key with a value that cannot be
    converted splits at the first such key: the keys before it are
    handled without error, and the call stops there with the error of
    that conversion. *)
Lemma assign_all_first_failure (items : list (string * pyval)) :
  (exists key value cur,
      In (key, value) items /\ lookup key current = Some cur /\
      raises (convert cur value) = true) ->
  forall self,
  exists pre key value post cur e self',
    items = pre ++ (key, value) :: post /\
    assign_all convert current pre self = (self', None) /\
    lookup key current = Some cur /\
    convert cur value = Raise e /\
    assign_all convert current items self = (self', Some e).
Proof.
  intros (key & value & cur & Hin & Hcur & Hr).
  induction items as [|[k v] rest IH]; [destruct Hin|].
  intros self.
  destruct (lookup k current) as [c|] eqn:Ek.
  - pose proof (known_is_attribute self k c Ek) as Hattr.
    destruct (convert c v) as [a|e] eqn:Ec.
    + assert (In (key, value) rest) as Hrest.
      { destruct Hin as [Heq | Hin]; [|exact Hin].
        inversion Heq; subst. assert (c = cur) by congruence. subst c.
        rewrite Ec in Hr. discriminate. }
      destruct (IH Hrest (setattr self k a))
        as (pre & key' & value' & post & cur' & e & self' & -> & Hpre & Hc'
            & Hconv & Hall).
      exists ((k, v) :: pre), key', value', post, cur', e, self'.
      split; [reflexivity|]. cbn [assign_all app].
      rewrite Ek, Hattr, Ec. repeat split; assumption.
    + exists [], k, v, rest, c, e, self.
      split; [reflexivity|]. split; [reflexivity|]. split; [exact Ek|].
      split; [exact Ec|]. cbn [assign_all]. rewrite Ek, Hattr, Ec. reflexivity.
  - assert (In (key, value) rest) as Hrest.
    { destruct Hin as [Heq | Hin]; [|exact Hin].
      inversion Heq; subst. congruence. }
    destruct (IH Hrest self)
      as (pre & key' & value' & post & cur' & e & self' & -> & Hpre & Hc'
          & Hconv & Hall).
    exists ((k, v) :: pre), key', value', post, cur', e, self'.
    split; [reflexivity|]. cbn [assign_all app].
    rewrite Ek. repeat split; assumption.
Qed.

End Loop.

Lemma lookup_in (key : string) (d : list (string * param)) (cur : param) :
  lookup key d = Some cur -> In key (map fst d).
Proof.
  induction d as [|[k v] tl IH]; simpl; [discriminate|].
  destruct (String.eqb k key) eqn:E.
  - apply String.eqb_eq in E. auto.
  - intros H. right. exact (IH H).
Qed.

Lemma mr_known_is_attribute (self0 self : MeanReversionStrategy)
  (key : string) (cur : param) :
  lookup key (get_parameters self0) = Some cur -> hasattr self key = true.
Proof.
  intros H. apply lookup_in in H.
  change (In key MeanReversion.names) in H.
  change (existsb (String.eqb key) MeanReversion.names = true).
  apply existsb_exists. exists key. split; [exact H|apply String.eqb_refl].
Qed.

Lemma vc_known_is_attribute (self0 self : VolatilityContractionStrategy)
  (key : string) (cur : param) :
  lookup key (get_parameters self0) = Some cur -> hasattr self key = true.
Proof.
  intros H. apply lookup_in in H.
  change (In key VolatilityContraction.names) in H.
  change (existsb (String.eqb key) VolatilityContraction.names = true).
  apply existsb_exists. exists key. split; [exact H|apply String.eqb_refl].
Qed.

(** C4 (amended). For both strategies and a request whose string values
    are plain text, [set_parameters] assigns the keys in the order of the
    mapping.  When the keys before some known key have all been handled
    without error and the value of that key cannot be coerced, the call
    raises the error of that coercion and leaves the object as the
    earlier keys alone leave it, the later keys not applied.  A mapping
    that holds a known key with a value that cannot be coerced always
    makes the call raise in this way, at the first such key. *)
Theorem failed_update_keeps_earlier_assignments :
  (forall (self self' : VolatilityContractionStrategy) pre key value post cur e,
      plain_request (pre ++ (key, value) :: post) ->
      Base.set_parameters self pre = (self', None) ->
      lookup key (get_parameters self) = Some cur ->
      coerce cur value = Raise e ->
      Base.set_parameters self (pre ++ (key, value) :: post)
      = (self', Some e)) /\
  (forall (self self' : MeanReversionStrategy) pre key value post cur e,
      plain_request (pre ++ (key, value) :: post) ->
      MeanReversion.set_parameters self pre = (self', None) ->
      lookup key (get_parameters self) = Some cur ->
      MeanReversion.convert cur value = Raise e ->
      MeanReversion.set_parameters self (pre ++ (key, value) :: post)
      = (self', Some e)) /\
  (forall (self : VolatilityContractionStrategy) params,
      plain_request params ->
      (exists key value cur,
          In (key, value) params /\
          lookup key (get_parameters self) = Some cur /\
          raises (coerce cur value) = true) ->
      exists pre key value post cur e self',
        params = pre ++ (key, value) :: post /\
        Base.set_parameters self pre = (self', None) /\
        lookup key (get_parameters self) = Some cur /\
        coerce cur value = Raise e /\
        Base.set_parameters self params = (self', Some e)) /\
  (forall (self : MeanReversionStrategy) params,
      plain_request params ->
      (exists key value cur,
          In (key, value) params /\
          lookup key (get_parameters self) = Some cur /\
          raises (MeanReversion.convert cur value) = true) ->
      exists pre key value post cur e self',
        params = pre ++ (key, value) :: post /\
        MeanReversion.set_parameters self pre = (self', None) /\
        lookup key (get_parameters self) = Some cur /\
        MeanReversion.convert cur value = Raise e /\
        MeanReversion.set_parameters self params = (self', Some e)).
Proof.
  repeat split.
  - intros self self' pre key value post cur e _.
    apply assign_all_stops. intros s. apply vc_known_is_attribute.
  - intros self self' pre key value post cur e _.
    apply assign_all_stops. intros s. apply mr_known_is_attribute.
  - intros self params _ Hex.
    apply (assign_all_first_failure coerce (get_parameters self)); [|exact Hex].
    intros s. apply vc_known_is_attribute.
  - intros self params _ Hex.
    apply (assign_all_first_failure MeanReversion.convert (get_parameters self));
      [|exact Hex].
    intros s. apply mr_known_is_attribute.
Qed.

Lemma failed_update_keeps_earlier_assignments_witness :
  MeanReversion.set_parameters MeanReversion.init
    ([("rsi_period", VStr "5")] ++ ("rsi_oversold", VStr "abc") :: [])
  = (mr_setattr MeanReversion.init "rsi_period" (PInt 5), Some ValueError).
Proof.
  apply (proj1 (proj2 failed_update_keeps_earlier_assignments)
           MeanReversion.init
           (mr_setattr MeanReversion.init "rsi_period" (PInt 5))
           [("rsi_period", VStr "5")] "rsi_oversold" (VStr "abc") []
           (PInt 30) ValueError);
    [repeat constructor; cbn; lia|..]; reflexivity.
Defined.

(** C4 as stated fails: the update [bad_update] raises at its second key
    after its first has been assigned, so [rsi_period] is 5 and no longer
    14; with the two keys in the other order nothing is assigned. *)
Lemma failed_update_is_partly_applied :
  snd (MeanReversion.set_parameters MeanReversion.init bad_update)
  = Some ValueError /\
  fst (MeanReversion.set_parameters MeanReversion.init bad_update)
  <> MeanReversion.init /\
  rsi_period (fst (MeanReversion.set_parameters MeanReversion.init bad_update))
  = PInt 5 /\
  rsi_period MeanReversion.init = PInt 14 /\
  MeanReversion.set_parameters MeanReversion.init (rev bad_update)
  = (MeanReversion.init, Some ValueError).
Proof.
  repeat split. intros H. apply (f_equal rsi_period) in H. discriminate H.
Qed.

End ParamProofs.

(** ** The signal loop of the volatility-contraction strategy *)

Module SignalProofs.
Import VolatilityContraction.

Lemma length_set_at (i : nat) (v : Z) (l : list Z) :
  length (set_at i v l) = length l.
Proof.
  revert i. induction l as [|x tl IH]; intros [|j]; simpl; try reflexivity.
  f_equal. apply IH.
Qed.

Lemma nth_set_at_eq (i : nat) (v : Z) (l : list Z) :
  (i < length l)%nat -> nth i (set_at i v l) 0%Z = v.
Proof.
  revert i. induction l as [|x tl IH]; intros [|j]; simpl; intros H;
    try lia; try reflexivity.
  apply IH. lia.
Qed.

Lemma nth_set_at_neq (i j : nat) (v : Z) (l : list Z) :
  i <> j -> nth i (set_at j v l) 0%Z = nth i l 0%Z.
Proof.
  revert i j. induction l as [|x tl IH]; intros [|i] [|j] H; simpl;
    try reflexivity; try congruence.
  apply IH. congruence.
Qed.

Lemma breakout_cases (r : Row) :
  (breakout r = 1%Z /\ gt_cell (close r) (bb_upper r) = true) \/
  (breakout r = (-1)%Z /\ gt_cell (close r) (bb_upper r) = false /\
   lt_cell (close r) (bb_lower r) = true) \/
  (breakout r = 0%Z /\ gt_cell (close r) (bb_upper r) = false /\
   lt_cell (close r) (bb_lower r) = false).
Proof.
  unfold breakout. destruct (gt_cell (close r) (bb_upper r)); [auto|].
  destruct (lt_cell (close r) (bb_lower r)); auto.
Qed.

(** One iteration, in terms of the flag at its test and what it fires. *)
Lemma signal_step_spec (rows : list Row) (flag : bool) (sig : list Z) (i : nat) :
  let prev := nth (i - 1) rows nan_row in
  let a := (squeeze prev =? 1)%Z || flag in
  let v := fire_with a (nth i rows nan_row) in
  signal_step rows (flag, sig) i
  = (a && (v =? 0)%Z, if (v =? 0)%Z then sig else set_at i v sig).
Proof.
  unfold signal_step, fire_with. cbn [fst snd].
  destruct (squeeze (nth (i - 1) rows nan_row) =? 1)%Z; cbn [orb];
    [|destruct flag]; cbn [andb];
    try (destruct (squeeze (nth i rows nan_row) =? 0)%Z; cbn [andb];
         [|reflexivity];
         destruct (breakout_cases (nth i rows nan_row))
           as [[-> ->] | [(-> & -> & ->) | (-> & -> & ->)]]; reflexivity).
  reflexivity.
Qed.

(** The state after the iterations 1..m. *)
Lemma loop_prefix (rows : list Row) (m : nat) :
  (m <= length rows - 1)%nat ->
  let st := fold_left (signal_step rows) (seq 1 m)
                      (false, repeat 0%Z (length rows)) in
  length (snd st) = length rows /\
  (forall i, (i <= m)%nat -> nth i (snd st) 0%Z = fire rows i) /\
  (forall i, (m < i)%nat -> nth i (snd st) 0%Z = 0%Z) /\
  fst st = armed rows m && (fire rows m =? 0)%Z.
Proof.
  induction m as [|m IH]; intros Hm; cbv zeta.
  - simpl. rewrite repeat_length. repeat split.
    + intros i Hi. assert (i = 0)%nat by lia. subst i.
      rewrite nth_repeat. reflexivity.
    + intros i _. apply nth_repeat.
  - rewrite seq_S, fold_left_app. cbn [fold_left].
    destruct (fold_left (signal_step rows) (seq 1 m)
                (false, repeat 0%Z (length rows))) as [flag sig] eqn:E.
    destruct IH as (Hlen & Hle & Hgt & Hflag); [lia|]. cbn [fst snd] in *.
    replace (1 + m)%nat with (S m) by lia.
    rewrite signal_step_spec. cbv zeta. cbn [fst snd].
    replace (S m - 1)%nat with m by lia.
    assert ((squeeze (nth m rows nan_row) =? 1)%Z || flag = armed rows (S m))
      as Ha.
    { cbn [armed]. rewrite Hflag. reflexivity. }
    rewrite Ha. fold (fire rows (S m)).
    destruct (fire rows (S m) =? 0)%Z eqn:Ef.
    + apply Z.eqb_eq in Ef. repeat split.
      * exact Hlen.
      * intros i Hi. destruct (Nat.eq_dec i (S m)) as [->|Hne].
        -- rewrite Ef. apply Hgt. lia.
        -- apply Hle. lia.
      * intros i Hi. apply Hgt. lia.
    + repeat split.
      * rewrite length_set_at. exact Hlen.
      * intros i Hi. destruct (Nat.eq_dec i (S m)) as [->|Hne].
        -- apply nth_set_at_eq. lia.
        -- rewrite nth_set_at_neq by exact Hne. apply Hle. lia.
      * intros i Hi. rewrite nth_set_at_neq by lia. apply Hgt. lia.
Qed.

(** The returned column, bar by bar. *)
Lemma generate_signals_nth (rows : list Row) (i : nat) :
  nth i (generate_signals rows) 0%Z
  = if (i <? length rows)%nat then fire rows i else 0%Z.
Proof.
  unfold generate_signals.
  destruct (loop_prefix rows (length rows - 1) (Nat.le_refl _))
    as (Hlen & Hle & Hgt & _).
  destruct (i <? length rows)%nat eqn:E.
  - apply Nat.ltb_lt in E. apply Hle. lia.
  - apply Nat.ltb_ge in E. apply nth_overflow. rewrite Hlen. exact E.
Qed.

Lemma armed_iff (rows : list Row) (i : nat) :
  armed rows i = true <->
  exists j, (j < i)%nat /\ squeeze (nth j rows nan_row) = 1%Z /\
            forall k, (j < k < i)%nat -> fire rows k = 0%Z.
Proof.
  induction i as [|i IH].
  - simpl. split; [discriminate|]. intros (j & Hj & _). lia.
  - cbn [armed]. fold (fire rows i).
    rewrite orb_true_iff, andb_true_iff, Z.eqb_eq, Z.eqb_eq, IH. split.
    + intros [Hsq | [(j & Hj & Hsq & Hk) Hf]].
      * exists i. repeat split; [lia|exact Hsq|]. intros k Hk. lia.
      * exists j. repeat split; [lia|exact Hsq|].
        intros k Hjk. destruct (Nat.eq_dec k i) as [->|Hne]; [exact Hf|].
        apply Hk. lia.
    + intros (j & Hj & Hsq & Hk).
      destruct (Nat.eq_dec j i) as [->|Hne]; [left; exact Hsq|].
      right. split; [|apply Hk; lia].
      exists j. repeat split; [lia|exact Hsq|]. intros k Hjk. apply Hk. lia.
Qed.

Lemma fire_nonzero_iff (rows : list Row) (i : nat) :
  fire rows i <> 0%Z <->
  armed rows i = true /\ squeeze (nth i rows nan_row) = 0%Z /\
  breakout (nth i rows nan_row) <> 0%Z.
Proof.
  unfold fire, fire_with.
  destruct (armed rows i); cbn [andb].
  - destruct (squeeze (nth i rows nan_row) =? 0)%Z eqn:E.
    + apply Z.eqb_eq in E. tauto.
    + apply Z.eqb_neq in E. tauto.
  - split; [congruence|]. intros [H _]. discriminate.
Qed.

Lemma fire_value (rows : list Row) (i : nat) :
  fire rows i <> 0%Z -> fire rows i = breakout (nth i rows nan_row).
Proof.
  unfold fire, fire_with.
  destruct (armed rows i && (squeeze (nth i rows nan_row) =? 0)%Z);
    congruence.
Qed.

(** C1 (the code as written). The column returned by [generate_signals]
    is nonzero at bar [i] exactly when [i >= 1], the squeeze flag is 0 at
    [i], the close at [i] is beyond a band, and some earlier bar [j] had
    the flag at 1 with no signal at the bars strictly between [j] and
    [i].  The value is then the direction of the breakout: 1 when the
    close is over the upper band, -1 when it is not and is under the
    lower band.  A release bar without breakout therefore does not use up
    the squeeze: the flag [in_squeeze] is reset only where a signal is
    written, so it stays set over a quiet release, against the comments
    of lines 80 and 87, which place the signal on the bar right after the
    squeeze. *)
Theorem signal_fires_iff (rows : list Row) (i : nat) :
  let signal := generate_signals rows in
  let bar := nth i rows nan_row in
  (nth i signal 0%Z <> 0%Z <->
   (1 <= i < length rows)%nat /\
   squeeze bar = 0%Z /\ breakout bar <> 0%Z /\
   exists j, (j < i)%nat /\ squeeze (nth j rows nan_row) = 1%Z /\
             forall k, (j < k < i)%nat -> nth k signal 0%Z = 0%Z) /\
  (nth i signal 0%Z <> 0%Z -> nth i signal 0%Z = breakout bar) /\
  (breakout bar = 1%Z <-> gt_cell (close bar) (bb_upper bar) = true) /\
  (breakout bar = (-1)%Z <->
   gt_cell (close bar) (bb_upper bar) = false /\
   lt_cell (close bar) (bb_lower bar) = true).
Proof.
  cbv zeta. split; [|split; [|split]].
  - rewrite generate_signals_nth.
    destruct (i <? length rows)%nat eqn:E.
    + apply Nat.ltb_lt in E. rewrite fire_nonzero_iff, armed_iff. split.
      * intros ((j & Hj & Hsq & Hk) & Hs & Hb).
        repeat split; try assumption; try lia.
        exists j. repeat split; try assumption.
        intros k Hjk. rewrite generate_signals_nth.
        replace (k <? length rows)%nat with true
          by (symmetry; apply Nat.ltb_lt; lia).
        apply Hk. exact Hjk.
      * intros (_ & Hs & Hb & (j & Hj & Hsq & Hk)).
        repeat split; try assumption.
        exists j. repeat split; try assumption.
        intros k Hjk. specialize (Hk k Hjk).
        rewrite generate_signals_nth in Hk.
        replace (k <? length rows)%nat with true in Hk
          by (symmetry; apply Nat.ltb_lt; lia).
        exact Hk.
    + apply Nat.ltb_ge in E. split; [congruence|]. intros (Hi & _). lia.
  - rewrite generate_signals_nth.
    destruct (i <? length rows)%nat; [apply fire_value|congruence].
  - destruct (breakout_cases (nth i rows nan_row))
      as [[Hb Hg] | [(Hb & Hg & Hl) | (Hb & Hg & Hl)]];
      rewrite Hb, Hg; split; congruence.
  - destruct (breakout_cases (nth i rows nan_row))
      as [[Hb Hg] | [(Hb & Hg & Hl) | (Hb & Hg & Hl)]];
      rewrite Hb, Hg, ?Hl; split; try congruence; try tauto;
      intros [H1 H2]; congruence.
Qed.

(** The code departs from C1 and from its own comment of line 87 (a
    signal on the bar where the squeeze has just been released): in
    [late_breakout] the squeeze ends at bar 4 with the close inside the
    bands, and the BUY fires at bar 5, where the flag goes from 0 to 0
    and no new squeeze has begun. *)
Lemma signal_after_quiet_release :
  generate_signals late_breakout = [0; 0; 0; 0; 0; 1]%Z /\
  map squeeze late_breakout = [0; 0; 0; 1; 0; 0]%Z /\
  breakout (nth 4 late_breakout nan_row) = 0%Z /\
  squeeze (nth 4 late_breakout nan_row) = 0%Z /\
  squeeze (nth 5 late_breakout nan_row) = 0%Z /\
  nth 5 (generate_signals late_breakout) 0%Z = 1%Z.
Proof. repeat split. Qed.

End SignalProofs.

(** ** The backtest engine: further properties *)

Module EngineExtraProofs.
Import Engine EngineProofs EngineExtra.

(** *** A series without signals *)

Lemma bars_without_signal (cfg : Config) (df : DataFrame) :
  wf_frame df -> engine_columns df -> col_atr df <> None ->
  forall idxs st,
    Forall (fun i => (i < nrows df)%nat /\
                     cell (col_signal df) i = Some 0%Z) idxs ->
    open_trade st = None ->
    bars cfg df idxs st
    = Ok (mkState (capital st)
                  (curve st ++ repeat (capital st) (length idxs))
                  (ledger st) None).
Proof.
  intros (Ht & Ho & Hh & Hl & Hc & Hs & Ha) (Nh & Nl & Nc & Ns) Na.
  induction idxs as [|i rest IH]; intros st HI Hopen.
  - simpl. rewrite app_nil_r. destruct st; simpl in *. subst. reflexivity.
  - inversion HI as [|? ? [Hi Hsig] Hrest]; subst.
    assert (bar cfg df i st = Ok (record_equity st)) as Hbar.
    { unfold bar.
      destruct (has_len_cell _ i _ Na Ha Hi) as (atr & Eatr).
      rewrite (cell_getitem_iloc _ _ _ _ _ Eatr).
      destruct (skip_bar atr); [reflexivity|].
      destruct (has_len_cell _ i _ Nc Hc Hi) as (c & Ec).
      rewrite (cell_getitem_iloc _ _ _ _ _ Ec).
      destruct (has_len_cell _ i _ Nh Hh Hi) as (h & Eh).
      rewrite (cell_getitem_iloc _ _ _ _ _ Eh).
      destruct (has_len_cell _ i _ Nl Hl Hi) as (l & El).
      rewrite (cell_getitem_iloc _ _ _ _ _ El).
      rewrite (cell_getitem_iloc _ _ _ _ _ Hsig).
      unfold exit_step, entry_step. rewrite Hopen. simpl. rewrite Hopen.
      reflexivity. }
    cbn [bars]. rewrite Hbar. cbn [bind].
    rewrite (IH (record_equity st) Hrest Hopen). simpl.
    rewrite <- app_assoc. reflexivity.
Qed.

(** X1 (run_backtest). On a frame with all its columns whose signal is 0 on
    every bar from bar 1 on, the backtest returns normally with an empty
    ledger, an equity curve that holds the initial capital at every entry
    (one entry per bar, and one for an empty frame), and every metric
    at 0. *)
Theorem no_signal_no_trade (cfg : Config) (df : DataFrame) :
  wf_frame df -> engine_columns df ->
  (forall i, (1 <= i < nrows df)%nat -> cell (col_signal df) i = Some 0%Z) ->
  run_backtest cfg df
  = Ok (mkResult [] (repeat (initial_capital cfg) (Nat.max 1 (nrows df)))
                 0 0 0 0 0).
Proof.
  intros Hwf Hcols Hsig.
  destruct (with_atr_total df Hwf Hcols) as (df1 & E1 & Hwf1 & Hcols1 & Na).
  pose proof (with_atr_nrows _ _ E1) as Hn.
  assert (col_signal df1 = col_signal df) as Hscol.
  { unfold with_atr in E1. destruct (col_atr df).
    - inversion E1. reflexivity.
    - destruct (_compute_atr df 14); simpl in E1; inversion E1. reflexivity. }
  unfold run_backtest, simulate. rewrite E1. cbn [bind].
  rewrite (bars_without_signal cfg df1 Hwf1 Hcols1 Na _ (init_state cfg)).
  - cbn [bind force_close open_trade metrics ledger curve capital init_state].
    rewrite length_seq, Hn. f_equal. f_equal.
    destruct (nrows df) as [|n]; [reflexivity|].
    simpl. rewrite Nat.sub_0_r. destruct n; reflexivity.
  - apply Forall_forall. intros i Hi. apply in_seq in Hi.
    split; [lia|]. rewrite Hscol. apply Hsig. lia.
  - reflexivity.
Qed.

Lemma no_signal_no_trade_witness :
  run_backtest default_config quiet_frame
  = Ok (mkResult [] (repeat (initial_capital default_config)
                            (Nat.max 1 (nrows quiet_frame))) 0 0 0 0 0).
Proof.
  apply (no_signal_no_trade default_config quiet_frame).
  - repeat split; simpl; congruence.
  - repeat split; simpl; congruence.
  - intros i Hi. simpl in Hi.
    assert (i = 1 \/ i = 2 \/ i = 3)%nat as [-> | [-> | ->]] by lia;
      reflexivity.
Defined.

(** *** The loop bar by bar *)

(** A property of the state before each bar, carried from bar to bar. *)
Lemma bars_seq_invariant (cfg : Config) (df : DataFrame)
  (P : nat -> State -> Prop) :
  (forall i st st', P i st -> bar cfg df i st = Ok st' -> P (S i) st') ->
  forall n a st st',
    P a st -> bars cfg df (seq a n) st = Ok st' -> P (a + n)%nat st'.
Proof.
  intros Hstep. induction n as [|n IH]; intros a st st' HP H; simpl in H.
  - inversion H; subst. rewrite Nat.add_0_r. exact HP.
  - destruct (bar cfg df a st) as [st1|] eqn:E; simpl in H; [|discriminate].
    replace (a + S n)%nat with (S a + n)%nat by lia.
    apply (IH (S a) st1 st'); [|exact H]. exact (Hstep a st st1 HP E).
Qed.

Lemma chronological_snoc {A : Type} (entry exit : A -> Z) (l : list A) (t : A) :
  chronological entry exit l ->
  Forall (fun u => (exit u <= entry t)%Z) l ->
  (entry t <= exit t)%Z ->
  chronological entry exit (l ++ [t]).
Proof.
  induction l as [|u l IH]; simpl; intros Hc Hall Ht.
  - repeat split; [exact Ht|constructor].
  - destruct Hc as (Hu & Hrest & Hc).
    inversion Hall as [|? ? Hut Hall']; subst.
    repeat split; [exact Hu| |apply IH; assumption].
    apply Forall_app. split; [exact Hrest|]. constructor; [exact Hut|constructor].
Qed.

Lemma chronological_map {A B : Type} (f : A -> B) (entry exit : B -> Z)
  (l : list A) :
  chronological entry exit (map f l)
  <-> chronological (fun a => entry (f a)) (fun a => exit (f a)) l.
Proof.
  induction l as [|a l IH]; simpl; [tauto|].
  rewrite IH, Forall_map. tauto.
Qed.

Lemma on_time_next (i : nat) (st : State) :
  on_time i st -> on_time (S i) (record_equity st).
Proof.
  intros (Hc & Hex & Hopen). split; [exact Hc|]. split.
  - eapply Forall_impl; [|exact Hex]. simpl. intros t Ht. lia.
  - intros t Ht. destruct (Hopen t Ht) as [Hlt Hall]. split; [lia|exact Hall].
Qed.

Lemma exit_step_on_time (cfg : Config) (i : nat) (high low : Q) (st : State) :
  on_time i st ->
  chronological entry_idx exit_idx (ledger (exit_step cfg i high low st)) /\
  Forall (fun t => (exit_idx t <= Z.of_nat i)%Z)
         (ledger (exit_step cfg i high low st)) /\
  (forall t, open_trade (exit_step cfg i high low st) = Some t ->
             (entry_idx t < Z.of_nat i)%Z /\
             Forall (fun u => (exit_idx u <= entry_idx t)%Z)
                    (ledger (exit_step cfg i high low st))).
Proof.
  intros (Hc & Hex & Hopen).
  destruct (exit_step_cases cfg i high low st)
    as [[-> _] | (t & k & p & Ht & _ & ->)].
  - split; [exact Hc|]. split; [|exact Hopen].
    eapply Forall_impl; [|exact Hex]. simpl. intros t Ht. lia.
  - destruct (Hopen t Ht) as [Hlt Hall]. cbn [ledger open_trade].
    split; [|split; [|discriminate]].
    + apply chronological_snoc; [exact Hc|exact Hall|simpl; lia].
    + apply Forall_app. split.
      * eapply Forall_impl; [|exact Hex]. simpl. intros u Hu. lia.
      * constructor; [simpl; lia|constructor].
Qed.

Lemma open_position_entry_idx (cfg : Config) (i : nat) (atr close : Q)
  (signal : Z) :
  entry_idx (open_position cfg i atr close signal) = Z.of_nat i.
Proof. unfold open_position. destruct (signal =? 1)%Z; reflexivity. Qed.

Lemma bar_on_time (cfg : Config) (df : DataFrame) (i : nat) (st st' : State) :
  on_time i st -> bar cfg df i st = Ok st' -> on_time (S i) st'.
Proof.
  intros Hst H. apply bar_inv in H.
  destruct H as (atr & _ & [[_ ->] | (_ & c & h & l & s & _ & _ & _ & _ & ->)]).
  { apply on_time_next. exact Hst. }
  unfold processed.
  destruct (exit_step_on_time cfg i h l st Hst) as (Hc1 & Hex1 & Hopen1).
  destruct (entry_step_cases cfg i (number atr) c s (exit_step cfg i h l st))
    as [-> | (Hnone & _ & ->)].
  - split; [exact Hc1|]. split.
    + eapply Forall_impl; [|exact Hex1]. simpl. intros t Ht. lia.
    + intros t Ht. destruct (Hopen1 t Ht) as [Hlt Hall].
      split; [lia|exact Hall].
  - split; [exact Hc1|]. split.
    + eapply Forall_impl; [|exact Hex1]. simpl. intros t Ht. lia.
    + cbn [record_equity ledger open_trade]. intros t Ht.
      inversion Ht; subst. rewrite open_position_entry_idx.
      split; [lia|exact Hex1].
Qed.

Lemma loop_on_time (cfg : Config) (df : DataFrame) (st : State) :
  bars cfg df (seq 1 (nrows df - 1)) (init_state cfg) = Ok st ->
  on_time (Nat.max 1 (nrows df)) st /\
  Forall (fun t => (exit_idx t < Z.of_nat (nrows df))%Z) (ledger st).
Proof.
  intros Hloop.
  assert (on_time (1 + (nrows df - 1)) st) as Hon.
  { apply (bars_seq_invariant cfg df on_time (bar_on_time cfg df)
             _ _ (init_state cfg)); [|exact Hloop].
    split; [exact I|]. split; [constructor|discriminate]. }
  replace (1 + (nrows df - 1))%nat with (Nat.max 1 (nrows df)) in Hon by lia.
  split; [exact Hon|].
  destruct (nrows df) as [|n] eqn:En.
  - simpl in Hloop. inversion Hloop; subst. constructor.
  - destruct Hon as (_ & Hex & _).
    eapply Forall_impl; [|exact Hex]. simpl. intros t Ht. lia.
Qed.

Lemma simulate_on_time (cfg : Config) (df : DataFrame) (fin : State) :
  simulate cfg df = Ok fin ->
  chronological entry_idx exit_idx (ledger fin) /\
  Forall (fun t => (exit_idx t < Z.of_nat (nrows df))%Z) (ledger fin).
Proof.
  intros Hsim.
  destruct (simulate_inv _ _ _ Hsim) as (df1 & st & Hdf & Hloop & _ & Hfin).
  pose proof (with_atr_nrows _ _ Hdf) as Hn.
  pose proof (loop_open_nonempty _ _ _ Hloop) as Hpos.
  destruct (loop_on_time _ _ _ Hloop) as [(Hc & _ & Hopen) Hex].
  rewrite Hn in Hex.
  destruct (open_trade st) as [t|].
  - destruct Hfin as (cs & lc & _ & _ & Hl & _).
    destruct (Hopen t eq_refl) as [Hlt Hall].
    assert (0 < nrows df1)%nat by (apply Hpos; discriminate).
    rewrite Hl. split.
    + apply chronological_snoc; [exact Hc|exact Hall|simpl; lia].
    + apply Forall_app. split; [exact Hex|].
      constructor; [simpl; lia|constructor].
  - subst fin. split; [exact Hc|exact Hex].
Qed.

(** X2 (run_backtest). The ledger is in the order of time: every trade
    exits no earlier than it entered, the next trade enters no earlier
    than the one before it exited, and every exit is at a bar of the
    frame. *)
Theorem ledger_in_order_of_time (cfg : Config) (df : DataFrame)
  (r : BacktestResult) :
  run_backtest cfg df = Ok r ->
  chronological row_entry_idx row_exit_idx (trades r) /\
  Forall (fun row => (row_exit_idx row < Z.of_nat (nrows df))%Z) (trades r).
Proof.
  intros Hr.
  destruct (run_backtest_inv _ _ _ Hr) as (fin & Hsim & _ & Htr & _).
  destruct (simulate_on_time _ _ _ Hsim) as [Hc Hex].
  rewrite Htr. split.
  - apply chronological_map. exact Hc.
  - apply Forall_map. exact Hex.
Qed.

Lemma ledger_in_order_of_time_witness :
  chronological row_entry_idx row_exit_idx (trades demo_result) /\
  Forall (fun row => (row_exit_idx row < Z.of_nat (nrows demo_frame))%Z)
         (trades demo_result).
Proof.
  apply (ledger_in_order_of_time default_config demo_frame demo_result).
  vm_compute. reflexivity.
Defined.

(** *** The steps of the equity curve *)

Lemma nth_app_last (l : list Q) (x : Q) : nth (length l) (l ++ [x]) 0 = x.
Proof. rewrite app_nth2 by lia. rewrite Nat.sub_diag. reflexivity. Qed.

Lemma stepwise_next (i : nat) (st : State) (cap : Q) (ts : list Trade) :
  (1 <= i)%nat -> stepwise i st ->
  (cap = capital st \/ exists t, In t ts /\ exit_idx t = Z.of_nat i) ->
  forall o,
    stepwise (S i) (mkState cap (curve st ++ [cap]) (ledger st ++ ts) o).
Proof.
  intros Hi (Hlen & Hlast & Hsteps) Hcap o. unfold stepwise.
  cbn [curve capital ledger]. split; [|split].
  - rewrite length_app. simpl. lia.
  - replace (S i - 1)%nat with (length (curve st)) by lia.
    apply nth_app_last.
  - intros k Hk. destruct (Nat.eq_dec k i) as [->|Hne].
    + rewrite <- Hlen at 1. rewrite nth_app_last.
      rewrite app_nth1 by lia. rewrite Hlast.
      destruct Hcap as [-> | (t & Hin & Ht)]; [left; reflexivity|].
      right. exists t. split; [apply in_or_app; right; exact Hin|exact Ht].
    + rewrite !app_nth1 by lia.
      destruct (Hsteps k) as [Heq | (t & Hin & Ht)]; [lia|left; exact Heq|].
      right. exists t. split; [apply in_or_app; left; exact Hin|exact Ht].
Qed.

Lemma bar_stepwise (cfg : Config) (df : DataFrame) (i : nat) (st st' : State) :
  (1 <= i)%nat /\ stepwise i st -> bar cfg df i st = Ok st' ->
  (1 <= S i)%nat /\ stepwise (S i) st'.
Proof.
  intros [Hi Hst] H. split; [lia|]. apply bar_inv in H.
  destruct H as (atr & _ & [[_ ->] | (_ & c & h & l & s & _ & _ & _ & _ & ->)]).
  - unfold record_equity.
    rewrite <- (app_nil_r (ledger st)).
    apply stepwise_next; [exact Hi|exact Hst|left; reflexivity].
  - unfold processed, record_equity.
    destruct (entry_step_ledger cfg i (number atr) c s (exit_step cfg i h l st))
      as [-> ->].
    rewrite entry_step_curve, exit_step_curve.
    destruct (exit_step_cases cfg i h l st)
      as [[-> _] | (t & k & p & _ & _ & ->)].
    + rewrite <- (app_nil_r (ledger st)).
      apply stepwise_next; [exact Hi|exact Hst|left; reflexivity].
    + cbn [capital ledger].
      apply stepwise_next; [exact Hi|exact Hst|].
      right. eexists. split; [left; reflexivity|reflexivity].
Qed.

(** X3 (run_backtest). The equity curve moves only where a trade exits:
    an entry [k >= 1] of the curve either repeats the entry before it, or
    some trade of the ledger has exit index [k]. *)
Theorem equity_moves_only_on_exits (cfg : Config) (df : DataFrame)
  (r : BacktestResult) (k : nat) :
  run_backtest cfg df = Ok r ->
  (1 <= k < length (equity_curve r))%nat ->
  nth k (equity_curve r) 0 = nth (k - 1) (equity_curve r) 0 \/
  exists row, In row (trades r) /\ row_exit_idx row = Z.of_nat k.
Proof.
  intros Hr Hk.
  destruct (run_backtest_inv _ _ _ Hr) as (fin & Hsim & Hcurve & Htr & _).
  destruct (simulate_inv _ _ _ Hsim) as (df1 & st & _ & Hloop & Hc & Hfin).
  assert (stepwise (1 + (nrows df1 - 1)) st) as (Hlen & _ & Hsteps).
  { apply (bars_seq_invariant cfg df1
             (fun i s => (1 <= i)%nat /\ stepwise i s)
             (bar_stepwise cfg df1) _ _ (init_state cfg)); [|exact Hloop].
    split; [lia|]. repeat split. intros j Hj. lia. }
  rewrite Hcurve, Hc in *.
  destruct (Hsteps k) as [Heq | (t & Hin & Ht)]; [lia|left; exact Heq|].
  right. exists (trade_row t). split; [|exact Ht].
  rewrite Htr. apply in_map.
  destruct (open_trade st).
  - destruct Hfin as (cs & lc & _ & _ & -> & _).
    apply in_or_app. left. exact Hin.
  - subst fin. exact Hin.
Qed.

Lemma equity_moves_only_on_exits_witness :
  nth 2 (equity_curve demo_result) 0 = nth (2 - 1) (equity_curve demo_result) 0 \/
  exists row, In row (trades demo_result) /\ row_exit_idx row = Z.of_nat 2.
Proof.
  apply (equity_moves_only_on_exits default_config demo_frame demo_result 2).
  - vm_compute. reflexivity.
  - simpl. lia.
Defined.

(** *** The metrics *)

Lemma wins_le_length (ts : list Trade) : (wins ts <= length ts)%nat.
Proof.
  unfold wins. induction ts as [|t ts IH]; simpl; [lia|].
  destruct (Qlt_bool 0 (pnl t)); simpl; lia.
Qed.

Lemma win_rate_of_bounds (ts : list Trade) :
  0 <= win_rate_of ts /\ win_rate_of ts <= 1.
Proof.
  unfold win_rate_of, of_nat. pose proof (wins_le_length ts) as Hle.
  destruct (length ts) as [|n] eqn:En.
  - assert (wins ts = 0)%nat as -> by lia. split; vm_compute; discriminate.
  - assert (0 < inject_Z (Z.of_nat (S n))) as Hpos.
    { change 0 with (inject_Z 0). rewrite <- Zlt_Qlt. lia. }
    split.
    + apply Qle_shift_div_l; [exact Hpos|]. rewrite Qmult_0_l.
      change 0 with (inject_Z 0). rewrite <- Zle_Qle. lia.
    + apply Qle_shift_div_r; [exact Hpos|]. rewrite Qmult_1_l.
      rewrite <- Zle_Qle. lia.
Qed.

(** X4 (run_backtest, metrics). [total_trades] is the length of the
    ledger, [win_rate] lies between 0 and 1, and with no trade both
    [win_rate] and [total_pnl] are 0. *)
Theorem win_rate_is_a_fraction (cfg : Config) (df : DataFrame)
  (r : BacktestResult) :
  run_backtest cfg df = Ok r ->
  total_trades r = length (trades r) /\
  0 <= win_rate r /\ win_rate r <= 1 /\
  (total_trades r = 0%nat -> win_rate r = 0 /\ total_pnl r = 0).
Proof.
  unfold run_backtest. intros H.
  destruct (simulate cfg df) as [fin|]; simpl in H; [|discriminate].
  unfold metrics in H. destruct (ledger fin) as [|t ts].
  - inversion H; subst. simpl.
    repeat split; try reflexivity; vm_compute; discriminate.
  - destruct (max_drawdown_of (curve fin)); simpl in H; [|discriminate].
    inversion H; subst. cbn [total_trades trades win_rate total_pnl].
    split; [simpl; rewrite length_map; reflexivity|].
    destruct (win_rate_of_bounds (t :: ts)) as [Hlo Hhi].
    split; [exact Hlo|]. split; [exact Hhi|]. simpl. discriminate.
Qed.

Lemma win_rate_is_a_fraction_witness :
  total_trades demo_result = length (trades demo_result) /\
  0 <= win_rate demo_result /\ win_rate demo_result <= 1 /\
  (total_trades demo_result = 0%nat ->
   win_rate demo_result = 0 /\ total_pnl demo_result = 0).
Proof.
  apply (win_rate_is_a_fraction default_config demo_frame demo_result).
  vm_compute. reflexivity.
Defined.

Lemma drawdown_step_nonneg (acc : Q * Q) (val : Q) :
  0 <= snd acc -> 0 <= snd (drawdown_step acc val).
Proof.
  intros H. unfold drawdown_step. cbn [snd].
  match goal with |- 0 <= (if Qlt_bool ?a ?b then _ else _) =>
    destruct (Qlt_bool a b) eqn:E end; [|exact H].
  apply Qlt_bool_iff in E. lra.
Qed.

Lemma drawdown_step_ok (acc : Q * Q) (val : Q) :
  drawdown_ok acc -> 0 <= val -> drawdown_ok (drawdown_step acc val).
Proof.
  intros (Hlo & Hhi) Hv. unfold drawdown_step, drawdown_ok.
  cbn [fst snd].
  set (peak := if Qlt_bool (fst acc) val then val else fst acc).
  assert (val <= peak) as Hge.
  { unfold peak. destruct (Qlt_bool (fst acc) val) eqn:E; [lra|].
    destruct (Qlt_le_dec (fst acc) val) as [Hlt|Hle]; [|exact Hle].
    apply Qlt_bool_iff in Hlt. congruence. }
  destruct (Qlt_bool 0 peak) eqn:Ep.
  - apply Qlt_bool_iff in Ep.
    assert (0 <= (peak - val) / peak /\ (peak - val) / peak <= 1)
      as [Hd0 Hd1].
    { split.
      - apply Qle_shift_div_l; [exact Ep|]. lra.
      - apply Qle_shift_div_r; [exact Ep|]. lra. }
    destruct (Qlt_bool (snd acc) ((peak - val) / peak)); split; assumption.
  - destruct (Qlt_bool (snd acc) 0); split; try assumption; lra.
Qed.

Lemma fold_drawdown_nonneg (eq : list Q) (acc : Q * Q) :
  0 <= snd acc -> 0 <= snd (fold_left drawdown_step eq acc).
Proof.
  revert acc. induction eq as [|v eq IH]; simpl; intros acc H; [exact H|].
  apply IH. apply drawdown_step_nonneg. exact H.
Qed.

Lemma fold_drawdown_ok (eq : list Q) (acc : Q * Q) :
  Forall (fun v => 0 <= v) eq -> drawdown_ok acc ->
  drawdown_ok (fold_left drawdown_step eq acc).
Proof.
  revert acc. induction eq as [|v eq IH]; simpl; intros acc Hall H; [exact H|].
  inversion Hall; subst. apply IH; [assumption|].
  apply drawdown_step_ok; assumption.
Qed.

(** X5 (run_backtest, metrics). [max_drawdown] is never negative, and it
    is not over 1 as long as no entry of the equity curve is negative. *)
Theorem max_drawdown_bounds (cfg : Config) (df : DataFrame)
  (r : BacktestResult) :
  run_backtest cfg df = Ok r ->
  0 <= max_drawdown r /\
  (Forall (fun v => 0 <= v) (equity_curve r) -> max_drawdown r <= 1).
Proof.
  unfold run_backtest. intros H.
  destruct (simulate cfg df) as [fin|]; simpl in H; [|discriminate].
  unfold metrics in H. destruct (ledger fin) as [|t ts].
  - inversion H; subst. simpl. split; [|intros _]; vm_compute; discriminate.
  - unfold max_drawdown_of, iloc in H.
    destruct (curve fin) as [|x tl] eqn:Ec; simpl in H; [discriminate|].
    inversion H; subst. cbn [max_drawdown equity_curve]. split.
    + apply (fold_drawdown_nonneg (x :: tl) (x, 0)). simpl. lra.
    + intros Hall.
      apply (fold_drawdown_ok (x :: tl) (x, 0) Hall).
      split; simpl; lra.
Qed.

Lemma max_drawdown_bounds_witness :
  0 <= max_drawdown reentry_result /\
  (Forall (fun v => 0 <= v) (equity_curve reentry_result) ->
   max_drawdown reentry_result <= 1).
Proof.
  apply (max_drawdown_bounds default_config reentry_frame reentry_result).
  vm_compute. reflexivity.
Defined.

(** X6 (run_backtest, one bar). While a trade is open a signal opens
    nothing: on a bar that is not skipped, if the open trade hits neither
    its stop nor its target, the open trade, the ledger and the capital
    stay as they are whatever the signal says; if it hits one, the closed
    trade goes to the end of the ledger, its pnl is added to the capital,
    and a non-zero signal of the same bar opens the next trade at
    once. *)
Theorem one_position_at_a_time (cfg : Config) (df : DataFrame) (i : nat)
  (st st' : State) (t : Trade) (atr : option Q) (close high low : Q)
  (signal : Z) :
  bar cfg df i st = Ok st' ->
  cell (col_atr df) i = Some atr -> skip_bar atr = false ->
  cell (col_close df) i = Some close ->
  cell (col_high df) i = Some high -> cell (col_low df) i = Some low ->
  cell (col_signal df) i = Some signal ->
  open_trade st = Some t ->
  match check_exit (spread_of cfg) t high low with
  | None =>
      open_trade st' = Some t /\ ledger st' = ledger st /\
      capital st' = capital st
  | Some (_, price) =>
      let t' := settle cfg (capital st) t (Z.of_nat i) price in
      ledger st' = ledger st ++ [t'] /\
      capital st' = capital st + pnl t' /\
      open_trade st'
      = if (signal =? 0)%Z then None
        else Some (open_position cfg i (number atr) close signal)
  end.
Proof.
  intros Hbar Hatr Hskip Hc Hh Hl Hs Hopen. apply bar_inv in Hbar.
  destruct Hbar as (atr' & Hatr' & [[Hs' _] | (_ & c & h & l & s & Hc' & Hh' & Hl' & Hsg' & ->)]).
  { congruence. }
  assert (atr' = atr) by congruence. assert (c = close) by congruence.
  assert (h = high) by congruence. assert (l = low) by congruence.
  assert (s = signal) by congruence. subst.
  unfold processed, record_equity, exit_step. rewrite Hopen.
  destruct (check_exit (spread_of cfg) t high low) as [[k price]|].
  - unfold entry_step. cbn [open_trade capital ledger curve].
    destruct (signal =? 0)%Z; cbn [negb open_trade capital ledger curve];
      repeat split.
  - unfold entry_step. rewrite Hopen. cbn [open_trade capital ledger curve].
    rewrite Hopen. repeat split.
Qed.

Lemma one_position_at_a_time_witness :
  let t' := settle default_config (capital demo_state1) demo_long 2
                   (stop_loss demo_long - spread_of default_config / 2) in
  ledger demo_state2 = ledger demo_state1 ++ [t'] /\
  capital demo_state2 = capital demo_state1 + pnl t' /\
  open_trade demo_state2 = None.
Proof.
  exact (one_position_at_a_time default_config demo_frame 2
           demo_state1 demo_state2 demo_long (Some 1) 10 13 8 0%Z
           eq_refl eq_refl eq_refl eq_refl eq_refl eq_refl eq_refl eq_refl).
Defined.

(** *** The computed ATR *)

Lemma nth_error_rolling_mean (period : nat) (xs : list Q) (i : nat) :
  (1 <= period)%nat -> (i < length xs)%nat ->
  nth_error (rolling_mean period xs) i
  = Some (if (period <=? i + 1)%nat
          then Some (py_sum (firstn period (skipn (i + 1 - period) xs))
                     / inject_Z (Z.of_nat period))
          else None).
Proof.
  intros Hp Hi. unfold rolling_mean.
  rewrite nth_error_map, nth_error_seq.
  apply Nat.ltb_lt in Hi. rewrite Hi.
  apply Nat.leb_le in Hp. rewrite Hp. reflexivity.
Qed.

Lemma py_sum_nonneg (xs : list Q) :
  Forall (fun x => 0 <= x) xs -> 0 <= py_sum xs.
Proof.
  unfold py_sum. assert (forall acc, 0 <= acc ->
    Forall (fun x => 0 <= x) xs -> 0 <= fold_left Qplus xs acc) as H.
  { induction xs as [|x xs IH]; simpl; intros acc Hacc Hall; [exact Hacc|].
    inversion Hall; subst. apply IH; [lra|assumption]. }
  apply H. lra.
Qed.

Lemma window_incl (p k : nat) (xs : list Q) (x : Q) :
  In x (firstn p (skipn k xs)) -> In x xs.
Proof.
  intros H. rewrite <- (firstn_skipn k xs). apply in_or_app. right.
  rewrite <- (firstn_skipn p (skipn k xs)). apply in_or_app. left. exact H.
Qed.

Lemma true_range_nonneg (h l : Q) (pc : option Q) :
  l <= h -> 0 <= true_range h l pc.
Proof.
  intros H. unfold true_range. destruct pc as [c|]; [|lra].
  apply Qle_trans with (h - l); [lra|apply Q.le_max_l].
Qed.

Lemma true_ranges_nonneg (hs ls : list Q) (pcs : list (option Q)) :
  Forall2 Qle ls hs -> Forall (fun x => 0 <= x) (true_ranges hs ls pcs).
Proof.
  intros H. revert pcs. induction H as [|l h ls hs Hlh _ IH]; intros pcs.
  - destruct pcs; constructor.
  - destruct pcs as [|pc pcs]; simpl; constructor.
    + apply true_range_nonneg. exact Hlh.
    + apply IH.
Qed.

(** X7 (_compute_atr). For a period of at least 1 the computed ATR column
    has one cell per row, NaN in the rows before [period] rows are seen
    and a number from then on, which is not negative when no low is above
    its high. *)
Theorem computed_atr_warms_up (df : DataFrame) (period : nat)
  (atr : list (option Q)) (highs lows : list Q) :
  wf_frame df -> (1 <= period)%nat ->
  col_high df = Some highs -> col_low df = Some lows ->
  _compute_atr df period = Ok atr ->
  length atr = nrows df /\
  (forall i, (i < nrows df)%nat -> (i + 1 < period)%nat ->
             nth_error atr i = Some None) /\
  (forall i, (i < nrows df)%nat -> (period <= i + 1)%nat ->
             exists a, nth_error atr i = Some (Some a) /\
                       (Forall2 Qle lows highs -> 0 <= a)).
Proof.
  intros (_ & _ & Hh & Hl & Hc & _) Hp Eh El. unfold _compute_atr.
  rewrite Eh, El. cbn [getitem bind].
  destruct (col_close df) as [cs|]; [|discriminate].
  cbn [getitem bind]. intros H. inversion H; subst; clear H.
  rewrite Eh in Hh. rewrite El in Hl. simpl in Hh, Hl, Hc.
  assert (length (true_ranges highs lows (shift cs)) = nrows df) as Hlen.
  { rewrite length_true_ranges; [exact Hh|congruence|].
    rewrite length_shift. congruence. }
  split; [rewrite length_rolling_mean; exact Hlen|]. split.
  - intros i Hi Hlt. rewrite nth_error_rolling_mean by lia.
    replace (period <=? i + 1)%nat with false
      by (symmetry; apply Nat.leb_gt; lia). reflexivity.
  - intros i Hi Hge. rewrite nth_error_rolling_mean by lia.
    replace (period <=? i + 1)%nat with true
      by (symmetry; apply Nat.leb_le; lia).
    eexists. split; [reflexivity|]. intros Hlh.
    apply Qle_shift_div_l.
    + change 0 with (inject_Z 0). rewrite <- Zlt_Qlt. lia.
    + rewrite Qmult_0_l. apply py_sum_nonneg. apply Forall_forall.
      intros x Hx. apply window_incl in Hx.
      pose proof (true_ranges_nonneg highs lows (shift cs) Hlh) as Hall.
      rewrite Forall_forall in Hall. apply Hall. exact Hx.
Qed.

Lemma computed_atr_warms_up_witness :
  length raw_atr = nrows raw_frame /\
  (forall i, (i < nrows raw_frame)%nat -> (i + 1 < 14)%nat ->
             nth_error raw_atr i = Some None) /\
  (forall i, (i < nrows raw_frame)%nat -> (14 <= i + 1)%nat ->
             exists a, nth_error raw_atr i = Some (Some a) /\
                       (Forall2 Qle (repeat 9 20) (repeat 11 20) -> 0 <= a)).
Proof.
  apply (computed_atr_warms_up raw_frame 14 raw_atr
           (repeat 11 20) (repeat 9 20)).
  - repeat split; simpl; congruence.
  - lia.
  - reflexivity.
  - reflexivity.
  - vm_compute. reflexivity.
Defined.

(** X8 (run_backtest with _compute_atr). On a frame without an [atr]
    column the engine computes a 14-bar ATR itself, and no trade of the
    ledger is entered before bar 13, the first bar where that ATR is
    defined. *)
Theorem no_trade_before_atr (cfg : Config) (df : DataFrame)
  (r : BacktestResult) :
  col_atr df = None ->
  run_backtest cfg df = Ok r ->
  Forall (fun row => (13 <= row_entry_idx row)%Z) (trades r).
Proof.
  intros Hnone Hr.
  destruct (run_backtest_inv _ _ _ Hr) as (fin & Hsim & _ & Htr & _).
  destruct (simulate_inv _ _ _ Hsim) as (df1 & st & Hdf & Hloop & _ & Hfin).
  destruct (loop_provenance _ _ _ Hloop) as [Hled Hopen].
  assert (forall t, entered cfg df1 t -> (13 <= entry_idx t)%Z) as Hent.
  { intros t (i & atr & c & s & _ & Hatr & Hskip & _ & _ & _ & ->).
    rewrite open_position_entry_idx.
    unfold with_atr in Hdf. rewrite Hnone in Hdf.
    unfold _compute_atr in Hdf.
    destruct (col_high df) as [hs|]; [|discriminate].
    destruct (col_low df) as [ls|]; [|discriminate].
    destruct (col_close df) as [cs|]; [|discriminate].
    simpl in Hdf. inversion Hdf; subst; clear Hdf. simpl in Hatr.
    destruct (Nat.lt_ge_cases i (length (true_ranges hs ls (shift cs))))
      as [Hlt | Hge].
    - rewrite nth_error_rolling_mean in Hatr by (try exact Hlt; lia).
      destruct (14 <=? i + 1)%nat eqn:E.
      + apply Nat.leb_le in E. lia.
      + inversion Hatr; subst. discriminate.
    - assert (nth_error (rolling_mean 14 (true_ranges hs ls (shift cs))) i
              = None) as Hn
        by (apply nth_error_None; rewrite length_rolling_mean; exact Hge).
      congruence. }
  assert (Forall (fun t => (13 <= entry_idx t)%Z) (ledger st)) as Hst.
  { eapply Forall_impl; [|exact Hled].
    intros t (t0 & j & atr & h & l & k & p & cap & He & _ & _ & _ & _ & _ & ->).
    simpl. apply Hent. exact He. }
  rewrite Htr. apply Forall_map. simpl.
  destruct (open_trade st) as [t|].
  - destruct Hfin as (cs & lc & _ & _ & -> & _).
    apply Forall_app. split; [exact Hst|].
    constructor; [|constructor]. simpl. apply Hent. apply Hopen. reflexivity.
  - subst fin. exact Hst.
Qed.

Lemma no_trade_before_atr_witness :
  trades raw_result <> [] /\
  Forall (fun row => (13 <= row_entry_idx row)%Z) (trades raw_result).
Proof.
  split; [discriminate|].
  apply (no_trade_before_atr default_config raw_frame raw_result).
  - reflexivity.
  - vm_compute. reflexivity.
Defined.

(** *** What an exit pays *)

Lemma check_exit_kind (spread : Q) (t : Trade) (high low : Q) (k : hit) (p : Q) :
  check_exit spread t high low = Some (k, p) ->
  let level := match k with hit_sl => stop_loss t | hit_tp => take_profit t end in
  p = if (direction t =? 1)%Z then level - spread / 2 else level + spread / 2.
Proof.
  unfold check_exit. destruct (direction t =? 1)%Z.
  - destruct (Qle_bool low (stop_loss t)); [intros H; inversion H; reflexivity|].
    destruct (Qle_bool (take_profit t) high); [|discriminate].
    intros H; inversion H; reflexivity.
  - destruct (Qle_bool (stop_loss t) high); [intros H; inversion H; reflexivity|].
    destruct (Qle_bool low (take_profit t)); [|discriminate].
    intros H; inversion H; reflexivity.
Qed.

Lemma settle_pnl (cfg : Config) (cap : Q) (t : Trade) (j : Z) (price d : Q) :
  0 < d -> Qabs (entry_price t - stop_loss t) == d ->
  pnl (settle cfg cap t j price)
  == (price - entry_price t) * inject_Z (direction t)
     * (risk_pct cfg * cap / d).
Proof.
  intros Hd Habs. unfold settle. cbn [pnl].
  assert (Qlt_bool 0 (Qabs (entry_price t - stop_loss t)) = true) as ->.
  { apply Qlt_bool_iff. rewrite Habs. exact Hd. }
  rewrite Habs. reflexivity.
Qed.

(** X9 (run_backtest, lines 94-118 and 129-148). A trade opened on
    a signal of 1 or -1 with a positive stop distance [atr * sl_atr_mult]
    and closed at its stop or at its target pays the risked amount
    [risk_pct * capital] times a fixed ratio: minus (stop distance plus
    half a spread) over the stop distance at the stop, (target distance
    minus half a spread) over the stop distance at the target; the
    direction and the prices do not matter. *)
Theorem exit_pays_a_multiple_of_the_risk (cfg : Config) (i : nat)
  (atr close cap : Q) (signal j : Z) (high low : Q) (k : hit) (price : Q) :
  signal = 1%Z \/ signal = (-1)%Z ->
  0 < atr * sl_atr_mult cfg ->
  check_exit (spread_of cfg) (open_position cfg i atr close signal) high low
  = Some (k, price) ->
  pnl (settle cfg cap (open_position cfg i atr close signal) j price)
  == risk_pct cfg * cap
     * match k with
       | hit_sl => - (atr * sl_atr_mult cfg + spread_of cfg / 2)
       | hit_tp => atr * tp_atr_mult cfg - spread_of cfg / 2
       end
     / (atr * sl_atr_mult cfg).
Proof.
  intros Hsig Hd Hk. apply check_exit_kind in Hk. cbv zeta in Hk.
  set (d := atr * sl_atr_mult cfg) in *.
  assert (~ d == 0) as Hd0 by lra.
  destruct Hsig as [-> | ->].
  - rewrite (settle_pnl cfg cap _ j price d Hd).
    + subst price. unfold open_position, new_Trade.
      cbn [Z.eqb Pos.eqb direction entry_price stop_loss take_profit].
      fold d. destruct k; change (inject_Z 1) with 1; field; exact Hd0.
    + unfold open_position, new_Trade.
      cbn [Z.eqb Pos.eqb entry_price stop_loss]. fold d.
      rewrite <- (Qabs_pos d) at 2 by lra. apply Qabs_wd. ring.
  - rewrite (settle_pnl cfg cap _ j price d Hd).
    + subst price. unfold open_position, new_Trade.
      cbn [Z.eqb Pos.eqb direction entry_price stop_loss take_profit].
      fold d. destruct k; change (inject_Z (-1)) with (-(1)); field; exact Hd0.
    + unfold open_position, new_Trade.
      cbn [Z.eqb Pos.eqb entry_price stop_loss]. fold d.
      rewrite <- (Qabs_pos d) at 2 by lra. rewrite <- (Qabs_opp d).
      apply Qabs_wd. ring.
Qed.

Lemma exit_pays_a_multiple_of_the_risk_witness :
  pnl (settle default_config 10000
              (open_position default_config 1 1 10 1) 2
              (stop_loss demo_long - spread_of default_config / 2))
  == risk_pct default_config * 10000
     * - (1 * sl_atr_mult default_config + spread_of default_config / 2)
     / (1 * sl_atr_mult default_config).
Proof.
  apply (exit_pays_a_multiple_of_the_risk default_config 1 1 10 10000
           1 2 13 8 hit_sl).
  - left. reflexivity.
  - reflexivity.
  - reflexivity.
Defined.

End EngineExtraProofs.

(** ** set_parameters: further properties *)

Module ParamExtraProofs.
Import Base MeanReversion VolatilityContraction ParamProofs ParamExtra.

Lemma lookup_update_same (key : string) (v : param) (d : list (string * param)) :
  lookup key d <> None -> lookup key (update key v d) = Some v.
Proof.
  induction d as [|[k x] tl IH]; simpl; [congruence|].
  destruct (String.eqb k key) eqn:E; simpl; rewrite E; [reflexivity|exact IH].
Qed.

Lemma lookup_update_other (key key' : string) (v : param)
  (d : list (string * param)) :
  key' <> key -> lookup key' (update key v d) = lookup key' d.
Proof.
  intros Hne. induction d as [|[k x] tl IH]; simpl; [reflexivity|].
  destruct (String.eqb k key) eqn:E; simpl.
  - apply String.eqb_eq in E. subst k.
    destruct (String.eqb key key') eqn:E'; [|reflexivity].
    apply String.eqb_eq in E'. congruence.
  - rewrite IH. reflexivity.
Qed.

Lemma shape_lookup (d c : list (string * param)) (key : string) (cur : param) :
  shape d = shape c -> lookup key c = Some cur ->
  exists cur', lookup key d = Some cur' /\ kind_of cur' = kind_of cur.
Proof.
  revert c. induction d as [|[k x] d IH]; intros [|[k' x'] c]; simpl;
    try discriminate.
  intros H Hl. inversion H; subst.
  destruct (String.eqb k' key).
  - inversion Hl; subst. exists x. split; [reflexivity|assumption].
  - apply (IH c); assumption.
Qed.

Lemma shape_update (d : list (string * param)) (key : string) (v cur : param) :
  lookup key d = Some cur -> kind_of v = kind_of cur ->
  shape (update key v d) = shape d.
Proof.
  induction d as [|[k x] d IH]; simpl; [discriminate|].
  destruct (String.eqb k key); simpl.
  - intros H Hk. inversion H; subst. rewrite Hk. reflexivity.
  - intros H Hk. rewrite IH by assumption. reflexivity.
Qed.

Lemma coerce_kind (cur v : param) (value : pyval) :
  coerce cur value = Ok v -> kind_of v = kind_of cur.
Proof.
  destruct cur; simpl.
  - destruct (py_int value); simpl; intros H; inversion H; reflexivity.
  - destruct (py_float value); simpl; intros H; inversion H; reflexivity.
  - intros H; inversion H; reflexivity.
Qed.

Lemma convert_kind (cur v : param) (value : pyval) :
  MeanReversion.convert cur value = Ok v -> kind_of v = kind_of cur.
Proof.
  destruct cur; try apply coerce_kind.
  simpl. destruct value; intros H; inversion H; reflexivity.
Qed.

Lemma mr_setattr_update (s : MeanReversionStrategy) (key : string)
  (v cur : param) :
  lookup key (get_parameters s) = Some cur ->
  get_parameters (setattr s key v) = update key v (get_parameters s).
Proof.
  intros H. apply lookup_in in H. simpl in H.
  destruct H as [<- | [<- | [<- | [<- | [<- | [<- | []]]]]]]; reflexivity.
Qed.

Lemma vc_setattr_update (s : VolatilityContractionStrategy) (key : string)
  (v cur : param) :
  lookup key (get_parameters s) = Some cur ->
  get_parameters (setattr s key v) = update key v (get_parameters s).
Proof.
  intros H. apply lookup_in in H. simpl in H.
  destruct H as [<- | [<- | [<- | [<- | [<- | [<- | []]]]]]]; reflexivity.
Qed.

Section Dictionary.

Context {S : Type} `{Strategy S}.
Variable convert : param -> pyval -> result param.
Variable current : list (string * param).

Hypothesis convert_keeps_kind :
  forall cur v value, convert cur value = Ok v -> kind_of v = kind_of cur.
Hypothesis attribute :
  forall (self : S) key cur,
    lookup key current = Some cur -> hasattr self key = true.
Hypothesis setattr_is_update :
  forall (self : S) key v cur,
    lookup key (get_parameters self) = Some cur ->
    get_parameters (setattr self key v) = update key v (get_parameters self).

Lemma assign_all_known (items : list (string * pyval)) (self : S) :
  assign_all convert current (filter (known current) items) self
  = assign_all convert current items self.
Proof.
  revert self. induction items as [|[key value] rest IH]; intros self;
    [reflexivity|].
  simpl. unfold known at 1. simpl.
  destruct (lookup key current) as [cur|] eqn:E; [|apply IH].
  simpl. rewrite E.
  destruct (hasattr self key); [|apply IH].
  destruct (convert cur value); [apply IH|reflexivity].
Qed.

Lemma assign_all_shape (items : list (string * pyval)) (self : S) :
  shape (get_parameters self) = shape current ->
  shape (get_parameters (fst (assign_all convert current items self)))
  = shape current.
Proof.
  revert self. induction items as [|[key value] rest IH]; intros self Hs;
    [exact Hs|].
  simpl. destruct (lookup key current) as [cur|] eqn:E; [|apply IH; exact Hs].
  destruct (hasattr self key); [|apply IH; exact Hs].
  destruct (convert cur value) as [v|e] eqn:Ec; [|exact Hs].
  apply IH.
  destruct (shape_lookup _ _ _ _ Hs E) as (cur' & Hl & Hk).
  rewrite (setattr_is_update self key v cur' Hl), <- Hs.
  apply (shape_update _ _ _ cur' Hl).
  rewrite (convert_keeps_kind _ _ _ Ec). symmetry. exact Hk.
Qed.

Lemma assign_all_lookup (items : list (string * pyval)) :
  NoDup (map fst items) ->
  forall self self',
    shape (get_parameters self) = shape current ->
    assign_all convert current items self = (self', None) ->
    (forall k, ~ In k (map fst items) ->
               lookup k (get_parameters self') = lookup k (get_parameters self)) /\
    (forall k value cur,
        In (k, value) items -> lookup k current = Some cur ->
        exists v, convert cur value = Ok v /\
                  lookup k (get_parameters self') = Some v).
Proof.
  induction items as [|[key value] rest IH]; intros Hnd self self' Hs Hrun.
  - simpl in Hrun. inversion Hrun; subst.
    split; [reflexivity|]. intros k value cur [].
  - inversion Hnd as [|? ? Hnotin Hnd']; subst. simpl in Hrun.
    destruct (lookup key current) as [cur|] eqn:E.
    + rewrite (attribute self key cur E) in Hrun.
      destruct (convert cur value) as [v|e] eqn:Ec; [|discriminate].
      destruct (shape_lookup _ _ _ _ Hs E) as (cur' & Hl & Hk).
      assert (shape (get_parameters (setattr self key v)) = shape current)
        as Hs1.
      { rewrite (setattr_is_update self key v cur' Hl), <- Hs.
        apply (shape_update _ _ _ cur' Hl).
        rewrite (convert_keeps_kind _ _ _ Ec). symmetry. exact Hk. }
      destruct (IH Hnd' _ _ Hs1 Hrun) as [Hout Hin]. split.
      * intros k Hk'. simpl in Hk'. rewrite Hout by tauto.
        rewrite (setattr_is_update self key v cur' Hl).
        apply lookup_update_other. intros ->. tauto.
      * intros k value' c [Heq | Hin'] Hc.
        -- inversion Heq; subst. assert (c = cur) by congruence. subst c.
           exists v. split; [exact Ec|].
           rewrite (Hout k Hnotin).
           rewrite (setattr_is_update self k v cur' Hl).
           apply lookup_update_same. congruence.
        -- exact (Hin k value' c Hin' Hc).
    + destruct (IH Hnd' _ _ Hs Hrun) as [Hout Hin]. split.
      * intros k Hk'. simpl in Hk'. apply Hout. tauto.
      * intros k value' c [Heq | Hin'] Hc.
        -- inversion Heq; subst. congruence.
        -- exact (Hin k value' c Hin' Hc).
Qed.

Hypothesis setattr_same :
  forall (self : S) key v,
    lookup key (get_parameters self) = Some v -> setattr self key v = self.
Hypothesis convert_echo : forall p, convert p (to_json p) = Ok p.

Lemma assign_all_echo (d : list (string * param)) (self : S) :
  current = get_parameters self ->
  (forall k v, In (k, v) d -> lookup k current = Some v) ->
  assign_all convert current (echo d) self = (self, None).
Proof.
  intros Hcur. induction d as [|[k v] d IH]; intros Hd; [reflexivity|].
  simpl. rewrite (Hd k v (or_introl eq_refl)).
  rewrite (attribute self k v (Hd k v (or_introl eq_refl))).
  rewrite convert_echo, setattr_same.
  - apply IH. intros k' v' Hin. apply Hd. right. exact Hin.
  - rewrite <- Hcur. apply Hd. left. reflexivity.
Qed.

End Dictionary.

Lemma lookup_of_member (d : list (string * param)) (k : string) (v : param) :
  NoDup (map fst d) -> In (k, v) d -> lookup k d = Some v.
Proof.
  induction d as [|[k' v'] d IH]; simpl; intros Hnd Hin; [destruct Hin|].
  inversion Hnd as [|? ? Hnot Hnd']; subst.
  destruct Hin as [Heq | Hin].
  - inversion Heq; subst. rewrite String.eqb_refl. reflexivity.
  - destruct (String.eqb k' k) eqn:E; [|apply IH; assumption].
    apply String.eqb_eq in E. subst k'. exfalso. apply Hnot.
    change k with (fst (k, v)). apply in_map. exact Hin.
Qed.

Lemma coerce_echo (p : param) : coerce p (to_json p) = Ok p.
Proof. destruct p; reflexivity. Qed.

Lemma convert_echo (p : param) : MeanReversion.convert p (to_json p) = Ok p.
Proof. destruct p; reflexivity. Qed.

Lemma mr_names_nodup (s : MeanReversionStrategy) :
  NoDup (map fst (get_parameters s)).
Proof.
  simpl. repeat (constructor; [simpl; intuition discriminate|]). constructor.
Qed.

Lemma vc_names_nodup (s : VolatilityContractionStrategy) :
  NoDup (map fst (get_parameters s)).
Proof.
  simpl. repeat (constructor; [simpl; intuition discriminate|]). constructor.
Qed.

Lemma mr_setattr_same (s : MeanReversionStrategy) (key : string) (v : param) :
  lookup key (get_parameters s) = Some v -> setattr s key v = s.
Proof.
  intros H. pose proof (lookup_in _ _ _ H) as Hin. simpl in Hin.
  destruct s.
  destruct Hin as [<- | [<- | [<- | [<- | [<- | [<- | []]]]]]];
    simpl in H; inversion H; subst; reflexivity.
Qed.

Lemma vc_setattr_same (s : VolatilityContractionStrategy) (key : string)
  (v : param) :
  lookup key (get_parameters s) = Some v -> setattr s key v = s.
Proof.
  intros H. pose proof (lookup_in _ _ _ H) as Hin. simpl in Hin.
  destruct s.
  destruct Hin as [<- | [<- | [<- | [<- | [<- | [<- | []]]]]]];
    simpl in H; inversion H; subst; reflexivity.
Qed.

(** X10 (set_parameters). Keys that are not parameters of the strategy
    are skipped: an update gives the same object and the same outcome as
    the update without those keys, and an update with no known key
    changes nothing and raises nothing. This holds for the inherited
    method and for the override of the mean reversion strategy. *)
Theorem unknown_keys_are_ignored :
  (forall (self : VolatilityContractionStrategy) params,
      Base.set_parameters self (filter (known (get_parameters self)) params)
      = Base.set_parameters self params) /\
  (forall (self : MeanReversionStrategy) params,
      MeanReversion.set_parameters self
        (filter (known (get_parameters self)) params)
      = MeanReversion.set_parameters self params) /\
  (forall (self : VolatilityContractionStrategy) params,
      filter (known (get_parameters self)) params = [] ->
      Base.set_parameters self params = (self, None)) /\
  (forall (self : MeanReversionStrategy) params,
      filter (known (get_parameters self)) params = [] ->
      MeanReversion.set_parameters self params = (self, None)).
Proof.
  assert (forall (self : VolatilityContractionStrategy) params,
             Base.set_parameters self
               (filter (known (get_parameters self)) params)
             = Base.set_parameters self params) as Hvc.
  { intros self params. apply assign_all_known. }
  assert (forall (self : MeanReversionStrategy) params,
             MeanReversion.set_parameters self
               (filter (known (get_parameters self)) params)
             = MeanReversion.set_parameters self params) as Hmr.
  { intros self params. apply assign_all_known. }
  split; [exact Hvc|]. split; [exact Hmr|]. split.
  - intros self params E. rewrite <- Hvc, E. reflexivity.
  - intros self params E. rewrite <- Hmr, E. reflexivity.
Qed.

(** X11 (set_parameters). Whatever the update, and whether it raises or
    not, the strategy keeps the names, the order and the types ([int],
    [float] or [bool]) of its parameters. *)
Theorem parameters_keep_names_and_types :
  (forall (self : VolatilityContractionStrategy) params,
      shape (get_parameters (fst (Base.set_parameters self params)))
      = shape (get_parameters self)) /\
  (forall (self : MeanReversionStrategy) params,
      shape (get_parameters (fst (MeanReversion.set_parameters self params)))
      = shape (get_parameters self)).
Proof.
  split; intros self params.
  - apply assign_all_shape; [apply coerce_kind| |reflexivity].
    intros s key v cur. apply vc_setattr_update.
  - apply assign_all_shape; [apply convert_kind| |reflexivity].
    intros s key v cur. apply mr_setattr_update.
Qed.

(** X12 (set_parameters, get_parameters). After an update without
    repeated keys, whose string values are plain text, and that did not
    raise, a parameter the update does not name reads as before, and a
    parameter it names reads as the conversion of the given value to the
    type the parameter had. *)
Theorem successful_update_is_read_back :
  (forall (self self' : VolatilityContractionStrategy) params,
      NoDup (map fst params) -> plain_request params ->
      Base.set_parameters self params = (self', None) ->
      (forall k, ~ In k (map fst params) ->
                 lookup k (get_parameters self')
                 = lookup k (get_parameters self)) /\
      (forall k value cur,
          In (k, value) params -> lookup k (get_parameters self) = Some cur ->
          exists v, coerce cur value = Ok v /\
                    lookup k (get_parameters self') = Some v)) /\
  (forall (self self' : MeanReversionStrategy) params,
      NoDup (map fst params) -> plain_request params ->
      MeanReversion.set_parameters self params = (self', None) ->
      (forall k, ~ In k (map fst params) ->
                 lookup k (get_parameters self')
                 = lookup k (get_parameters self)) /\
      (forall k value cur,
          In (k, value) params -> lookup k (get_parameters self) = Some cur ->
          exists v, MeanReversion.convert cur value = Ok v /\
                    lookup k (get_parameters self') = Some v)).
Proof.
  split; intros self self' params Hnd _ Hrun.
  - exact (assign_all_lookup coerce (get_parameters self) coerce_kind
             (fun s => vc_known_is_attribute self s)
             (fun s key v cur => vc_setattr_update s key v cur)
             params Hnd self self' eq_refl Hrun).
  - exact (assign_all_lookup MeanReversion.convert (get_parameters self)
             convert_kind
             (fun s => mr_known_is_attribute self s)
             (fun s key v cur => mr_setattr_update s key v cur)
             params Hnd self self' eq_refl Hrun).
Qed.

Lemma successful_update_is_read_back_witness :
  (forall k, ~ In k (map fst mixed_update) ->
             lookup k (get_parameters
                         (fst (Base.set_parameters
                                 VolatilityContraction.init mixed_update)))
             = lookup k (get_parameters VolatilityContraction.init)) /\
  (forall k value cur,
      In (k, value) mixed_update ->
      lookup k (get_parameters VolatilityContraction.init) = Some cur ->
      exists v, coerce cur value = Ok v /\
                lookup k (get_parameters
                            (fst (Base.set_parameters
                                    VolatilityContraction.init mixed_update)))
                = Some v).
Proof.
  apply (proj1 successful_update_is_read_back VolatilityContraction.init).
  - simpl. repeat (constructor; [simpl; intuition discriminate|]). constructor.
  - repeat constructor; cbn; lia.
  - reflexivity.
Defined.

(** X13 (get_parameters, set_parameters). Feeding the parameters a
    strategy reports back to it changes nothing and raises nothing. *)
Theorem echoed_parameters_change_nothing :
  (forall self : VolatilityContractionStrategy,
      Base.set_parameters self (echo (get_parameters self)) = (self, None)) /\
  (forall self : MeanReversionStrategy,
      MeanReversion.set_parameters self (echo (get_parameters self))
      = (self, None)).
Proof.
  split; intros self.
  - apply (assign_all_echo coerce (get_parameters self)).
    + intros s. apply vc_known_is_attribute.
    + apply vc_setattr_same.
    + apply coerce_echo.
    + reflexivity.
    + intros k v. apply lookup_of_member. apply vc_names_nodup.
  - apply (assign_all_echo MeanReversion.convert (get_parameters self)).
    + intros s. apply mr_known_is_attribute.
    + apply mr_setattr_same.
    + apply convert_echo.
    + reflexivity.
    + intros k v. apply lookup_of_member. apply mr_names_nodup.
Qed.


End ParamExtraProofs.

(** ** The strategy registry *)

Module RegistryProofs.
Import Base Registry.

Lemma get_setitem_same (key : string) (v : strategy_class)
  (d : list (string * strategy_class)) :
  get key (setitem key v d) = Some v.
Proof.
  induction d as [|[k x] tl IH]; simpl.
  - rewrite String.eqb_refl. reflexivity.
  - destruct (String.eqb k key) eqn:E; simpl; rewrite E; [reflexivity|exact IH].
Qed.

Lemma get_setitem_other (key key' : string) (v : strategy_class)
  (d : list (string * strategy_class)) :
  key' <> key -> get key' (setitem key v d) = get key' d.
Proof.
  intros Hne. induction d as [|[k x] tl IH]; simpl.
  - destruct (String.eqb key key') eqn:E; [|reflexivity].
    apply String.eqb_eq in E. congruence.
  - destruct (String.eqb k key) eqn:E; simpl.
    + apply String.eqb_eq in E. subst k.
      destruct (String.eqb key key') eqn:E'; [|reflexivity].
      apply String.eqb_eq in E'. congruence.
    + rewrite IH. reflexivity.
Qed.

Lemma keys_setitem (key : string) (v : strategy_class)
  (d : list (string * strategy_class)) :
  map fst (setitem key v d)
  = match get key d with
    | Some _ => map fst d
    | None => map fst d ++ [key]
    end.
Proof.
  induction d as [|[k x] tl IH]; simpl; [reflexivity|].
  destruct (String.eqb k key) eqn:E; simpl; [reflexivity|].
  rewrite IH. destruct (get key tl); reflexivity.
Qed.

Lemma get_in_keys (key : string) (d : list (string * strategy_class)) :
  In key (map fst d) <-> exists cls, get key d = Some cls.
Proof.
  induction d as [|[k x] tl IH]; simpl.
  - split; [tauto|]. intros (cls & H). discriminate.
  - destruct (String.eqb k key) eqn:E.
    + apply String.eqb_eq in E. split; [|auto]. intros _. exists x. reflexivity.
    + apply String.eqb_neq in E. rewrite <- IH. tauto.
Qed.

(** X14 (register_strategy). After a class is registered its key finds
    it, every other key finds what it found before, the key is added at
    the end of the registry only if it was not there, and registering the
    same class again changes nothing. *)
Theorem registered_class_is_found (cls : strategy_class) (st : state) :
  let st' := register_strategy cls st in
  get (registry_key (name_of cls)) (_registry st') = Some cls /\
  (forall key, key <> registry_key (name_of cls) ->
               get key (_registry st') = get key (_registry st)) /\
  map fst (_registry st')
  = (match get (registry_key (name_of cls)) (_registry st) with
     | Some _ => map fst (_registry st)
     | None => map fst (_registry st) ++ [registry_key (name_of cls)]
     end) /\
  register_strategy cls st' = st'.
Proof.
  cbv zeta. unfold register_strategy. cbn [_registry imported].
  split; [apply get_setitem_same|]. split.
  - intros key Hne. apply get_setitem_other. exact Hne.
  - split; [apply keys_setitem|]. f_equal.
    generalize (registry_key (name_of cls)). intros key.
    induction (_registry st) as [|[k x] tl IH]; simpl.
    + rewrite String.eqb_refl. reflexivity.
    + destruct (String.eqb k key) eqn:E; simpl; rewrite E; [reflexivity|].
      rewrite IH. reflexivity.
Qed.

(** X15 (get_all_strategies, get_strategy). From any state of the
    registry, a name is listed by [get_all_strategies] exactly when
    [get_strategy] returns an object for it; for every other name
    [get_strategy] raises [ValueError]; and both leave the registry in
    the same state. *)
Theorem listed_names_are_the_known_names (st : state) (name : string) :
  (In name (fst (get_all_strategies st)) <->
   exists obj, fst (get_strategy name st) = Ok obj) /\
  (~ In name (fst (get_all_strategies st)) ->
   fst (get_strategy name st) = Raise ValueError) /\
  snd (get_strategy name st) = snd (get_all_strategies st).
Proof.
  unfold get_all_strategies, get_strategy. cbn [fst snd].
  pose proof (get_in_keys name (_registry (_auto_discover st))) as Hk.
  destruct (get name (_registry (_auto_discover st))) as [cls|];
    cbn [fst snd].
  - split; [|split; [|reflexivity]].
    + split; [intros _; eexists; reflexivity|].
      intros _. apply Hk. eexists; reflexivity.
    + intros Hn. exfalso. apply Hn. apply Hk. eexists; reflexivity.
  - split; [|split; reflexivity].
    split; [|intros (obj & H); discriminate].
    intros Hin. apply Hk in Hin. destruct Hin as (cls & H). discriminate.
Qed.

Lemma imported_registered (l : list strategy_class) (st : state) :
  imported (fold_left (fun s cls => register_strategy cls s) l st)
  = imported st.
Proof.
  revert st. induction l as [|cls l IH]; intros st; [reflexivity|].
  cbn [fold_left]. rewrite IH. reflexivity.
Qed.

Lemma import_module_known (m : string) (st : state) :
  existsb (String.eqb m) (imported st) = true -> import_module m st = st.
Proof. intros H. unfold import_module. rewrite H. reflexivity. Qed.

Lemma import_module_marks (m : string) (st : state) :
  existsb (String.eqb m) (imported (import_module m st)) = true.
Proof.
  unfold import_module.
  destruct (existsb (String.eqb m) (imported st)) eqn:E; [exact E|].
  rewrite imported_registered. cbn [imported existsb].
  rewrite String.eqb_refl. reflexivity.
Qed.

Lemma import_module_keeps (m m' : string) (st : state) :
  existsb (String.eqb m') (imported st) = true ->
  existsb (String.eqb m') (imported (import_module m st)) = true.
Proof.
  intros H. unfold import_module.
  destruct (existsb (String.eqb m) (imported st)); [exact H|].
  rewrite imported_registered. cbn [imported existsb].
  rewrite H. apply Bool.orb_true_r.
Qed.

Lemma auto_discover_again (st : state) :
  _auto_discover (_auto_discover st) = _auto_discover st.
Proof.
  change (_auto_discover (_auto_discover st))
    with (import_module "volatility_contraction"
            (import_module "mean_reversion" (_auto_discover st))).
  change (_auto_discover st)
    with (import_module "volatility_contraction"
            (import_module "mean_reversion" st)).
  rewrite (import_module_known "mean_reversion").
  - apply import_module_known, import_module_marks.
  - apply import_module_keeps, import_module_marks.
Qed.

(** X16 (get_strategy, _auto_discover). Starting with nothing imported,
    [get_strategy] returns an object exactly for the keys
    [mean_reversion] and [volatility_contraction], each time a fresh
    object with the defaults; the display name of a class, such as
    [Mean Reversion], is not normalised and raises [ValueError], while its
    registry key finds the class. A second lookup finds the registry as
    the first one left it and gives the same answer. *)
Theorem lookup_is_by_registry_key :
  (forall name obj,
      fst (get_strategy name initial) = Ok obj <->
      (name = "mean_reversion" /\
       obj = MeanReversionObject MeanReversion.init) \/
      (name = "volatility_contraction" /\
       obj = VolatilityContractionObject VolatilityContraction.init)) /\
  (forall cls,
      fst (get_strategy (name_of cls) initial) = Raise ValueError /\
      fst (get_strategy (registry_key (name_of cls)) initial)
      = Ok (construct cls)) /\
  (forall name st,
      get_strategy name (snd (get_strategy name st))
      = get_strategy name st) /\
  fst (get_all_strategies initial)
  = ["mean_reversion"; "volatility_contraction"].
Proof.
  split; [|split; [|split]].
  - intros name obj. unfold get_strategy.
    change (_registry (_auto_discover initial))
      with [("mean_reversion", MeanReversionClass);
            ("volatility_contraction", VolatilityContractionClass)].
    cbn [get].
    destruct (String.eqb "mean_reversion" name) eqn:E1.
    { apply String.eqb_eq in E1. subst name. cbn [fst construct]. split.
      - intros H. inversion H. left. split; reflexivity.
      - intros [[_ ->] | [H _]]; [reflexivity|discriminate]. }
    destruct (String.eqb "volatility_contraction" name) eqn:E2.
    { apply String.eqb_eq in E2. subst name. cbn [fst construct]. split.
      - intros H. inversion H. right. split; reflexivity.
      - intros [[H _] | [_ ->]]; [discriminate|reflexivity]. }
    cbn [fst]. apply String.eqb_neq in E1, E2. split; [discriminate|].
    intros [[H _] | [H _]]; congruence.
  - intros cls. destruct cls; split; reflexivity.
  - intros name st. unfold get_strategy.
    destruct (get name (_registry (_auto_discover st))) eqn:E; cbn [snd];
      rewrite auto_discover_again, E; reflexivity.
  - reflexivity.
Qed.

Lemma key_char_again (c : ascii) :
  let f := fun c => if Ascii.eqb (lower_char c) " " then "_"%char
                    else lower_char c in
  f (f c) = f c /\ f c <> " "%char.
Proof.
  destruct c as [[] [] [] [] [] [] [] []]; vm_compute;
    split; first [reflexivity | discriminate].
Qed.

(** X17 (register_strategy, line 17). The registry key of an ASCII name
    is in normal form: computing the key of a key gives the key back, and
    a key holds no space. *)
Theorem registry_key_is_normal (name : string) :
  registry_key (registry_key name) = registry_key name /\
  ~ In " "%char (list_ascii_of_string (registry_key name)).
Proof.
  unfold registry_key, replace_space, lower.
  rewrite !list_ascii_of_string_of_list_ascii, !map_map.
  split.
  - f_equal. apply map_ext. intros c. apply (key_char_again c).
  - intros Hin. apply in_map_iff in Hin. destruct Hin as (c & Hc & _).
    exact (proj2 (key_char_again c) Hc).
Qed.

End RegistryProofs.


(** ** Volatility contraction: the signal column as a whole *)

Module SignalExtraProofs.
Import VolatilityContraction SignalProofs.

Lemma length_generate_signals (rows : list Row) :
  length (generate_signals rows) = length rows.
Proof.
  unfold generate_signals.
  exact (proj1 (loop_prefix rows (length rows - 1) (Nat.le_refl _))).
Qed.

Lemma fire_in_range (rows : list Row) (i : nat) :
  fire rows i = (-1)%Z \/ fire rows i = 0%Z \/ fire rows i = 1%Z.
Proof.
  unfold fire, fire_with.
  destruct (armed rows i && (squeeze (nth i rows nan_row) =? 0)%Z);
    [|right; left; reflexivity].
  destruct (breakout_cases (nth i rows nan_row)) as [[-> _] | [[-> _] | [-> _]]];
    auto.
Qed.

Lemma signal_is_fire (rows : list Row) (i : nat) :
  nth i (generate_signals rows) 0%Z <> 0%Z ->
  (i < length rows)%nat /\ fire rows i <> 0%Z.
Proof.
  rewrite generate_signals_nth.
  destruct (i <? length rows)%nat eqn:E; [|congruence].
  apply Nat.ltb_lt in E. auto.
Qed.

Lemma no_squeeze_no_signal (rows : list Row) :
  (forall r, In r rows -> squeeze r <> 1%Z) ->
  generate_signals rows = repeat 0%Z (length rows).
Proof.
  intros Hnone.
  apply (nth_ext _ _ 0%Z 0%Z).
  - rewrite length_generate_signals, repeat_length. reflexivity.
  - intros i _. rewrite nth_repeat.
    destruct (Z.eq_dec (nth i (generate_signals rows) 0%Z) 0) as [E | E];
      [exact E|]. exfalso.
    apply signal_is_fire in E. destruct E as [Hi Hf].
    apply fire_nonzero_iff in Hf. destruct Hf as (Harm & _ & _).
    apply armed_iff in Harm. destruct Harm as (k & Hk & Hone & _).
    apply (Hnone (nth k rows nan_row)); [|exact Hone].
    apply nth_In. lia.
Qed.

(** X18 (VolatilityContractionStrategy.generate_signals, lines 81-95).
    The signal column has one cell per row, each -1, 0 or 1; between two
    bars with a signal there is a bar in between where the squeeze flag is
    1, so that one squeeze gives at most one signal; and when no row has
    the flag at 1 the whole column is 0. *)
Theorem one_signal_per_squeeze (rows : list Row) :
  let signal := generate_signals rows in
  length signal = length rows /\
  (forall i, nth i signal 0%Z = (-1)%Z \/ nth i signal 0%Z = 0%Z \/
             nth i signal 0%Z = 1%Z) /\
  (forall i j, (i < j)%nat ->
     nth i signal 0%Z <> 0%Z -> nth j signal 0%Z <> 0%Z ->
     exists k, (i < k < j)%nat /\ squeeze (nth k rows nan_row) = 1%Z) /\
  ((forall r, In r rows -> squeeze r <> 1%Z) ->
   signal = repeat 0%Z (length rows)).
Proof.
  cbv zeta. split; [apply length_generate_signals|]. split; [|split].
  - intros i. rewrite generate_signals_nth.
    destruct (i <? length rows)%nat; [apply fire_in_range|auto].
  - intros i j Hij Hi Hj.
    apply signal_is_fire in Hi. destruct Hi as [_ Hi].
    pose proof Hi as Hfi.
    apply signal_is_fire in Hj. destruct Hj as [_ Hj].
    apply fire_nonzero_iff in Hi. destruct Hi as (_ & Hsq & _).
    pose proof Hj as Hj'.
    apply fire_nonzero_iff in Hj'. destruct Hj' as (Harm & _ & _).
    apply armed_iff in Harm. destruct Harm as (k & Hk & Hone & Hquiet).
    exists k. split; [|exact Hone].
    destruct (Nat.lt_ge_cases k i) as [Hlt | Hge].
    + exfalso. apply Hfi. apply Hquiet. lia.
    + assert (k <> i) by (intros ->; congruence). lia.
  - apply no_squeeze_no_signal.
Qed.

End SignalExtraProofs.


(** ** Mean reversion: the indicator and the signals *)

Module MeanReversionSignalsProofs.
Import Base MeanReversion MeanReversionSignals.

Lemma Qlt_bool_false (a b : Q) : Qlt_bool a b = false -> b <= a.
Proof.
  intros H. apply Qnot_lt_le. intros Hlt.
  apply Qlt_bool_iff in Hlt. congruence.
Qed.

Lemma Qeq_bool_false (a b : Q) : Qeq_bool a b = false -> ~ a == b.
Proof. intros H E. apply Qeq_bool_iff in E. congruence. Qed.

Lemma not_negative_clip_lower (x : pyfloat) : not_negative (clip_lower 0 x).
Proof.
  unfold clip_lower. destruct x as [q|[]|]; cbn; try reflexivity;
    try exact I; try apply Qle_refl.
  destruct (Qlt_bool q 0) eqn:E; cbn; [apply Qle_refl|].
  apply Qlt_bool_false. exact E.
Qed.

Lemma not_negative_clip_upper (x : pyfloat) :
  not_negative (fneg (clip_upper 0 x)).
Proof.
  unfold clip_upper. destruct x as [q|[]|]; cbn; try reflexivity;
    try exact I; try (vm_compute; discriminate).
  destruct (Qlt_bool 0 q) eqn:E; cbn; [vm_compute; discriminate|].
  apply Qlt_bool_false in E. lra.
Qed.

Lemma not_negative_fmul (w : Q) (x : pyfloat) :
  0 <= w -> not_negative x -> not_negative (fmul (Fin w) x).
Proof.
  intros Hw Hx. destruct x as [q|s|]; cbn in *; [nra| |exact I].
  subst s. destruct (Qeq_bool w 0); [exact I|]. cbn.
  destruct (Qlt_bool w 0) eqn:E; [|reflexivity].
  apply Qlt_bool_iff in E. lra.
Qed.

Lemma not_negative_fadd (x y : pyfloat) :
  not_negative x -> not_negative y -> not_negative (fadd x y).
Proof.
  destruct x as [a|s|], y as [b|t|]; cbn; intros Hx Hy; subst;
    try exact I; try reflexivity; lra.
Qed.

Lemma not_negative_fdiv (x y : pyfloat) :
  not_negative x -> not_negative y -> not_negative (fdiv x y).
Proof.
  destruct x as [a|s|], y as [b|t|]; cbn; intros Hx Hy; subst;
    try exact I; try apply Qle_refl.
  - destruct (Qeq_bool b 0) eqn:Eb.
    + destruct (Qeq_bool a 0); [exact I|]. cbn.
      destruct (Qlt_bool a 0) eqn:E; [|reflexivity].
      apply Qlt_bool_iff in E. lra.
    + apply Qeq_bool_false in Eb. cbn.
      apply Qle_shift_div_l; lra.
  - cbn. destruct (Qlt_bool b 0) eqn:E; [|reflexivity].
    apply Qlt_bool_iff in E. lra.
Qed.

Lemma ewm_step_not_negative (alpha : Q) (st : ewm_state) (cur : pyfloat) :
  alpha <= 1 -> not_negative (weighted st) -> 0 <= old_wt st ->
  not_negative cur ->
  not_negative (weighted (ewm_step alpha st cur)) /\
  0 <= old_wt (ewm_step alpha st cur).
Proof.
  intros Ha Hw Hwt Hc. unfold ewm_step.
  assert (0 <= old_wt st * (1 - alpha)) as Hd by nra.
  destruct (is_observation (weighted st)).
  - destruct (is_observation cur); cbn [weighted old_wt].
    + split; [|lra].
      destruct (feq (weighted st) cur); [exact Hw|].
      apply not_negative_fdiv; [|cbn; lra].
      apply not_negative_fadd; apply not_negative_fmul;
        try assumption; lra.
    + split; assumption.
  - destruct (is_observation cur); cbn [weighted old_wt]; split; assumption.
Qed.

Lemma ewm_from_not_negative (alpha : Q) (minp : Z) (vals : list pyfloat) :
  alpha <= 1 -> Forall not_negative vals ->
  forall st, not_negative (weighted st) -> 0 <= old_wt st ->
  Forall not_negative (ewm_from alpha minp st vals).
Proof.
  intros Ha Hvals. induction Hvals as [|cur tl Hc _ IH]; intros st Hw Hwt;
    cbn [ewm_from]; constructor.
  - destruct (minp <=? _)%Z; [|exact I].
    apply ewm_step_not_negative; assumption.
  - apply IH; apply ewm_step_not_negative; assumption.
Qed.

Lemma length_ewm_from (alpha : Q) (minp : Z) (vals : list pyfloat) :
  forall st, length (ewm_from alpha minp st vals) = length vals.
Proof.
  induction vals as [|cur tl IH]; intros st; cbn [ewm_from length];
    [reflexivity|]. rewrite IH. reflexivity.
Qed.

Lemma length_diff_from (series : list pyfloat) :
  forall prev, length (diff_from prev series) = length series.
Proof.
  induction series as [|x tl IH]; intros prev; cbn [diff_from length];
    [reflexivity|]. rewrite IH. reflexivity.
Qed.

Lemma nobs_step (alpha : Q) (st : ewm_state) (cur : pyfloat) :
  (nobs (ewm_step alpha st cur) <= nobs st + 1)%Z.
Proof.
  unfold ewm_step.
  destruct (is_observation (weighted st)), (is_observation cur);
    cbn [nobs]; lia.
Qed.

(** Nothing comes out before [minp] rows can have been seen. *)
Lemma ewm_from_warms_up (alpha : Q) (minp : Z) (vals : list pyfloat) :
  forall st i, (nobs st + Z.of_nat (S i) < minp)%Z ->
  nth i (ewm_from alpha minp st vals) NaN = NaN.
Proof.
  induction vals as [|cur tl IH]; intros st i Hi; cbn [ewm_from].
  - destruct i; reflexivity.
  - pose proof (nobs_step alpha st cur) as Hn.
    destruct i as [|i]; cbn [nth].
    + destruct (Z.leb_spec minp (nobs (ewm_step alpha st cur)));
        [lia|reflexivity].
    + apply IH. lia.
Qed.

Lemma ewm_of_diff_warms_up (alpha : Q) (minp : Z) (f : pyfloat -> pyfloat)
  (series : list pyfloat) (i : nat) :
  f NaN = NaN -> (1 <= minp)%Z -> (Z.of_nat i < minp)%Z ->
  nth i (ewm_from alpha minp (mkEwm NaN 1 0) (map f (diff series))) NaN = NaN.
Proof.
  intros Hf Hm Hi. destruct series as [|x tl]; [destruct i; reflexivity|].
  unfold diff. cbn [diff_from map ewm_from].
  replace (f (fsub x NaN)) with NaN
    by (destruct x; cbn; symmetry; exact Hf).
  cbn [ewm_step is_observation weighted nobs old_wt].
  destruct i as [|i]; cbn [nth].
  - destruct (Z.leb_spec minp 0); [lia|reflexivity].
  - apply ewm_from_warms_up. cbn [nobs]. lia.
Qed.

Lemma rsi_of_percentage (rs : pyfloat) :
  not_negative rs -> percentage (rsi_of rs).
Proof.
  unfold rsi_of. destruct rs as [q|s|]; cbn; intros H; [|subst s; cbn|exact I].
  - destruct (Qeq_bool (1 + q) 0) eqn:E.
    + apply Qeq_bool_iff in E. lra.
    + cbn. assert (0 < 1 + q) as Hp by lra.
      assert (0 <= 100 / (1 + q)) by (apply Qle_shift_div_l; lra).
      assert (100 / (1 + q) <= 100) by (apply Qle_shift_div_r; lra).
      lra.
  - lra.
Qed.

Lemma rsi_cells_percentage (g l : list pyfloat) :
  Forall not_negative g -> Forall not_negative l ->
  Forall percentage
    (map rsi_of (map (fun p : pyfloat * pyfloat => fdiv (fst p) (snd p))
                     (combine g l))).
Proof.
  intros Hg. revert l. induction Hg as [|a g Ha _ IH]; intros l Hl;
    [constructor|].
  destruct Hl as [|b l Hb Hl]; cbn [combine map]; constructor.
  - apply rsi_of_percentage, not_negative_fdiv; assumption.
  - apply IH. exact Hl.
Qed.

Lemma rsi_cells_nan (g l : list pyfloat) :
  forall i, nth i g NaN = NaN ->
  nth i (map rsi_of (map (fun p : pyfloat * pyfloat => fdiv (fst p) (snd p))
                         (combine g l))) NaN = NaN.
Proof.
  revert l. induction g as [|a g IH]; intros l i Hi;
    [destruct i; reflexivity|].
  destruct l as [|b l]; [destruct i; reflexivity|].
  cbn [combine map]. destruct i as [|i]; cbn [nth] in *.
  - subst a. reflexivity.
  - apply IH. exact Hi.
Qed.

Lemma alpha_of_period (period : Z) :
  (1 <= period)%Z ->
  0 < 1 / inject_Z period /\ 1 / inject_Z period <= 1.
Proof.
  intros H. assert (1 <= inject_Z period) as Hq.
  { change 1 with (inject_Z 1). rewrite <- Zle_Qle. exact H. }
  split.
  - apply Qlt_shift_div_l; lra.
  - apply Qle_shift_div_r; lra.
Qed.

Lemma ewm_mean_returns (period : Z) (vals : list pyfloat) :
  (1 <= period)%Z ->
  ewm_mean (1 / inject_Z period) period vals
  = inr (ewm_from (1 / inject_Z period) period (mkEwm NaN 1 0)
                  (map prep_value vals)).
Proof.
  intros H. unfold ewm_mean. destruct (alpha_of_period period H) as [H0 H1].
  apply Qlt_bool_iff in H0. apply Qle_bool_iff in H1.
  rewrite H0, H1. cbn [andb]. rewrite Z.max_l by exact H. reflexivity.
Qed.

Lemma ewm_mean_refuses (period : Z) (vals : list pyfloat) :
  (period < 0)%Z ->
  ewm_mean (1 / inject_Z period) period vals = inl (Pandas ValueError).
Proof.
  intros H. unfold ewm_mean.
  destruct (Qlt_bool 0 (1 / inject_Z period)) eqn:E; [|reflexivity].
  exfalso. apply Qlt_bool_iff in E.
  assert (inject_Z period < 0) as Hq.
  { change 0 with (inject_Z 0). rewrite <- Zlt_Qlt. exact H. }
  assert (1 / inject_Z period == - (1 / - inject_Z period)) as Heq
    by (field; lra).
  assert (0 < 1 / - inject_Z period) by (apply Qlt_shift_div_l; lra).
  lra.
Qed.

Lemma not_negative_prep (x : pyfloat) :
  not_negative x -> not_negative (prep_value x).
Proof. destruct x; cbn; auto. Qed.

Lemma rsi_column (series : list pyfloat) (period : Z) :
  (1 <= period)%Z ->
  exists column,
    _rsi series period = inr column /\
    length column = length series /\
    (forall i, (Z.of_nat i < period)%Z -> nth i column NaN = NaN) /\
    Forall percentage column.
Proof.
  intros H. unfold _rsi.
  destruct (Z.eqb_spec period 0) as [E|_]; [lia|].
  rewrite !ewm_mean_returns by exact H.
  eexists. split; [reflexivity|].
  destruct (alpha_of_period period H) as [_ Ha].
  split; [|split].
  - rewrite !length_map, length_combine, !length_ewm_from, !length_map.
    unfold diff. rewrite length_diff_from. apply Nat.min_id.
  - intros i Hi. apply rsi_cells_nan. rewrite map_map.
    apply ewm_of_diff_warms_up; [reflexivity|exact H|exact Hi].
  - apply rsi_cells_percentage;
      (apply ewm_from_not_negative;
       [exact Ha| |exact I|cbn; lra]).
    + rewrite map_map. apply Forall_map, Forall_forall. intros x _.
      apply not_negative_prep, not_negative_clip_lower.
    + rewrite !map_map. apply Forall_map, Forall_forall. intros x _.
      apply not_negative_prep, not_negative_clip_upper.
Qed.

(** X19 (_rsi). A period of 0 raises [ZeroDivisionError] and a negative
    period makes pandas raise [ValueError]. For a period of at least 1
    the function returns a column with one cell per row, NaN in the first
    [period] rows, and every cell is NaN or a number between 0 and 100,
    whatever the series holds (NaN and infinities included). *)
Theorem rsi_is_a_percentage (series : list pyfloat) (period : Z) :
  (period = 0%Z -> _rsi series period = inl ZeroDivisionError) /\
  ((period < 0)%Z -> _rsi series period = inl (Pandas ValueError)) /\
  ((1 <= period)%Z ->
   exists column,
     _rsi series period = inr column /\
     length column = length series /\
     (forall i, (Z.of_nat i < period)%Z -> nth i column NaN = NaN) /\
     Forall percentage column).
Proof.
  split; [|split].
  - intros ->. reflexivity.
  - intros H. unfold _rsi.
    destruct (Z.eqb_spec period 0) as [E|_]; [lia|].
    rewrite ewm_mean_refuses by exact H. reflexivity.
  - apply rsi_column.
Qed.

Lemma ewm_step_finite (alpha : Q) (st : ewm_state) (w v : Q) :
  alpha < 1 -> weighted st = Fin w -> 0 <= w -> 0 < old_wt st -> 0 <= v ->
  exists w',
    weighted (ewm_step alpha st (Fin v)) = Fin w' /\ 0 <= w' /\
    (0 < w' <-> 0 < w \/ 0 < v) /\
    0 < old_wt (ewm_step alpha st (Fin v)) /\
    nobs (ewm_step alpha st (Fin v)) = (nobs st + 1)%Z.
Proof.
  intros Ha Hw Hw0 Hwt Hv. unfold ewm_step. rewrite Hw.
  cbn [is_observation weighted old_wt nobs feq].
  set (wt := old_wt st * (1 - alpha)).
  assert (0 < wt) as Hpos by (unfold wt; nra).
  destruct (Qeq_bool w v) eqn:E.
  - apply Qeq_bool_iff in E. exists w. repeat split; try lra; auto.
  - cbn [fmul fadd fdiv].
    destruct (Qeq_bool (wt + 1) 0) eqn:E0;
      [apply Qeq_bool_iff in E0; lra|].
    exists ((wt * w + 1 * v) / (wt + 1)).
    assert (0 <= wt * w) by nra.
    repeat split; try lra.
    + apply Qle_shift_div_l; lra.
    + intros Hq.
      assert (wt * w + 1 * v == (wt * w + 1 * v) / (wt + 1) * (wt + 1))
        as Heq by (field; lra).
      assert (0 < wt * w + 1 * v) as Hn by (rewrite Heq; nra).
      destruct (Qlt_le_dec 0 v) as [Hv'|Hv']; [right; exact Hv'|].
      left. assert (v == 0) as Hz by lra. rewrite Hz in Hn. nra.
    + intros Hor. apply Qlt_shift_div_l; [lra|].
      destruct Hor as [Hor|Hor]; nra.
Qed.

Lemma ewm_run (alpha : Q) (minp : Z) (vs : list Q) :
  alpha < 1 -> Forall (fun v => 0 <= v) vs ->
  forall st w i,
    weighted st = Fin w -> 0 <= w -> 0 < old_wt st -> (i < length vs)%nat ->
    exists wi,
      nth i (ewm_from alpha minp st (map Fin vs)) NaN
      = (if (minp <=? nobs st + Z.of_nat i + 1)%Z then Fin wi else NaN) /\
      0 <= wi /\
      (0 < wi <-> 0 < w \/ exists k, (k <= i)%nat /\ 0 < nth k vs 0).
Proof.
  intros Ha Hvs. induction Hvs as [|v tl Hv _ IH]; intros st w i Hw Hw0 Hwt Hi;
    [cbn in Hi; lia|].
  destruct (ewm_step_finite alpha st w v Ha Hw Hw0 Hwt Hv)
    as (w' & Hw' & Hw'0 & Hiff & Hwt' & Hn).
  cbn [map ewm_from]. destruct i as [|i]; cbn [nth].
  - exists w'. rewrite Hw', Hn. cbn [Z.of_nat].
    replace (nobs st + 0 + 1)%Z with (nobs st + 1)%Z by lia.
    split; [reflexivity|]. split; [exact Hw'0|].
    rewrite Hiff. split.
    + intros [H|H]; [left; exact H|right; exists 0%nat; split; [lia|exact H]].
    + intros [H|(k & Hk & H)]; [left; exact H|].
      assert (k = 0%nat) as -> by lia. right. exact H.
  - cbn [length] in Hi.
    destruct (IH (ewm_step alpha st (Fin v)) w' i Hw' Hw'0 Hwt' ltac:(lia))
      as (wi & Hnth & Hwi & Hiff').
    exists wi. rewrite Hnth, Hn.
    replace (nobs st + 1 + Z.of_nat i + 1)%Z
      with (nobs st + Z.of_nat (S i) + 1)%Z by lia.
    split; [reflexivity|]. split; [exact Hwi|].
    rewrite Hiff', Hiff. split.
    + intros [[H|H]|(k & Hk & H)].
      * left. exact H.
      * right. exists 0%nat. split; [lia|exact H].
      * right. exists (S k). split; [lia|exact H].
    + intros [H|(k & Hk & H)]; [left; left; exact H|].
      destruct k as [|k]; [left; right; exact H|].
      right. exists k. split; [lia|exact H].
Qed.

(** The mean of a series that starts with one NaN. *)
Lemma ewm_after_gap (alpha : Q) (minp : Z) (vs : list Q) (i : nat) :
  alpha < 1 -> Forall (fun v => 0 <= v) vs -> (i < length vs)%nat ->
  exists wi,
    nth (S i) (ewm_from alpha minp (mkEwm NaN 1 0) (NaN :: map Fin vs)) NaN
    = (if (minp <=? Z.of_nat i + 1)%Z then Fin wi else NaN) /\
    0 <= wi /\
    (0 < wi <-> exists k, (k <= i)%nat /\ 0 < nth k vs 0).
Proof.
  intros Ha Hvs Hi. cbn [ewm_from nth].
  change (ewm_step alpha (mkEwm NaN 1 0) NaN) with (mkEwm NaN 1 0).
  destruct vs as [|v tl]; [cbn in Hi; lia|].
  inversion Hvs as [|? ? Hv Htl]; subst.
  cbn [map ewm_from].
  change (ewm_step alpha (mkEwm NaN 1 0) (Fin v)) with (mkEwm (Fin v) 1 (0 + 1)).
  destruct i as [|i]; cbn [nth].
  - exists v. cbn [weighted nobs Z.of_nat]. split; [reflexivity|].
    split; [exact Hv|]. split.
    + intros H. exists 0%nat. split; [lia|exact H].
    + intros (k & Hk & H). assert (k = 0%nat) as -> by lia. exact H.
  - cbn [length] in Hi.
    destruct (ewm_run alpha minp tl Ha Htl (mkEwm (Fin v) 1 (0 + 1)) v i
                eq_refl Hv ltac:(cbn; lra) ltac:(lia))
      as (wi & Hnth & Hwi & Hiff).
    exists wi. rewrite Hnth. cbn [nobs].
    replace (0 + 1 + Z.of_nat i + 1)%Z with (Z.of_nat (S i) + 1)%Z by lia.
    split; [reflexivity|]. split; [exact Hwi|].
    rewrite Hiff. split.
    + intros [H|(k & Hk & H)].
      * exists 0%nat. split; [lia|exact H].
      * exists (S k). split; [lia|exact H].
    + intros (k & Hk & H). destruct k as [|k]; [left; exact H|].
      right. exists k. split; [lia|exact H].
Qed.

Lemma diff_from_finite (closes : list Q) :
  forall prev,
    diff_from (Fin prev) (map Fin closes) = map Fin (changes prev closes).
Proof.
  induction closes as [|c tl IH]; intros prev; [reflexivity|].
  cbn [map diff_from changes]. rewrite IH. reflexivity.
Qed.

Lemma nth_changes (closes : list Q) :
  forall prev k, (k < length closes)%nat ->
  nth k (changes prev closes) 0 = nth k closes 0 - nth k (prev :: closes) 0.
Proof.
  induction closes as [|c tl IH]; intros prev k Hk; [cbn in Hk; lia|].
  destruct k as [|k]; [reflexivity|].
  cbn [changes nth]. cbn [length] in Hk. rewrite IH by lia. reflexivity.
Qed.

Lemma length_changes (closes : list Q) :
  forall prev, length (changes prev closes) = length closes.
Proof.
  induction closes as [|c tl IH]; intros prev; [reflexivity|].
  cbn [changes length]. rewrite IH. reflexivity.
Qed.

Lemma nth_rsi_cells (g l : list pyfloat) :
  forall i, (i < length g)%nat -> (i < length l)%nat ->
  nth i (map rsi_of (map (fun p : pyfloat * pyfloat => fdiv (fst p) (snd p))
                         (combine g l))) NaN
  = rsi_of (fdiv (nth i g NaN) (nth i l NaN)).
Proof.
  revert l. induction g as [|a g IH]; intros l i Hg Hl; [cbn in Hg; lia|].
  destruct l as [|b l]; [cbn in Hl; lia|].
  cbn [combine map]. destruct i as [|i]; [reflexivity|].
  cbn [nth length] in *. apply IH; lia.
Qed.

(** Line 15 on two finite means that are not negative. *)
Lemma rsi_of_means (g l : Q) :
  0 <= g -> 0 <= l ->
  let cell := rsi_of (fdiv (Fin g) (Fin l)) in
  (~ 0 < g -> ~ 0 < l -> cell = NaN) /\
  (0 < g -> ~ 0 < l -> exists r, cell = Fin r /\ r == 100) /\
  (~ 0 < g -> 0 < l -> exists r, cell = Fin r /\ r == 0) /\
  (0 < g -> 0 < l -> exists r, cell = Fin r /\ 0 < r /\ r < 100).
Proof.
  intros Hg Hl. cbv zeta. unfold rsi_of. cbn [fdiv].
  destruct (Qeq_bool l 0) eqn:El.
  - apply Qeq_bool_iff in El.
    destruct (Qeq_bool g 0) eqn:Eg.
    + apply Qeq_bool_iff in Eg.
      split; [|split; [|split]]; intros H1 H2; try lra. reflexivity.
    + apply Qeq_bool_false in Eg.
      assert (Qlt_bool g 0 = false) as ->.
      { destruct (Qlt_bool g 0) eqn:E; [|reflexivity].
        apply Qlt_bool_iff in E. lra. }
      cbn. split; [|split; [|split]]; intros H1 H2; try lra.
      eexists. split; [reflexivity|]. lra.
  - apply Qeq_bool_false in El. assert (0 < l) as Hlpos by lra.
    cbn [fadd fdiv].
    assert (0 <= g / l) as Hrs by (apply Qle_shift_div_l; lra).
    destruct (Qeq_bool (1 + g / l) 0) eqn:E0;
      [apply Qeq_bool_iff in E0; lra|].
    cbn [fsub fneg fadd].
    assert (0 < 100 / (1 + g / l)) as Hlo by (apply Qlt_shift_div_l; lra).
    split; [|split; [|split]]; intros H1 H2; try lra.
    + eexists. split; [reflexivity|].
      assert (g == 0) as Hz by lra. rewrite Hz. field. lra.
    + eexists. split; [reflexivity|].
      assert (0 < g / l) as Hrs' by (apply Qlt_shift_div_l; lra).
      assert (100 / (1 + g / l) < 100) by (apply Qlt_shift_div_r; lra).
      split; lra.
Qed.

Lemma prep_finite (l : list Q) : map prep_value (map Fin l) = map Fin l.
Proof. rewrite map_map. reflexivity. Qed.

(** The cell of a row past the warm-up, for a series of finite numbers:
    line 15 on two means that are not negative, the first positive when
    the series has risen, the second when it has fallen. *)
Lemma rsi_of_history (closes : list Q) (period : Z) (column : list pyfloat)
  (j : nat) :
  (2 <= period)%Z ->
  _rsi (map Fin closes) period = inr column ->
  (period <= Z.of_nat j)%Z -> (j < length closes)%nat ->
  exists g l,
    0 <= g /\ 0 <= l /\
    (0 < g <-> rose closes j) /\ (0 < l <-> fell closes j) /\
    nth j column NaN = rsi_of (fdiv (Fin g) (Fin l)).
Proof.
  intros Hp Hrun Hpj Hj. unfold _rsi in Hrun.
  destruct (Z.eqb_spec period 0) as [E|_]; [lia|].
  rewrite !ewm_mean_returns in Hrun by lia.
  injection Hrun as <-.
  destruct closes as [|c0 cs]; [cbn in Hj; lia|].
  destruct j as [|i]; [lia|]. cbn [length] in Hj.
  assert (i < length cs)%nat as Hi by lia.
  unfold diff. cbn [map diff_from].
  change (fsub (Fin c0) NaN) with NaN.
  rewrite diff_from_finite.
  change (clip_lower 0 NaN) with NaN. change (clip_upper 0 NaN) with NaN.
  change (fneg NaN) with NaN. change (prep_value NaN) with NaN.
  set (pos := fun d : Q => if Qlt_bool d 0 then 0 else d).
  set (neg := fun d : Q => - (if Qlt_bool 0 d then 0 else d)).
  assert (map (clip_lower 0) (map Fin (changes c0 cs))
          = map Fin (map pos (changes c0 cs))) as ->.
  { rewrite !map_map. apply map_ext. intros d. unfold clip_lower, pos.
    cbn [flt]. destruct (Qlt_bool d 0); reflexivity. }
  assert (map fneg (map (clip_upper 0) (map Fin (changes c0 cs)))
          = map Fin (map neg (changes c0 cs))) as ->.
  { rewrite !map_map. apply map_ext. intros d. unfold clip_upper, neg.
    cbn [flt]. destruct (Qlt_bool 0 d); reflexivity. }
  rewrite !prep_finite.
  assert (1 / inject_Z period < 1) as Ha.
  { assert (2 <= inject_Z period) as Hq.
    { change 2 with (inject_Z 2). rewrite <- Zle_Qle. exact Hp. }
    apply Qlt_shift_div_r; lra. }
  assert (Forall (fun v => 0 <= v) (map pos (changes c0 cs))) as Hgs.
  { apply Forall_map, Forall_forall. intros d _. unfold pos.
    destruct (Qlt_bool d 0) eqn:E; [lra|]. apply Qlt_bool_false. exact E. }
  assert (Forall (fun v => 0 <= v) (map neg (changes c0 cs))) as Hls.
  { apply Forall_map, Forall_forall. intros d _. unfold neg.
    destruct (Qlt_bool 0 d) eqn:E; [lra|]. apply Qlt_bool_false in E. lra. }
  assert (i < length (map pos (changes c0 cs)))%nat as Hig
    by (rewrite length_map, length_changes; exact Hi).
  assert (i < length (map neg (changes c0 cs)))%nat as Hil
    by (rewrite length_map, length_changes; exact Hi).
  destruct (ewm_after_gap _ period _ i Ha Hgs Hig) as (g & Hg & Hg0 & Hgiff).
  destruct (ewm_after_gap _ period _ i Ha Hls Hil) as (l & Hl & Hl0 & Hliff).
  rewrite nth_rsi_cells
    by (rewrite length_ewm_from; cbn [length]; rewrite length_map; lia).
  rewrite Hg, Hl.
  destruct (Z.leb_spec period (Z.of_nat i + 1)) as [_|Hlt]; [|lia].
  assert (forall k, (k <= i)%nat ->
            nth k (changes c0 cs) 0
            = nth (S k) (c0 :: cs) 0 - nth k (c0 :: cs) 0) as Hch.
  { intros k Hk. rewrite nth_changes by lia. reflexivity. }
  exists g, l. split; [exact Hg0|]. split; [exact Hl0|].
  split; [|split; [|reflexivity]].
  - rewrite Hgiff. unfold rose. split; intros (k & Hk & H); exists k;
      (split; [lia|]).
    + change 0 with (pos 0) in H at 2. rewrite map_nth in H.
      rewrite Hch in H by lia. unfold pos in H.
      destruct (Qlt_bool _ 0) eqn:E in H; [apply Qlt_irrefl in H; tauto|].
      lra.
    + change 0 with (pos 0) at 2. rewrite map_nth, Hch by lia. unfold pos.
      destruct (Qlt_bool _ 0) eqn:E; [apply Qlt_bool_iff in E; lra|lra].
  - rewrite Hliff. unfold fell. split; intros (k & Hk & H); exists k;
      (split; [lia|]).
    + assert (nth k (map neg (changes c0 cs)) 0
              == neg (nth k (changes c0 cs) 0)) as Heq.
      { destruct (Nat.lt_ge_cases k (length (changes c0 cs))) as [Hin|Hout].
        - rewrite (nth_indep _ 0 (neg 0))
            by (rewrite length_map; exact Hin).
          rewrite map_nth. reflexivity.
        - rewrite length_changes in Hout. lia. }
      rewrite Heq, Hch in H by lia. unfold neg in H.
      destruct (Qlt_bool 0 _) eqn:E in H; [lra|]. lra.
    + rewrite (nth_indep _ 0 (neg 0))
        by (rewrite length_map, length_changes; lia).
      rewrite map_nth, Hch by lia. unfold neg.
      destruct (Qlt_bool 0 _) eqn:E; [apply Qlt_bool_iff in E; lra|lra].
Qed.

(** X20 (_rsi). For a series of finite numbers and a period of at least
    2, one-way prices pin the cell of a row [j >= period] to an end of
    the scale: when the series has never fallen up to [j] the cell is NaN
    or 100, when it has never risen the cell is NaN or 0, and when it has
    never moved the cell is NaN.  A cell strictly between 0 and 100
    therefore tells that the series both rose and fell at some point of
    its history. *)
Theorem one_way_prices_pin_the_rsi
  (closes : list Q) (period : Z) (column : list pyfloat) (j : nat) :
  (2 <= period)%Z ->
  _rsi (map Fin closes) period = inr column ->
  (period <= Z.of_nat j)%Z -> (j < length closes)%nat ->
  (~ fell closes j ->
   nth j column NaN = NaN \/
   exists r, nth j column NaN = Fin r /\ r == 100) /\
  (~ rose closes j ->
   nth j column NaN = NaN \/
   exists r, nth j column NaN = Fin r /\ r == 0) /\
  (~ rose closes j -> ~ fell closes j -> nth j column NaN = NaN) /\
  (forall r, nth j column NaN = Fin r -> ~ r == 0 -> ~ r == 100 ->
             rose closes j /\ fell closes j).
Proof.
  intros Hp Hrun Hpj Hj.
  destruct (rsi_of_history closes period column j Hp Hrun Hpj Hj)
    as (g & l & Hg0 & Hl0 & Hrose & Hfell & ->).
  destruct (rsi_of_means g l Hg0 Hl0) as (Hnn & Hup & Hdown & Hboth).
  split; [|split; [|split]].
  - intros Hnf. assert (~ 0 < l) as Hl by (rewrite Hfell; exact Hnf).
    destruct (Qlt_le_dec 0 g) as [Hg|Hg].
    + right. exact (Hup Hg Hl).
    + left. apply Hnn; [lra|exact Hl].
  - intros Hnr. assert (~ 0 < g) as Hg by (rewrite Hrose; exact Hnr).
    destruct (Qlt_le_dec 0 l) as [Hl|Hl].
    + right. exact (Hdown Hg Hl).
    + left. apply Hnn; [exact Hg|lra].
  - intros Hnr Hnf. apply Hnn; [rewrite Hrose|rewrite Hfell]; assumption.
  - intros r Hr Hn0 Hn100.
    destruct (Qlt_le_dec 0 g) as [Hg|Hg]; destruct (Qlt_le_dec 0 l) as [Hl|Hl].
    + split; [apply Hrose|apply Hfell]; assumption.
    + exfalso. destruct (Hup Hg ltac:(lra)) as (r' & Hr' & H100).
      rewrite Hr in Hr'. injection Hr' as <-. exact (Hn100 H100).
    + exfalso. destruct (Hdown ltac:(lra) Hl) as (r' & Hr' & H0).
      rewrite Hr in Hr'. injection Hr' as <-. exact (Hn0 H0).
    + exfalso. rewrite Hnn in Hr by lra. discriminate.
Qed.

Lemma one_way_prices_pin_the_rsi_witness :
  nth 3 rising_rsi NaN = NaN \/
  exists r, nth 3 rising_rsi NaN = Fin r /\ r == 100.
Proof.
  refine (proj1 (one_way_prices_pin_the_rsi rising 2 rising_rsi 3 _ _ _ _) _).
  - lia.
  - vm_compute. reflexivity.
  - lia.
  - simpl. lia.
  - intros (k & Hk & H).
    destruct k as [|[|[|k]]]; [vm_compute in H; discriminate H ..|lia].
Defined.

Lemma combine_map_same {A B C : Type} (f : A -> B) (g : A -> C)
  (l : list A) :
  combine (map f l) (map g l) = map (fun x => (f x, g x)) l.
Proof.
  induction l as [|x l IH]; [reflexivity|]. cbn [map combine].
  rewrite IH. reflexivity.
Qed.

Lemma flt_nan_r (x : pyfloat) : flt x NaN = false.
Proof. destruct x; reflexivity. Qed.

(** The vectorised assignments of lines 84-94, row by row. *)
Lemma generate_signals_rows (self : MeanReversionStrategy) (df : list Row) :
  generate_signals self df
  = map (fun r => if sells self r then (-1)%Z
                  else if buys self r then 1%Z else 0%Z) df.
Proof.
  unfold generate_signals, loc_assign, and_columns, buys, sells.
  destruct (truth (use_bollinger self)); cbn [negb orb];
    repeat (rewrite ?combine_map_same, ?map_map; cbn [fst snd]);
    apply map_ext; intros r; rewrite ?Bool.andb_true_r; reflexivity.
Qed.

Lemma nth_generate_signals (self : MeanReversionStrategy) (df : list Row)
  (i : nat) :
  nth i (generate_signals self df) 0%Z
  = let r := nth i df nan_row in
    if sells self r then (-1)%Z else if buys self r then 1%Z else 0%Z.
Proof.
  rewrite generate_signals_rows. cbv zeta.
  set (h := fun r => if sells self r then (-1)%Z
                     else if buys self r then 1%Z else 0%Z).
  assert (h nan_row = 0%Z) as H0.
  { unfold h, sells, buys. cbn [rsi nan_row]. rewrite flt_nan_r.
    reflexivity. }
  rewrite <- H0 at 1. apply map_nth.
Qed.

(** X21 (MeanReversionStrategy.generate_signals, lines 84-94). The
    signal column has one cell per row; a row where the sell condition
    holds gets -1 even if the buy condition holds too, a row where only
    the buy condition holds gets 1, every other row gets 0; and a row
    whose RSI is NaN gets 0. *)
Theorem sell_overrides_buy (self : MeanReversionStrategy) (df : list Row)
  (i : nat) :
  let signal := generate_signals self df in
  let r := nth i df nan_row in
  length signal = length df /\
  nth i signal 0%Z
  = (if sells self r then (-1)%Z else if buys self r then 1%Z else 0%Z) /\
  (rsi r = NaN -> nth i signal 0%Z = 0%Z).
Proof.
  cbv zeta. split; [|split].
  - rewrite generate_signals_rows. apply length_map.
  - apply nth_generate_signals.
  - intros Hnan. rewrite nth_generate_signals. cbv zeta.
    unfold sells, buys. rewrite Hnan, flt_nan_r. reflexivity.
Qed.

Lemma thresholds_exclude (x low high : pyfloat) :
  fle low high = true -> flt x low = true -> flt high x = true -> False.
Proof.
  unfold fle.
  destruct x as [x|[]|], low as [a|[]|], high as [b|[]|]; cbn;
    intros H1 H2 H3; try discriminate.
  apply Qlt_bool_iff in H2, H3. apply Bool.orb_true_iff in H1.
  destruct H1 as [H1|H1];
    [apply Qlt_bool_iff in H1|apply Qeq_bool_iff in H1]; lra.
Qed.

(** X22 (MeanReversionStrategy.generate_signals, lines 84-94). When
    [rsi_oversold <= rsi_overbought], the buy and the sell condition
    never hold on the same row, so a row gets 1 exactly when it meets the
    buy condition and -1 exactly when it meets the sell condition; and
    the confirmation by the Bollinger bands only removes signals: with it
    a row has the signal it has without it, or 0. *)
Theorem confirmation_only_removes_signals
  (self : MeanReversionStrategy) (df : list Row) (i : nat) :
  fle (number (rsi_oversold self)) (number (rsi_overbought self)) = true ->
  let confirmed := nth i (generate_signals self df) 0%Z in
  let plain := nth i (generate_signals (unconfirmed self) df) 0%Z in
  let r := nth i df nan_row in
  (confirmed = plain \/ confirmed = 0%Z) /\
  (confirmed = 1%Z <-> buys self r = true) /\
  (confirmed = (-1)%Z <-> sells self r = true).
Proof.
  intros Hord. cbv zeta. rewrite !nth_generate_signals. cbv zeta.
  set (r := nth i df nan_row).
  assert (buys self r = true -> sells self r = true -> False) as Hex.
  { unfold buys, sells. intros Hb Hs.
    apply Bool.andb_true_iff in Hb, Hs.
    exact (thresholds_exclude _ _ _ Hord (proj1 Hb) (proj1 Hs)). }
  assert (buys self r = true ->
          buys (unconfirmed self) r = true /\
          sells (unconfirmed self) r = false) as Hb.
  { unfold buys, sells. cbn [unconfirmed rsi_oversold rsi_overbought
                             use_bollinger truth negb orb].
    intros H. apply Bool.andb_true_iff in H. destruct H as [H _].
    rewrite H, Bool.andb_true_r. split; [reflexivity|].
    destruct (flt (number (rsi_overbought self)) (rsi r)) eqn:E;
      [|reflexivity].
    exfalso. exact (thresholds_exclude _ _ _ Hord H E). }
  assert (sells self r = true -> sells (unconfirmed self) r = true) as Hs.
  { unfold sells. cbn [unconfirmed rsi_overbought use_bollinger truth negb
                       orb].
    intros H. apply Bool.andb_true_iff in H. destruct H as [H _].
    rewrite H. reflexivity. }
  destruct (sells self r) eqn:Es.
  - rewrite (Hs eq_refl). split; [left; reflexivity|].
    split; [|split; reflexivity].
    split; [discriminate|]. intros H. exfalso. exact (Hex H eq_refl).
  - destruct (buys self r) eqn:Eb.
    + destruct (Hb eq_refl) as [-> ->]. split; [left; reflexivity|].
      split; split; try reflexivity; discriminate.
    + split; [right; reflexivity|]. split; split; discriminate.
Qed.

Lemma confirmation_only_removes_signals_witness :
  nth 3 (generate_signals init zigzag_frame) 0%Z = 1%Z <->
  buys init (nth 3 zigzag_frame nan_row) = true.
Proof.
  refine (proj1 (proj2
    (confirmation_only_removes_signals init zigzag_frame 3 _))).
  vm_compute. reflexivity.
Defined.

(** X23 (_rsi with generate_signals, lines 74 and 84-94). When the
    [rsi] column of the frame is what [_rsi] returns for its closes and
    the period of the strategy, the first [period] rows carry no
    signal. *)
Theorem no_signal_while_rsi_warms_up
  (self : MeanReversionStrategy) (df : list Row) (period : Z) (i : nat) :
  rsi_period self = PInt period ->
  _rsi (map close df) period = inr (map rsi df) ->
  (Z.of_nat i < period)%Z ->
  nth i (generate_signals self df) 0%Z = 0%Z.
Proof.
  intros _ Hrun Hi. rewrite nth_generate_signals. cbv zeta.
  assert (1 <= period)%Z as Hp by lia.
  destruct (rsi_column (map close df) period Hp)
    as (column & Hcol & _ & Hnan & _).
  rewrite Hrun in Hcol. injection Hcol as <-.
  specialize (Hnan i Hi).
  change NaN with (rsi nan_row) in Hnan at 1. rewrite map_nth in Hnan.
  unfold sells, buys. rewrite Hnan, flt_nan_r. reflexivity.
Qed.

Lemma no_signal_while_rsi_warms_up_witness :
  nth 1 (generate_signals
           (mkStrategy (PInt 2) (PInt 30) (PInt 70) (PBool true) (PInt 20)
                       (PFloat (Fin 2))) zigzag_frame) 0%Z = 0%Z.
Proof.
  apply (no_signal_while_rsi_warms_up _ zigzag_frame 2 1).
  - reflexivity.
  - vm_compute. reflexivity.
  - lia.
Defined.

End MeanReversionSignalsProofs.


(** ** Volatility contraction: the squeeze flag *)

Module SqueezeProofs.
Import VolatilityContraction SignalProofs SignalExtraProofs Squeeze.

Lemma length_rolling_apply (window : nat) (f : list Q -> Q)
  (xs : list (option Q)) :
  length (rolling_apply window f xs) = length xs.
Proof. unfold rolling_apply. rewrite length_map. apply length_seq. Qed.

Lemma nth_rolling_apply (window : nat) (f : list Q -> Q)
  (xs : list (option Q)) (i : nat) (r : Q) :
  nth i (rolling_apply window f xs) None = Some r ->
  (i < length xs)%nat /\ (window <= i + 1)%nat /\
  exists w, all_present (window_at window xs i) = Some w /\ r = f w.
Proof.
  intros H.
  destruct (Nat.lt_ge_cases i (length xs)) as [Hi|Hi].
  - unfold rolling_apply in H.
    match type of H with
    | nth _ (map ?g' _) _ = _ => set (g := g') in H
    end.
    rewrite (nth_indep _ None (g 0%nat)) in H
      by (rewrite length_map, length_seq; exact Hi).
    rewrite map_nth, seq_nth in H by exact Hi. unfold g in H.
    cbn [Nat.add] in H.
    destruct (Nat.leb_spec window (i + 1)) as [Hw|Hw]; [|discriminate].
    destruct (all_present (window_at window xs i)) as [w|]; [|discriminate].
    cbn in H. injection H as <-. split; [exact Hi|]. split; [exact Hw|].
    exists w. split; reflexivity.
  - rewrite nth_overflow in H by (rewrite length_rolling_apply; exact Hi).
    discriminate.
Qed.

Lemma length_all_present (window : list (option Q)) (w : list Q) :
  all_present window = Some w -> length w = length window.
Proof.
  revert w. induction window as [|[x|] tl IH]; intros w H; cbn in H.
  - injection H as <-. reflexivity.
  - destruct (all_present tl) as [l|]; [|discriminate].
    injection H as <-. cbn. rewrite (IH l eq_refl). reflexivity.
  - discriminate.
Qed.

Lemma length_window_at (window : nat) (xs : list (option Q)) (i : nat) :
  (i < length xs)%nat -> (window <= i + 1)%nat ->
  length (window_at window xs i) = window.
Proof.
  intros Hi Hw. unfold window_at. rewrite length_firstn, length_skipn. lia.
Qed.

Lemma count_positive (p : Q -> bool) (l : list Q) (x : Q) :
  In x l -> p x = true -> (1 <= count p l)%nat.
Proof.
  intros Hin Hp. unfold count.
  assert (In x (filter p l)) as H by (apply filter_In; split; assumption).
  destruct (filter p l); [destruct H|cbn; lia].
Qed.

Lemma tied_positive (l : list Q) : l <> [] -> (1 <= tied l)%nat.
Proof.
  intros Hne. unfold tied. apply (count_positive _ _ (last l 0)).
  - rewrite (app_removelast_last 0 Hne) at 2.
    apply in_or_app. right. left. reflexivity.
  - apply Qeq_bool_iff. reflexivity.
Qed.

(** A rank of at most [p] percent leaves room for fewer than [p] percent
    of the window below the last value. *)
Lemma percent_rank_bound (w : list Q) (p : Q) :
  w <> [] -> percent_rank w <= p ->
  inject_Z (Z.of_nat (S (below w))) * 100
  <= p * inject_Z (Z.of_nat (length w)).
Proof.
  intros Hne Hle. unfold percent_rank in Hle.
  pose proof (tied_positive w Hne) as Ht.
  assert (1 <= inject_Z (Z.of_nat (tied w))) as Ht'.
  { change 1 with (inject_Z 1). rewrite <- Zle_Qle. lia. }
  assert (0 < inject_Z (Z.of_nat (length w))) as Hl.
  { change 0 with (inject_Z 0). rewrite <- Zlt_Qlt.
    destruct w; [congruence|cbn [length]; lia]. }
  rewrite Nat2Z.inj_succ. unfold Z.succ. rewrite inject_Z_plus.
  change (inject_Z 1) with 1.
  generalize dependent (inject_Z (Z.of_nat (length w))).
  generalize dependent (inject_Z (Z.of_nat (tied w))).
  generalize (inject_Z (Z.of_nat (below w))).
  intros b t Ht' l Hle Hl.
  assert ((b + (t + 1) / 2) * 100 <= p * l) as H.
  { assert ((b + (t + 1) / 2) * 100
            == (b + (t + 1) / 2) / l * 100 * l) as -> by (field; lra).
    apply Qmult_le_compat_r; lra. }
  assert ((t + 1) / 2 == (t + 1) * (1 # 2)) as Hh by (field; lra).
  rewrite Hh in H. lra.
Qed.

Lemma nth_squeeze_column (lookback : nat) (p_bb p_atr : Q)
  (bb_width atr : list (option Q)) (i : nat) :
  length bb_width = length atr ->
  nth i (squeeze_column lookback p_bb p_atr bb_width atr) 0%Z
  = if le_cell (nth i (rolling_apply lookback percent_rank bb_width) None)
               p_bb
       && le_cell (nth i (rolling_apply lookback percent_rank atr) None)
                  p_atr
    then 1%Z else 0%Z.
Proof.
  intros Hlen. unfold squeeze_column.
  set (h := fun p : option Q * option Q =>
              if le_cell (fst p) p_bb && le_cell (snd p) p_atr
              then 1%Z else 0%Z).
  change 0%Z with (h (None, None)) at 1.
  rewrite map_nth, combine_nth
    by (rewrite !length_rolling_apply; exact Hlen).
  reflexivity.
Qed.

Lemma squeeze_cell (lookback : nat) (p : Q) (xs : list (option Q))
  (i : nat) :
  (1 <= lookback)%nat ->
  le_cell (nth i (rolling_apply lookback percent_rank xs) None) p = true ->
  (lookback <= i + 1)%nat /\
  exists w, all_present (window_at lookback xs i) = Some w /\
            inject_Z (Z.of_nat (S (below w))) * 100
            <= p * inject_Z (Z.of_nat lookback).
Proof.
  intros Hl H.
  destruct (nth i (rolling_apply lookback percent_rank xs) None) as [r|] eqn:E;
    [|discriminate].
  cbn in H. apply Qle_bool_iff in H.
  apply nth_rolling_apply in E. destruct E as (Hi & Hw & w & Hall & ->).
  split; [exact Hw|]. exists w. split; [exact Hall|].
  pose proof (length_all_present _ _ Hall) as Hlen.
  rewrite length_window_at in Hlen by assumption.
  rewrite <- Hlen. apply percent_rank_bound; [|exact H].
  intros ->. cbn in Hlen. lia.
Qed.

Lemma low_threshold (lookback : nat) (p : Q) (b : nat) :
  p * inject_Z (Z.of_nat lookback) < 100 ->
  inject_Z (Z.of_nat (S b)) * 100 <= p * inject_Z (Z.of_nat lookback) ->
  False.
Proof.
  intros Hlow H.
  assert (1 <= inject_Z (Z.of_nat (S b))) as H1.
  { change 1 with (inject_Z 1). rewrite <- Zle_Qle. lia. }
  lra.
Qed.




(** X25 (VolatilityContractionStrategy.generate_signals, lines 67-95).
    With a squeeze or ATR percentile below 100 / lookback the strategy is
    silent: the squeeze flag is never set, and the signal column is 0 in
    every row. *)
Theorem low_percentile_disables_the_strategy
  (lookback : nat) (p_bb p_atr : Q) (bb_width atr : list (option Q))
  (rows : list Row) :
  (1 <= lookback)%nat -> length bb_width = length atr ->
  map squeeze rows = squeeze_column lookback p_bb p_atr bb_width atr ->
  p_bb * inject_Z (Z.of_nat lookback) < 100 \/
  p_atr * inject_Z (Z.of_nat lookback) < 100 ->
  generate_signals rows = repeat 0%Z (length rows).
Proof.
  intros Hl Hlen Hsq Hlow. apply no_squeeze_no_signal.
  intros r Hin Hone.
  apply (In_nth _ _ nan_row) in Hin. destruct Hin as (i & Hi & <-).
  assert (nth i (map squeeze rows) 0%Z = 1%Z) as H.
  { change 0%Z with (squeeze nan_row). rewrite map_nth. exact Hone. }
  rewrite Hsq, nth_squeeze_column in H by exact Hlen.
  destruct (le_cell (nth i (rolling_apply lookback percent_rank bb_width)
                         None) p_bb) eqn:Eb; [|discriminate].
  destruct (le_cell (nth i (rolling_apply lookback percent_rank atr) None)
                    p_atr) eqn:Ea; [|discriminate].
  destruct (squeeze_cell _ _ _ _ Hl Eb) as (_ & wb & _ & Hbb).
  destruct (squeeze_cell _ _ _ _ Hl Ea) as (_ & wa & _ & Hba).
  destruct Hlow as [Hlow|Hlow]; eapply low_threshold; eassumption.
Qed.

Lemma low_percentile_disables_the_strategy_witness :
  generate_signals narrowing_rows = repeat 0%Z (length narrowing_rows).
Proof.
  apply (low_percentile_disables_the_strategy 3 10 10 narrowing narrowing).
  - lia.
  - reflexivity.
  - vm_compute. reflexivity.
  - left. reflexivity.
Defined.

End SqueezeProofs.
